(** * mpENC (mpenc_js): wire codec, greeting state machine, session ids and
      data-message security

    A shallow embedding of the JavaScript sources

    - [src/mpenc/codec.js]           (module [Codec])
    - [src/mpenc/greet/greeter.js]   (module [Greeter])
    - the ASKE module [mpenc.ske]    (module [Ske])
    - the module [mpenc/message]     (module [Message])

    JavaScript strings are sequences of UTF-16 code units and are modelled
    as [list Z]; a binary ("byte") string is one whose units are below 256.
    JavaScript numbers that take part in bit operations are modelled as [Z]
    with the 32-bit wrap-around of the language written out.  Exceptions are
    an explicit [result]; objects that are mutated are passed and returned
    explicitly. *)

From Stdlib Require Import ZArith List String Ascii Lia Bool.
From stdpp Require Import base list gmap sorting.

Local Open Scope Z_scope.

(** ** JavaScript values *)

(** A string is the list of its UTF-16 code units. *)
Abbreviation jsstring := (list Z).

(** String literals of the sources. *)
Definition js (s : string) : jsstring :=
  map (fun a => Z.of_N (N_of_ascii a)) (list_ascii_of_string s).

Definition is_byte (c : Z) : Prop := 0 <= c < 256.
Definition is_unit (c : Z) : Prop := 0 <= c < 65536.

(** Binary strings and well-formed strings. *)
Definition bytestring (s : jsstring) : Prop := Forall is_byte s.
Definition wfstring (s : jsstring) : Prop := Forall is_unit s.

(** The values that flow through the untyped constructor calls of the
    sources.  Arrays only ever hold strings here. *)
Inductive jsval :=
| VUndef
| VNull
| VBool (b : bool)
| VNum (n : Z)
| VStr (s : jsstring)
| VArr (l : list jsstring).

(** [ToBoolean]. *)
Definition truthy (v : jsval) : bool :=
  match v with
  | VUndef | VNull => false
  | VBool b => b
  | VNum n => negb (n =? 0)
  | VStr s => match s with [] => false | _ => true end
  | VArr _ => true
  end.

(** [a || b]. *)
Definition js_oror (a b : jsval) : jsval := if truthy a then a else b.

(** [v === VNum n]. *)
Definition is_num (v : jsval) (n : Z) : bool :=
  match v with VNum m => m =? n | _ => false end.

(** [v === true || v === 1], and [v === 0 || v === false]. *)
Definition is_true_or_1 (v : jsval) : bool :=
  match v with VBool true => true | VNum 1 => true | _ => false end.
Definition is_false_or_0 (v : jsval) : bool :=
  match v with VBool false => true | VNum 0 => true | _ => false end.

(** ** Exceptions *)

Inductive result (A : Type) :=
| Ok (a : A)
| Throw (e : string).
Arguments Ok {A} a.
Arguments Throw {A} e.

Global Instance result_ret : MRet result := fun A a => Ok a.
Global Instance result_bind : MBind result := fun A B k r =>
  match r with
  | Ok a => k a
  | Throw e => Throw e
  end.

(** [_assert(cond, message)] of [mpenc/helper/assert]: raises when the
    condition is falsy. *)
Definition _assert (cond : bool) (message : string) : result unit :=
  if cond then Ok tt else Throw message.

Definition raises {A} (r : result A) : Prop := exists e, r = Throw e.

(** ** 32-bit integer operators *)

Definition ToInt32 (x : Z) : Z := (x + 2 ^ 31) mod 2 ^ 32 - 2 ^ 31.
Definition ToUint32 (x : Z) : Z := x mod 2 ^ 32.
Definition ToUint16 (x : Z) : Z := x mod 2 ^ 16.

(** [a << b], [a >> b], [a >>> b], [a | b], [a & b]. *)
Definition js_shl (a b : Z) : Z :=
  ToInt32 (Z.shiftl (ToInt32 a) (ToUint32 b mod 32)).
Definition js_sar (a b : Z) : Z := Z.shiftr (ToInt32 a) (ToUint32 b mod 32).
Definition js_shr (a b : Z) : Z := Z.shiftr (ToUint32 a) (ToUint32 b mod 32).
Definition js_or (a b : Z) : Z := Z.lor (ToInt32 a) (ToInt32 b).
Definition js_and (a b : Z) : Z := Z.land (ToInt32 a) (ToInt32 b).

(** [String.fromCharCode(n)] yields the single unit [n mod 2^16]. *)
Definition fromCharCode (n : Z) : Z := ToUint16 n.

(** [s.charCodeAt(i)] as an operand of a bit operator: out of range it is
    [NaN], which every bit operator reads as 0. *)
Definition charCodeAt (s : jsstring) (i : nat) : Z := nth i s 0.

(** [s.substring(a, b)] for [0 <= a <= b]. *)
Definition substring (a b : nat) (s : jsstring) : jsstring :=
  take (b - a) (drop a s).

(** ** Greet types, shared by [codec.js] and [greeter.js] *)

Module GreetType.

Definition _AUX_BIT : Z := 0.
Definition _DOWN_BIT : Z := 1.
Definition _GKA_BIT : Z := 2.
Definition _SKE_BIT : Z := 3.
Definition _OP_BITS : Z := 4.
Definition _INIT_BIT : Z := 7.
Definition _RECOVER_BIT : Z := 8.
Definition _OPERATION_MASK : Z := js_shl 0x07 _OP_BITS.

Definition greetTypeToNumber (typeString : jsstring) : Z :=
  js_or (js_shl (charCodeAt typeString 0) 8) (charCodeAt typeString 1).

Definition greetTypeFromNumber (typeNumber : Z) : jsstring :=
  [fromCharCode (js_shr typeNumber 8); fromCharCode (js_and typeNumber 0xff)].

Definition _isBitSetOnGreetType (greetType : jsstring) (bit : Z) : bool :=
  0 <? js_and (greetTypeToNumber greetType) (js_shl 1 bit).

Definition getOperationOnGreetType (greetType : jsstring) : Z :=
  js_shr (js_and (greetTypeToNumber greetType) _OPERATION_MASK) _OP_BITS.

(** [GREET_TYPE_MAPPING[t] !== undefined] for a table of enumerated
    types. *)
Definition known (table : list jsstring) (t : jsstring) : bool :=
  bool_decide (t ∈ table).

(** The body shared by [GreetMessage.prototype._setBit] and
    [ProtocolMessage.prototype._setBit]: the new value of the
    [greetType] field, or the exception raised before any assignment. *)
Definition _setBit (table : list jsstring) (greetType : option jsstring)
    (bit : Z) (value noMessageCheck : jsval) : result jsstring :=
  match greetType with
  | None => Throw "TypeError: greetType is null"
  | Some t =>
      let newGreetTypeNum := greetTypeToNumber t in
      newGreetTypeNum ←
        (if is_true_or_1 value then
           Ok (js_or newGreetTypeNum (js_shl 1 bit))
         else if is_false_or_0 value then
           Ok (js_and newGreetTypeNum (0xffff - js_shl 1 bit))
         else Throw "Illegal value for set/clear bit operation.");
      let newGreetType := greetTypeFromNumber newGreetTypeNum in
      if negb (known table newGreetType) then
        if negb (is_true_or_1 noMessageCheck) then
          Throw "Illegal message type!"
        else Ok newGreetType
      else Ok newGreetType
  end.

End GreetType.

(** ** Collaborators outside the repository *)

(** The cryptographic libraries ([jodid25519], [asmCrypto], [sjcl], the RSA
    code behind [smallrsasign]) and the protocol version of
    [mpenc/version] are taken as they are.  Binary strings and byte arrays
    are both lists of bytes. *)
Class Primitives := {
  sha256 : jsstring -> jsstring;
(** [jodid25519.eddsa.sign(message, privKey, pubKey)] *)
eddsa_sign : jsstring -> jsstring -> jsstring -> jsstring;
(** [jodid25519.eddsa.verify(signature, message, pubKey)] *)
eddsa_verify : jsstring -> jsstring -> jsstring -> bool;
(** [djbec.publickey(privKey)] *)
eddsa_publickey : jsstring -> jsstring;
(** [asmCrypto.AES_CTR.encrypt(data, key, nonce)] and [decrypt] *)
AES_CTR_encrypt : jsstring -> jsstring -> jsstring -> jsstring;
AES_CTR_decrypt : jsstring -> jsstring -> jsstring -> jsstring;
(** static RSA keys and their directory, and
    [mpenc.ske.smallrsasign(cleartext, privkey)] *)
StaticKey : Type;
StaticPubKeyDir : Type;
smallrsasign : jsstring -> StaticKey -> jsstring;
(** [version.PROTOCOL_VERSION] *)
PROTOCOL_VERSION : jsstring;
}.

(** Constants of [mpenc/codec] that [greeter.js] and [mpenc/message] name
    and that the codec under [src/] does not define: the record type and
    the two values of the message-type field, and the record types of the
    initiator metadata and of the data payload. *)
Class CodecConstants := {
  TLV_MESSAGE_TYPE : Z;
  MESSAGE_TYPE_GREET : jsstring;
  MESSAGE_TYPE_DATA : jsstring;
  TLV_PREV_PF : Z;
  TLV_CHAIN_HASH : Z;
  TLV_LATEST_PM : Z;
  TLV_MESSAGE_PARENT : Z;
  TLV_MESSAGE_BODY : Z;
  TLV_MESSAGE_PAYLOAD : Z;
}.

(** The random draws of one call, in the order in which the call makes
    them. *)
Definition Entropy := nat -> jsstring.

(** ** Base64 of the host environment ([btoa], [atob]) *)

Module Base64.

Definition alphabet : jsstring :=
  js "ABCDEFGHIJKLMNOPQRSTUVWXYZabcdefghijklmnopqrstuvwxyz0123456789+/".

(** The character of a 6-bit value, and the 6-bit value of a character. *)
Definition b64_char (i : Z) : Z := nth (Z.to_nat i) alphabet 0.

Definition b64_index (c : Z) : option Z :=
  if (65 <=? c) && (c <=? 90) then Some (c - 65)
  else if (97 <=? c) && (c <=? 122) then Some (c - 71)
  else if (48 <=? c) && (c <=? 57) then Some (c + 4)
  else if c =? 43 then Some 62
  else if c =? 47 then Some 63
  else None.

Definition pad : Z := 61.

Fixpoint btoa_groups (l : jsstring) : jsstring :=
  match l with
  | a :: b :: c :: r =>
      b64_char (a / 4) :: b64_char (a mod 4 * 16 + b / 16)
        :: b64_char (b mod 16 * 4 + c / 64) :: b64_char (c mod 64)
        :: btoa_groups r
  | [a; b] =>
      [b64_char (a / 4); b64_char (a mod 4 * 16 + b / 16);
       b64_char (b mod 16 * 4); pad]
  | [a] => [b64_char (a / 4); b64_char (a mod 4 * 16); pad; pad]
  | [] => []
  end.

(** The 6-bit groups of a byte string, before they are turned into
    characters and padded. *)
Fixpoint sextets (l : jsstring) : list Z :=
  match l with
  | a :: b :: c :: r =>
      a / 4 :: a mod 4 * 16 + b / 16 :: b mod 16 * 4 + c / 64 :: c mod 64
        :: sextets r
  | [a; b] => [a / 4; a mod 4 * 16 + b / 16; b mod 16 * 4]
  | [a] => [a / 4; a mod 4 * 16]
  | [] => []
  end.

(** [btoa(s)]: raises when a unit of [s] is above 255. *)
Definition btoa (s : jsstring) : result jsstring :=
  if forallb (fun c => (0 <=? c) && (c <? 256)) s then Ok (btoa_groups s)
  else Throw "InvalidCharacterError".

Definition is_ascii_whitespace (c : Z) : bool :=
  (c =? 9) || (c =? 10) || (c =? 12) || (c =? 13) || (c =? 32).

(** Drops one or two [=] at the very end. *)
Fixpoint strip_padding (s : jsstring) : jsstring :=
  match s with
  | [] => []
  | c :: r =>
      match r with
      | [] => if c =? pad then [] else [c]
      | [d] => if (c =? pad) && (d =? pad) then [] else c :: strip_padding r
      | _ => c :: strip_padding r
      end
  end.

Fixpoint atob_groups (l : list Z) : jsstring :=
  match l with
  | a :: b :: c :: d :: r =>
      let n := ((a * 64 + b) * 64 + c) * 64 + d in
      n / 65536 :: n / 256 mod 256 :: n mod 256 :: atob_groups r
  | [a; b; c] => let n := (a * 64 + b) * 64 + c in [n / 1024; n / 4 mod 256]
  | [a; b] => [(a * 64 + b) / 16]
  | _ => []
  end.

(** [atob(s)], the forgiving Base64 decoder of the HTML standard. *)
Definition atob (s : jsstring) : result jsstring :=
  let data := filter (fun c => is_ascii_whitespace c = false) s in
  let data :=
    if (Z.of_nat (length data) mod 4 =? 0) then strip_padding data else data in
  if (Z.of_nat (length data) mod 4 =? 1) then Throw "InvalidCharacterError"
  else
    match mapM b64_index data with
    | Some sextets => Ok (atob_groups sextets)
    | None => Throw "InvalidCharacterError"
    end.

End Base64.

(** ** [src/mpenc/codec.js] *)

Module Codec.

Definition _PROTOCOL_INDICATOR : jsstring := js "mpENC".
Definition _PROTOCOL_PREFIX : jsstring := js "?" ++ _PROTOCOL_INDICATOR.

(** [ns.MESSAGE_TYPE]: the message categories. *)
Inductive MESSAGE_TYPE :=
| PLAIN | MPENC_QUERY | MPENC_GREET_MESSAGE | MPENC_DATA_MESSAGE | MPENC_ERROR.

(** [_MAGIC_NUMBERS]; a category without an entry reads [undefined]. *)
Definition _MAGIC_NUMBERS (category : MESSAGE_TYPE) : jsstring :=
  match category with
  | MPENC_GREET_MESSAGE => js "greetmsgsig"
  | MPENC_DATA_MESSAGE => js "datamsgsig"
  | MPENC_ERROR => js "errormsgsig"
  | _ => js "undefined"
  end.

(** [ns.TLV_TYPE]. *)
Module TLV_TYPE.
Definition PROTOCOL_VERSION : Z := 0x0001.
Definition DATA_MESSAGE : Z := 0x0002.
Definition MESSAGE_SIGNATURE : Z := 0x0003.
Definition MESSAGE_IV : Z := 0x0004.
Definition GREET_TYPE : Z := 0x0005.
Definition SIDKEY_HINT : Z := 0x0006.
Definition SOURCE : Z := 0x0100.
Definition DEST : Z := 0x0101.
Definition MEMBER : Z := 0x0102.
Definition INT_KEY : Z := 0x0103.
Definition NONCE : Z := 0x0104.
Definition PUB_KEY : Z := 0x0105.
Definition SESSION_SIGNATURE : Z := 0x0106.
Definition SIGNING_KEY : Z := 0x0107.
End TLV_TYPE.

Definition _short2bin (value : Z) : jsstring :=
  [fromCharCode (js_sar value 8); fromCharCode (js_and value 0xff)].

Definition _bin2short (value : jsstring) : Z :=
  js_or (js_shl (charCodeAt value 0) 8) (charCodeAt value 1).

Record TLV := mkTLV { type : Z; value : jsstring; rest : jsstring }.

Definition decodeTLV (tlv : jsstring) : result TLV :=
  let type := _bin2short (substring 0 2 tlv) in
  let length := _bin2short (substring 2 4 tlv) in
  let value := substring 4 (4 + Z.to_nat length) tlv in
  _ ← _assert (length =? Z.of_nat (List.length value))
        "TLV payload length does not match indicated length.";
  Ok (mkTLV type value (drop (Z.to_nat length + 4) tlv)).

Definition encodeTLV (tlvType : Z) (value : jsstring) : jsstring :=
  _short2bin tlvType ++ _short2bin (Z.of_nat (length value)) ++ value.

(** A [null] or [undefined] value is encoded as the empty string. *)
Definition encodeTLV_opt (tlvType : Z) (value : option jsstring) : jsstring :=
  encodeTLV tlvType (default [] value).

Definition _encodeTlvArray (tlvType : Z) (valueArray : list jsstring)
  : jsstring :=
  concat (map (encodeTLV tlvType) valueArray).

(** [popTLV(message, type, action)] returns the rest; the decoded value is
    what it hands to [action]. *)
Definition popTLV (message : jsstring) (type_ : Z)
  : result (jsstring * jsstring) :=
  tlv ← decodeTLV message;
  if negb (type tlv =? type_) then Throw "decode failed; expected TLV"
  else Ok (value tlv, rest tlv).

(** [popTLVMaybe]: on another type the message comes back unchanged and
    [action] is not run. *)
Definition popTLVMaybe (message : jsstring) (type_ : Z)
  : result (option jsstring * jsstring) :=
  tlv ← decodeTLV message;
  if negb (type tlv =? type_) then Ok (None, message)
  else Ok (Some (value tlv), rest tlv).

(** [popTLVAll]: the do-while loop runs until a round leaves the string as
    it was.  Each further round shortens the string, so [fuel] above its
    length is never exhausted. *)
Fixpoint popTLVAll_loop (fuel : nat) (rest : jsstring) (type_ : Z)
    (seen : list jsstring) : result (list jsstring * jsstring) :=
  match fuel with
  | O => Throw "popTLVAll: out of fuel"
  | S fuel =>
      let oldrest := rest in
      '(v, rest) ← popTLVMaybe rest type_;
      let seen := seen ++ option_list v in
      if bool_decide (rest = oldrest) then Ok (seen, rest)
      else popTLVAll_loop fuel rest type_ seen
  end.

Definition popTLVAll (message : jsstring) (type_ : Z)
  : result (list jsstring * jsstring) :=
  popTLVAll_loop (S (length message)) message type_ [].

(** [s.slice(start, -1)]. *)
Definition slice_to_last (start : nat) (s : jsstring) : jsstring :=
  take (length s - 1 - start) (drop start s).

Definition tlvToWire (contents : jsstring) : result jsstring :=
  b ← Base64.btoa contents;
  Ok (_PROTOCOL_PREFIX ++ js ":" ++ b ++ js ".").

Definition wireToTLV (wireMessage : jsstring) : result jsstring :=
  Base64.atob (slice_to_last (length _PROTOCOL_PREFIX + 1) wireMessage).

(** [ns.GREET_TYPE] of the codec, recovery types included. *)
Module GREET_TYPE.
Definition PARTICIPANT_DATA : jsstring := [0x00; 0x00].
Definition INIT_INITIATOR_UP : jsstring := [0x00; 0x9c].
Definition INIT_PARTICIPANT_UP : jsstring := [0x00; 0x1c].
Definition INIT_PARTICIPANT_DOWN : jsstring := [0x00; 0x1e].
Definition INIT_PARTICIPANT_CONFIRM_DOWN : jsstring := [0x00; 0x1a].
Definition RECOVER_INIT_INITIATOR_UP : jsstring := [0x01; 0x9c].
Definition RECOVER_INIT_PARTICIPANT_UP : jsstring := [0x01; 0x1c].
Definition RECOVER_INIT_PARTICIPANT_DOWN : jsstring := [0x01; 0x1e].
Definition RECOVER_INIT_PARTICIPANT_CONFIRM_DOWN : jsstring := [0x01; 0x1a].
Definition INCLUDE_AUX_INITIATOR_UP : jsstring := [0x00; 0xad].
Definition INCLUDE_AUX_PARTICIPANT_UP : jsstring := [0x00; 0x2d].
Definition INCLUDE_AUX_PARTICIPANT_DOWN : jsstring := [0x00; 0x2f].
Definition INCLUDE_AUX_PARTICIPANT_CONFIRM_DOWN : jsstring := [0x00; 0x2b].
Definition EXCLUDE_AUX_INITIATOR_DOWN : jsstring := [0x00; 0xbf].
Definition EXCLUDE_AUX_PARTICIPANT_CONFIRM_DOWN : jsstring := [0x00; 0x3b].
Definition RECOVER_EXCLUDE_AUX_INITIATOR_DOWN : jsstring := [0x01; 0xbf].
Definition RECOVER_EXCLUDE_AUX_PARTICIPANT_CONFIRM_DOWN : jsstring :=
  [0x01; 0x3b].
Definition REFRESH_AUX_INITIATOR_DOWN : jsstring := [0x00; 0xc7].
Definition REFRESH_AUX_PARTICIPANT_DOWN : jsstring := [0x00; 0x47].
Definition RECOVER_REFRESH_AUX_INITIATOR_DOWN : jsstring := [0x01; 0xc7].
Definition RECOVER_REFRESH_AUX_PARTICIPANT_DOWN : jsstring := [0x01; 0x47].
Definition QUIT_DOWN : jsstring := [0x00; 0xd3].
End GREET_TYPE.

(** The keys of [ns.GREET_TYPE_MAPPING]. *)
Definition GREET_TYPE_MAPPING : list jsstring :=
  [ GREET_TYPE.PARTICIPANT_DATA;
    GREET_TYPE.INIT_INITIATOR_UP;
    GREET_TYPE.INIT_PARTICIPANT_UP;
    GREET_TYPE.INIT_PARTICIPANT_DOWN;
    GREET_TYPE.INIT_PARTICIPANT_CONFIRM_DOWN;
    GREET_TYPE.RECOVER_INIT_INITIATOR_UP;
    GREET_TYPE.RECOVER_INIT_PARTICIPANT_UP;
    GREET_TYPE.RECOVER_INIT_PARTICIPANT_DOWN;
    GREET_TYPE.RECOVER_INIT_PARTICIPANT_CONFIRM_DOWN;
    GREET_TYPE.INCLUDE_AUX_INITIATOR_UP;
    GREET_TYPE.INCLUDE_AUX_PARTICIPANT_UP;
    GREET_TYPE.INCLUDE_AUX_PARTICIPANT_DOWN;
    GREET_TYPE.INCLUDE_AUX_PARTICIPANT_CONFIRM_DOWN;
    GREET_TYPE.EXCLUDE_AUX_INITIATOR_DOWN;
    GREET_TYPE.EXCLUDE_AUX_PARTICIPANT_CONFIRM_DOWN;
    GREET_TYPE.RECOVER_EXCLUDE_AUX_INITIATOR_DOWN;
    GREET_TYPE.RECOVER_EXCLUDE_AUX_PARTICIPANT_CONFIRM_DOWN;
    GREET_TYPE.REFRESH_AUX_INITIATOR_DOWN;
    GREET_TYPE.REFRESH_AUX_PARTICIPANT_DOWN;
    GREET_TYPE.RECOVER_REFRESH_AUX_INITIATOR_DOWN;
    GREET_TYPE.RECOVER_REFRESH_AUX_PARTICIPANT_DOWN;
    GREET_TYPE.QUIT_DOWN ].

(** [ProtocolMessage]: message content for the protocol flow and for data
    messages. *)
Record ProtocolMessage := mkProtocolMessage {
  source : jsstring;
  dest : jsstring;
  greetType : option jsstring;
  sidkeyHint : option jsstring;
  members : list jsstring;
  intKeys : list jsstring;
  debugKeys : list jsstring;
  nonces : list jsstring;
  pubKeys : list jsstring;
  sessionSignature : option jsstring;
  signingKey : option jsstring;
  signature : option jsstring;
  signatureOk : bool;
  rawMessage : option jsstring;
  protocol : option jsstring;
  data : option jsstring;
}.

Definition set_greetType (t : jsstring) (m : ProtocolMessage)
  : ProtocolMessage :=
  mkProtocolMessage (source m) (dest m) (Some t) (sidkeyHint m) (members m)
    (intKeys m) (debugKeys m) (nonces m) (pubKeys m) (sessionSignature m)
    (signingKey m) (signature m) (signatureOk m) (rawMessage m) (protocol m)
    (data m).

(** [ProtocolMessage.prototype._setBit]: the outcome of the call and the
    object as the call leaves it. *)
Definition _setBit (this : ProtocolMessage) (bit : Z)
    (value noMessageCheck : jsval) : result unit * ProtocolMessage :=
  match GreetType._setBit GREET_TYPE_MAPPING (greetType this) bit value
          noMessageCheck with
  | Ok newGreetType => (Ok tt, set_greetType newGreetType this)
  | Throw e => (Throw e, this)
  end.

(** [ns.getGreetType(message)]: the value of the first GREET_TYPE record,
    [None] for [undefined].  Every round of the loop drops at least one
    unit of a non-empty string, so [fuel] above the length is never
    exhausted. *)
Fixpoint getGreetType_loop (fuel : nat) (message : jsstring)
  : result (option jsstring) :=
  match message with
  | [] => Ok None
  | _ :: _ =>
      match fuel with
      | O => Throw "getGreetType: out of fuel"
      | S fuel =>
          tlv ← decodeTLV message;
          if type tlv =? TLV_TYPE.GREET_TYPE then Ok (Some (value tlv))
          else getGreetType_loop fuel (rest tlv)
      end
  end.

Definition getGreetType (message : jsstring) : result (option jsstring) :=
  getGreetType_loop (S (length message)) message.

(** [/v(\d+)\?/.exec(message)]: the digits of the leftmost match.  After
    a [v] the digits are taken greedily; giving some back never helps,
    since the unit after them would be a digit and not [?]. *)
Definition is_digit (c : Z) : bool := (48 <=? c) && (c <=? 57).

Fixpoint span_digits (s : jsstring) : jsstring * jsstring :=
  match s with
  | c :: r =>
      if is_digit c then let '(ds, r') := span_digits r in (c :: ds, r')
      else ([], s)
  | [] => ([], [])
  end.

Fixpoint exec_query (s : jsstring) : option jsstring :=
  match s with
  | [] => None
  | c :: r =>
      if c =? 118 then
        match span_digits r with
        | (d :: ds, q :: _) =>
            if q =? 63 then Some (d :: ds) else exec_query r
        | _ => exec_query r
        end
      else exec_query r
  end.

(** ['' + n] for a code unit [n]: its decimal digits, at most five. *)
Fixpoint decimal_digits (fuel : nat) (n : Z) : jsstring :=
  match fuel with
  | O => []
  | S fuel =>
      (if n <? 10 then [] else decimal_digits fuel (n / 10))
      ++ [48 + n mod 10]
  end.

Definition decimal (n : Z) : jsstring := decimal_digits 5 n.

(** What [categoriseMessage] returns. *)
Record Categorised := mkCategorised {
  category : MESSAGE_TYPE;
  content : jsstring;
}.

Definition _ERROR_PREFIX : jsstring := js " Error:".

Section with_primitives.
Context `{Primitives}.

(** [codec.signMessage] *)
Definition signMessage (category : MESSAGE_TYPE) (data : jsstring)
    (privKey pubKey : jsstring) (sidkeyHash : jsstring) : jsstring :=
  let prefix := _MAGIC_NUMBERS category in
  let prefix :=
    match category with
    | MPENC_DATA_MESSAGE => prefix ++ sidkeyHash
    | _ => prefix
    end in
  eddsa_sign (prefix ++ data) privKey pubKey.

(** [codec.verifyMessageSignature] *)
Definition verifyMessageSignature (category : MESSAGE_TYPE)
    (data signature pubKey : jsstring) (sidkeyHash : jsstring) : bool :=
  let prefix := _MAGIC_NUMBERS category in
  let prefix :=
    match category with
    | MPENC_DATA_MESSAGE => prefix ++ sidkeyHash
    | _ => prefix
    end in
  eddsa_verify signature (prefix ++ data) pubKey.

(** [codec.ENCODED_VERSION], [codec.ENCODED_TYPE_GREET] and
    [codec.ENCODED_TYPE_DATA] *)
Definition ENCODED_VERSION : jsstring :=
  encodeTLV TLV_TYPE.PROTOCOL_VERSION PROTOCOL_VERSION.
Definition ENCODED_TYPE_GREET `{CodecConstants} : jsstring :=
  encodeTLV TLV_MESSAGE_TYPE MESSAGE_TYPE_GREET.
Definition ENCODED_TYPE_DATA `{CodecConstants} : jsstring :=
  encodeTLV TLV_MESSAGE_TYPE MESSAGE_TYPE_DATA.

(** [ns.categoriseMessage(message)]; [None] is [null].  In the query
    branch the digits equal the decimal form of the version's code unit,
    so [String.fromCharCode] of them is that unit. *)
Definition categoriseMessage (message : jsstring)
  : result (option Categorised) :=
  if bool_decide (message = []) then Ok None
  else if negb (bool_decide (substring 0 (length _PROTOCOL_PREFIX) message
                             = _PROTOCOL_PREFIX))
  then Ok (Some (mkCategorised PLAIN message))
  else
    let message := drop (length _PROTOCOL_PREFIX) message in
    if bool_decide (substring 0 (length _ERROR_PREFIX) message
                    = _ERROR_PREFIX)
    then Ok (Some (mkCategorised MPENC_ERROR
                     (drop (length _PROTOCOL_PREFIX + 1) message)))
    else if bool_decide (message !! 0%nat = Some 58)
            && bool_decide (last message = Some 46)
    then
      message ← Base64.atob (substring 1 (length message - 1) message);
      greetType ← getGreetType message;
      if bool_decide (greetType = Some GREET_TYPE.PARTICIPANT_DATA)
      then Ok (Some (mkCategorised MPENC_DATA_MESSAGE message))
      else Ok (Some (mkCategorised MPENC_GREET_MESSAGE message))
    else
      match exec_query message, PROTOCOL_VERSION with
      | Some digits, v :: _ =>
          if bool_decide (digits = decimal v)
          then Ok (Some (mkCategorised MPENC_QUERY [fromCharCode v]))
          else Throw "Unknown mpENC message."
      | _, _ => Throw "Unknown mpENC message."
      end.

(** [ns.encodeErrorMessage(from, severity, message, privKey, pubKey)];
    [None] is [null], an empty [privKey] is a missing one. *)
Definition encodeErrorMessage (from severity : jsstring)
    (message : option jsstring) (privKey pubKey : jsstring)
  : result (option jsstring) :=
  match message with
  | None => Ok None
  | Some message =>
      let out :=
        js "from " ++ [34] ++ from ++ [34] ++ js ":" ++ severity ++ js ":"
        ++ message in
      let signature :=
        if bool_decide (privKey = []) then []
        else signMessage MPENC_ERROR out privKey pubKey [] in
      b ← Base64.btoa signature;
      Ok (Some (_PROTOCOL_PREFIX ++ _ERROR_PREFIX ++ b ++ js ":" ++ out))
  end.

(** [ns.getQueryMessage(text)]: an empty version string has no first
    unit, and [NaN] is printed. *)
Definition getQueryMessage (text : jsstring) : jsstring :=
  _PROTOCOL_PREFIX ++ js "v"
  ++ match PROTOCOL_VERSION with
     | v :: _ => decimal v
     | [] => js "NaN"
     end
  ++ js "?" ++ text.

End with_primitives.

End Codec.

(** ** The ASKE module [mpenc.ske] *)

Module Ske.

Module SignatureKeyExchangeMessage.
(** [signingKey] is not set by the constructor; [greeter.js] assigns
    it. *)
Record t := mk {
  source : jsstring;
  dest : jsstring;
  flow : jsstring;
  members : option (list jsstring);
  nonces : option (list jsstring);
  pubKeys : option (list jsstring);
  sessionSignature : option jsstring;
  signingKey : option jsstring;
}.
End SignatureKeyExchangeMessage.
Import SignatureKeyExchangeMessage.

(** [new mpenc.ske.SignatureKeyExchangeMessage(source, dest, flow)] *)
Definition SignatureKeyExchangeMessage_new (source dest flow : jsstring)
  : SignatureKeyExchangeMessage.t :=
  mk source dest flow (Some []) (Some []) (Some []) None None.

Module SignatureKeyExchangeMember.
(** [staticPubKeyDir] and [authenticatedMembers] are not set by the
    constructor; [greeter.js] assigns them. *)
Record t `{Primitives} := mk {
  id : jsstring;
  members : list jsstring;
  ephemeralPrivKey : option jsstring;
  ephemeralPubKey : option jsstring;
  nonce : option jsstring;
  nonces : option (list jsstring);
  ephemeralPubKeys : option (list jsstring);
  sessionId : option jsstring;
  staticPrivKey : option StaticKey;
  staticPubKeyDir : option StaticPubKeyDir;
  authenticatedMembers : list jsstring;
}.
End SignatureKeyExchangeMember.

(** [mpenc.ske._pkcs1v15_encode(message, length)]; [rnd i] is the value
    of [Math.floor(255 * Math.random())] in round [i] of the loop. *)
Definition _pkcs1v15_encode (message : jsstring) (length : Z)
    (rnd : nat -> Z) : result jsstring :=
  _ ← _assert (Z.of_nat (List.length message) <? length - 10)
        "message too long for encoding scheme";
  let padding :=
    map (fun i => fromCharCode (1 + rnd i))
      (seq 0 (Z.to_nat (length - Z.of_nat (List.length message) - 2))) in
  Ok ([fromCharCode 2] ++ padding ++ [fromCharCode 0] ++ message).

(** [s.indexOf(c)] for a single unit [c]; [None] stands for -1. *)
Fixpoint indexOf_unit (s : jsstring) (c : Z) : option nat :=
  match s with
  | [] => None
  | x :: s => if x =? c then Some O else S <$> indexOf_unit s c
  end.

(** [mpenc.ske._pkcs1v15_decode(message)]: without a zero unit the index
    is -1 and the slice starts at 0. *)
Definition _pkcs1v15_decode (message : jsstring) : result jsstring :=
  _ ← _assert (10 <? Z.of_nat (length message)) "message decoding error";
  Ok (match indexOf_unit message (fromCharCode 0) with
      | Some i => drop (S i) message
      | None => message
      end).

Section with_primitives.
Context `{Primitives}.

(** [new mpenc.ske.SignatureKeyExchangeMember(id)] *)
Definition SignatureKeyExchangeMember_new (id : jsstring)
  : SignatureKeyExchangeMember.t :=
  SignatureKeyExchangeMember.mk _ id [] None None None None None None None
    None [].

(** [mapping[pid]] appended to a string: a missing entry reads
    [undefined]. *)
Definition str_of_undefined (v : option jsstring) : jsstring :=
  default (js "undefined") v.

(** [members.concat().sort()]: the default comparison orders strings by
    their code units. *)
Fixpoint jsstring_leb (a b : jsstring) : bool :=
  match a, b with
  | [], _ => true
  | _ :: _, [] => false
  | x :: a, y :: b => (x <? y) || ((x =? y) && jsstring_leb a b)
  end.

Definition jsstring_le (a b : jsstring) : Prop := jsstring_leb a b = true.

Global Instance jsstring_le_dec : RelDecision jsstring_le.
Proof. intros a b. unfold jsstring_le. apply _. Defined.

Definition sort (l : list jsstring) : list jsstring :=
  merge_sort jsstring_le l.

(** [mapping] is a plain object used as a map.  The one property name that
    does not behave as a key is [__proto__]: assigning a string (or
    [undefined]) to it changes nothing, and reading it gives the prototype
    object, which appends as [[object Object]]. *)
Definition proto : jsstring := js "__proto__".

Definition mapping_set (mapping : gmap jsstring (option jsstring))
    (key : jsstring) (v : option jsstring) : gmap jsstring (option jsstring) :=
  if bool_decide (key = proto) then mapping else <[key := v]> mapping.

Definition mapping_get (mapping : gmap jsstring (option jsstring))
    (key : jsstring) : jsstring :=
  if bool_decide (key = proto) then js "[object Object]"
  else str_of_undefined (mjoin (mapping !! key)).

(** The first loop of [_computeSid]: [mapping[members[i]] = nonces[i]]
    for [i] from 0, a later pair overwriting an earlier one. *)
Fixpoint _computeSid_mapping (i : nat) (members nonces : list jsstring)
    (mapping : gmap jsstring (option jsstring))
  : gmap jsstring (option jsstring) :=
  match members with
  | [] => mapping
  | m :: members =>
      _computeSid_mapping (S i) members nonces
        (mapping_set mapping m (nonces !! i))
  end.

(** The second loop: the item chains. *)
Fixpoint _computeSid_items (sortedMembers : list jsstring)
    (mapping : gmap jsstring (option jsstring))
    (pidItems nonceItems : jsstring) : jsstring * jsstring :=
  match sortedMembers with
  | [] => (pidItems, nonceItems)
  | pid :: sortedMembers =>
      _computeSid_items sortedMembers mapping (pidItems ++ pid)
        (nonceItems ++ mapping_get mapping pid)
  end.

Definition _computeSid (members nonces : list jsstring) : jsstring :=
  let mapping := _computeSid_mapping 0 members nonces ∅ in
  let sortedMembers := sort members in
  let '(pidItems, nonceItems) :=
    _computeSid_items sortedMembers mapping [] [] in
  sha256 (pidItems ++ nonceItems).

Import SignatureKeyExchangeMember.

Definition _computeSessionSig (this : SignatureKeyExchangeMember.t)
  : result jsstring :=
  match sessionId this, ephemeralPubKey this, staticPrivKey this with
  | None, _, _ => Throw "Session ID not available."
  | Some _, None, _ => Throw "No ephemeral key pair available."
  | Some sid, Some ePubKey, Some priv =>
      Ok (smallrsasign (id this ++ ePubKey ++ sid) priv)
  | Some _, Some _, None => Throw "TypeError: static private key is null"
  end.

(** [mpenc.utils._noDuplicatesInList] *)
Definition _noDuplicatesInList (l : list jsstring) : bool :=
  bool_decide (NoDup l).

(** [l.indexOf(x)]; [None] stands for -1. *)
Fixpoint indexOf (l : list jsstring) (x : jsstring) : option nat :=
  match l with
  | [] => None
  | y :: l => if bool_decide (y = x) then Some O else S <$> indexOf l x
  end.

(** [upflow]: the member after the call and the message it returns, which
    is the received message object with its routing and commit fields
    overwritten.  The two draws are the nonce and the ephemeral private
    key. *)
Definition upflow (this : SignatureKeyExchangeMember.t)
    (message : SignatureKeyExchangeMessage.t) (rnd : Entropy)
  : result (SignatureKeyExchangeMember.t * SignatureKeyExchangeMessage.t) :=
  match SignatureKeyExchangeMessage.members message with
  | None => Throw "TypeError: members is null"
  | Some M =>
  _ ← _assert (_noDuplicatesInList M) "Duplicates in member list detected!";
  match indexOf M (id this) with
  | None => Throw "Not member of this key exchange!"
  | Some myPos =>
      match SignatureKeyExchangeMessage.nonces message,
            SignatureKeyExchangeMessage.pubKeys message with
      | Some nonces0, Some pubKeys0 =>
          let nonce := rnd 0%nat in
          let nonces := nonces0 ++ [nonce] in
          let ephemeralPrivKey := rnd 1%nat in
          let ephemeralPubKey := eddsa_publickey ephemeralPrivKey in
          let ephemeralPubKeys := pubKeys0 ++ [ephemeralPubKey] in
          let this :=
            mk _ (id this) M (Some ephemeralPrivKey) (Some ephemeralPubKey)
              (Some nonce) (Some nonces) (Some ephemeralPubKeys)
              (sessionId this) (staticPrivKey this) (staticPubKeyDir this)
              (authenticatedMembers this) in
          if bool_decide (myPos = (length M - 1)%nat) then
            let this :=
              mk _ (id this) M (Some ephemeralPrivKey)
                (Some ephemeralPubKey) (Some nonce) (Some nonces)
                (Some ephemeralPubKeys) (Some (_computeSid M nonces))
                (staticPrivKey this) (staticPubKeyDir this)
                (authenticatedMembers this) in
            sig ← _computeSessionSig this;
            Ok (this,
                SignatureKeyExchangeMessage.mk (id this) [] (js "downflow")
                  (Some M) (Some nonces) (Some ephemeralPubKeys) (Some sig)
                  (SignatureKeyExchangeMessage.signingKey message))
          else
            Ok (this,
                SignatureKeyExchangeMessage.mk (id this)
                  (nth (myPos + 1) M (js "undefined"))
                  (SignatureKeyExchangeMessage.flow message)
                  (Some M) (Some nonces) (Some ephemeralPubKeys)
                  (SignatureKeyExchangeMessage.sessionSignature message)
                  (SignatureKeyExchangeMessage.signingKey message))
      | _, _ => Throw "TypeError: cannot push to null"
      end
  end
  end.

(** [commit]: starts the upflow. *)
Definition commit (this : SignatureKeyExchangeMember.t)
    (otherMembers : list jsstring) (rnd : Entropy)
  : result (SignatureKeyExchangeMember.t * SignatureKeyExchangeMessage.t) :=
  _ ← _assert (negb (bool_decide (otherMembers = []))) "No members to add.";
  let startMessage :=
    SignatureKeyExchangeMessage_new (id this) [] (js "upflow") in
  let startMessage :=
    SignatureKeyExchangeMessage.mk
      (SignatureKeyExchangeMessage.source startMessage)
      (SignatureKeyExchangeMessage.dest startMessage)
      (SignatureKeyExchangeMessage.flow startMessage)
      (Some (id this :: otherMembers))
      (SignatureKeyExchangeMessage.nonces startMessage)
      (SignatureKeyExchangeMessage.pubKeys startMessage)
      (SignatureKeyExchangeMessage.sessionSignature startMessage)
      (SignatureKeyExchangeMessage.signingKey startMessage) in
  let this :=
    mk _ (id this) (members this) (ephemeralPrivKey this)
      (ephemeralPubKey this) None (Some []) (Some []) (sessionId this)
      (staticPrivKey this) (staticPubKeyDir this)
      (authenticatedMembers this) in
  upflow this startMessage rnd.

End with_primitives.

End Ske.

(** ** [src/mpenc/greet/greeter.js] *)

Module Greeter.

Module STATE.
Inductive t :=
| NULL | INIT_UPFLOW | INIT_DOWNFLOW | READY | AUX_UPFLOW | AUX_DOWNFLOW
| QUIT.

Definition code (s : t) : Z :=
  match s with
  | NULL => 0x00
  | INIT_UPFLOW => 0x01
  | INIT_DOWNFLOW => 0x02
  | READY => 0x03
  | AUX_UPFLOW => 0x04
  | AUX_DOWNFLOW => 0x05
  | QUIT => 0x06
  end.

Global Instance eq_dec : EqDecision t.
Proof. solve_decision. Defined.
End STATE.

Module GREET_TYPE.
Definition INIT_INITIATOR_UP : jsstring := [0x00; 0x9c].
Definition INIT_PARTICIPANT_UP : jsstring := [0x00; 0x1c].
Definition INIT_PARTICIPANT_DOWN : jsstring := [0x00; 0x1e].
Definition INIT_PARTICIPANT_CONFIRM_DOWN : jsstring := [0x00; 0x1a].
Definition INCLUDE_AUX_INITIATOR_UP : jsstring := [0x00; 0xad].
Definition INCLUDE_AUX_PARTICIPANT_UP : jsstring := [0x00; 0x2d].
Definition INCLUDE_AUX_PARTICIPANT_DOWN : jsstring := [0x00; 0x2f].
Definition INCLUDE_AUX_PARTICIPANT_CONFIRM_DOWN : jsstring := [0x00; 0x2b].
Definition EXCLUDE_AUX_INITIATOR_DOWN : jsstring := [0x00; 0xbf].
Definition EXCLUDE_AUX_PARTICIPANT_CONFIRM_DOWN : jsstring := [0x00; 0x3b].
Definition REFRESH_AUX_INITIATOR_DOWN : jsstring := [0x00; 0xc7].
Definition REFRESH_AUX_PARTICIPANT_DOWN : jsstring := [0x00; 0x47].
Definition QUIT_DOWN : jsstring := [0x00; 0xd3].
End GREET_TYPE.

(** The keys of [ns.GREET_TYPE_MAPPING]. *)
Definition GREET_TYPE_MAPPING : list jsstring :=
  [ GREET_TYPE.INIT_INITIATOR_UP;
    GREET_TYPE.INIT_PARTICIPANT_UP;
    GREET_TYPE.INIT_PARTICIPANT_DOWN;
    GREET_TYPE.INIT_PARTICIPANT_CONFIRM_DOWN;
    GREET_TYPE.INCLUDE_AUX_INITIATOR_UP;
    GREET_TYPE.INCLUDE_AUX_PARTICIPANT_UP;
    GREET_TYPE.INCLUDE_AUX_PARTICIPANT_DOWN;
    GREET_TYPE.INCLUDE_AUX_PARTICIPANT_CONFIRM_DOWN;
    GREET_TYPE.EXCLUDE_AUX_INITIATOR_DOWN;
    GREET_TYPE.EXCLUDE_AUX_PARTICIPANT_CONFIRM_DOWN;
    GREET_TYPE.REFRESH_AUX_INITIATOR_DOWN;
    GREET_TYPE.REFRESH_AUX_PARTICIPANT_DOWN;
    GREET_TYPE.QUIT_DOWN ].

(** [ns.OPERATION_MAPPING]. *)
Definition OPERATION_MAPPING (op : Z) : option jsstring :=
  if op =? 0x00 then Some (js "DATA")
  else if op =? 0x01 then Some (js "START")
  else if op =? 0x02 then Some (js "INCLUDE")
  else if op =? 0x03 then Some (js "EXCLUDE")
  else if op =? 0x04 then Some (js "REFRESH")
  else if op =? 0x05 then Some (js "QUIT")
  else None.

Module GreetingMetadata.
Record t := mk {
  prevPf : jsstring;
  prevCh : jsstring;
  author : jsstring;
  parents : list jsstring;   (* [parents.toArray()] *)
}.
End GreetingMetadata.

Module GreetMessage.
Record t := mk {
  source : jsstring;
  dest : jsstring;
  greetType : option jsstring;
  sidkeyHint : option jsstring;
  members : option (list jsstring);
  intKeys : option (list jsstring);
  nonces : option (list jsstring);
  pubKeys : option (list jsstring);
  sessionSignature : option jsstring;
  signingKey : option jsstring;
  signature : option jsstring;
  signatureOk : bool;
  rawMessage : option jsstring;
  data : option jsstring;
  metadata : option GreetingMetadata.t;
}.

Definition set_greetType (v : option jsstring) (m : t) : t :=
  mk (source m) (dest m) v (sidkeyHint m) (members m) (intKeys m)
    (nonces m) (pubKeys m) (sessionSignature m) (signingKey m)
    (signature m) (signatureOk m) (rawMessage m) (data m) (metadata m).

Definition set_metadata (v : option GreetingMetadata.t) (m : t) : t :=
  mk (source m) (dest m) (greetType m) (sidkeyHint m) (members m)
    (intKeys m) (nonces m) (pubKeys m) (sessionSignature m) (signingKey m)
    (signature m) (signatureOk m) (rawMessage m) (data m) v.
End GreetMessage.
Import GreetMessage.

(** [new GreetMessage()] *)
Definition GreetMessage_new : GreetMessage.t :=
  mk [] [] None None (Some []) (Some []) (Some []) (Some []) None None None
    false None None None.

Definition getGreetTypeNumber (this : GreetMessage.t) : result Z :=
  match greetType this with
  | Some t => Ok (GreetType.greetTypeToNumber t)
  | None => Throw "TypeError: greetType is null"
  end.

(** [GreetMessage.prototype._setBit]: the outcome of the call and the
    object as the call leaves it. *)
Definition _setBit (this : GreetMessage.t) (bit : Z)
    (value noMessageCheck : jsval) : result unit * GreetMessage.t :=
  match GreetType._setBit GREET_TYPE_MAPPING (greetType this) bit value
          noMessageCheck with
  | Ok newGreetType => (Ok tt, set_greetType (Some newGreetType) this)
  | Throw e => (Throw e, this)
  end.

(** A greet type that is not a string reads as the number 0. *)
Definition _readBit (this : GreetMessage.t) (bit : Z) : bool :=
  match greetType this with
  | Some t => GreetType._isBitSetOnGreetType t bit
  | None => false
  end.

Definition isAuxiliary (this : GreetMessage.t) : bool :=
  _readBit this GreetType._AUX_BIT.
Definition isDownflow (this : GreetMessage.t) : bool :=
  _readBit this GreetType._DOWN_BIT.
Definition setDownflow (this : GreetMessage.t) (noMessageCheck : jsval) :=
  _setBit this GreetType._DOWN_BIT (VBool true) noMessageCheck.
Definition isGKA (this : GreetMessage.t) : bool :=
  _readBit this GreetType._GKA_BIT.
Definition clearGKA (this : GreetMessage.t) (noMessageCheck : jsval) :=
  _setBit this GreetType._GKA_BIT (VBool false) noMessageCheck.
Definition isSKE (this : GreetMessage.t) : bool :=
  _readBit this GreetType._SKE_BIT.
Definition isInitiator (this : GreetMessage.t) : bool :=
  _readBit this GreetType._INIT_BIT.
Definition clearInitiator (this : GreetMessage.t) (noMessageCheck : jsval) :=
  _setBit this GreetType._INIT_BIT (VBool false) noMessageCheck.

Definition getOperation (this : GreetMessage.t) : result (option jsstring) :=
  n ← getGreetTypeNumber this;
  Ok (OPERATION_MAPPING
        (js_shr (js_and n GreetType._OPERATION_MASK) GreetType._OP_BITS)).

(** A method that mutates the message, as a step of [result]. *)
Definition run (r : result unit * GreetMessage.t) : result GreetMessage.t :=
  match r with
  | (Ok _, m) => Ok m
  | (Throw e, _) => Throw e
  end.

(** *** Encoding *)

Section encode.
Context `{Primitives} `{CodecConstants}.

(** [x || null] on a string. *)
Definition str_or_null (v : option jsstring) : option jsstring :=
  match v with
  | Some (c :: s) => Some (c :: s)
  | _ => None
  end.

(** The records that [encodeGreetMessage] appends after the two
    standard fields, in the order in which it appends them. *)
Definition greetRecords (message : GreetMessage.t)
  : list (Z * jsstring) :=
  let many ty (l : option (list jsstring)) :=
    map (fun v => (ty, v)) (default [] l) in
  let one ty (v : option jsstring) :=
    match str_or_null v with Some x => [(ty, x)] | None => [] end in
  [(Codec.TLV_TYPE.GREET_TYPE, default [] (greetType message));
   (Codec.TLV_TYPE.SOURCE, source message);
   (Codec.TLV_TYPE.DEST, dest message)]
  ++ many Codec.TLV_TYPE.MEMBER (members message)
  ++ many Codec.TLV_TYPE.INT_KEY (intKeys message)
  ++ many Codec.TLV_TYPE.NONCE (nonces message)
  ++ many Codec.TLV_TYPE.PUB_KEY (pubKeys message)
  ++ match metadata message with
     | Some md =>
         [(TLV_PREV_PF, GreetingMetadata.prevPf md);
          (TLV_CHAIN_HASH, GreetingMetadata.prevCh md)]
         ++ many TLV_LATEST_PM (Some (GreetingMetadata.parents md))
     | None => []
     end
  ++ one Codec.TLV_TYPE.SESSION_SIGNATURE (sessionSignature message)
  ++ one Codec.TLV_TYPE.SIGNING_KEY (signingKey message).

Definition encodeRecords (rs : list (Z * jsstring)) : jsstring :=
  concat (map (fun r => Codec.encodeTLV r.1 r.2) rs).

(** [ns.encodeGreetMessage(message, privKey, pubKey)] for a message that
    is not [null]. *)
Definition encodeGreetMessage (message : GreetMessage.t)
    (privKey pubKey : jsstring) : jsstring :=
  let out := Codec.ENCODED_VERSION ++ Codec.ENCODED_TYPE_GREET in
  let out := out ++ Codec.encodeTLV_opt Codec.TLV_TYPE.GREET_TYPE
                      (greetType message) in
  let out := out ++ Codec.encodeTLV Codec.TLV_TYPE.SOURCE (source message) in
  let out := out ++ Codec.encodeTLV Codec.TLV_TYPE.DEST (dest message) in
  let out :=
    match members message with
    | Some l => out ++ Codec._encodeTlvArray Codec.TLV_TYPE.MEMBER l
    | None => out
    end in
  let out :=
    match intKeys message with
    | Some l => out ++ Codec._encodeTlvArray Codec.TLV_TYPE.INT_KEY l
    | None => out
    end in
  let out :=
    match nonces message with
    | Some l => out ++ Codec._encodeTlvArray Codec.TLV_TYPE.NONCE l
    | None => out
    end in
  let out :=
    match pubKeys message with
    | Some l => out ++ Codec._encodeTlvArray Codec.TLV_TYPE.PUB_KEY l
    | None => out
    end in
  let out :=
    match metadata message with
    | Some metadata =>
        out
        ++ Codec.encodeTLV TLV_PREV_PF (GreetingMetadata.prevPf metadata)
        ++ Codec.encodeTLV TLV_CHAIN_HASH (GreetingMetadata.prevCh metadata)
        ++ Codec._encodeTlvArray TLV_LATEST_PM
             (GreetingMetadata.parents metadata)
    | None => out
    end in
  let out :=
    match str_or_null (sessionSignature message) with
    | Some v => out ++ Codec.encodeTLV Codec.TLV_TYPE.SESSION_SIGNATURE v
    | None => out
    end in
  let out :=
    match str_or_null (signingKey message) with
    | Some v => out ++ Codec.encodeTLV Codec.TLV_TYPE.SIGNING_KEY v
    | None => out
    end in
  let signature :=
    Codec.signMessage Codec.MPENC_GREET_MESSAGE out privKey pubKey [] in
  Codec.encodeTLV Codec.TLV_TYPE.MESSAGE_SIGNATURE signature ++ out.

End encode.

(** *** GreetStore *)

Module GreetStore.
Record t := mk {
  _opState : jsval;
  members : jsval;
  sessionId : jsval;
  ephemeralPrivKey : jsval;
  ephemeralPubKey : jsval;
  nonce : jsval;
  ephemeralPubKeys : jsval;
  nonces : jsval;
  groupKey : jsval;
  privKeyList : jsval;
  intKeys : jsval;
  pubKeyMap : gmap jsstring jsval;
}.
End GreetStore.

(** [utils.clone] copies a value; values are immutable here. *)
Definition clone (v : jsval) : jsval := v.

(** [v.length] of a value that is neither [null] nor [undefined]. *)
Definition js_length (v : jsval) : jsval :=
  match v with
  | VStr s => VNum (Z.of_nat (length s))
  | VArr l => VNum (Z.of_nat (length l))
  | _ => VUndef
  end.

(** [a === b] on two values that are not arrays. *)
Definition strict_eq (a b : jsval) : bool :=
  match a, b with
  | VUndef, VUndef | VNull, VNull => true
  | VBool x, VBool y => bool_decide (x = y)
  | VNum x, VNum y => x =? y
  | VStr x, VStr y => bool_decide (x = y)
  | _, _ => false
  end.

(** [v[i]] for [i] below [v.length]. *)
Definition js_index (v : jsval) (i : nat) : jsval :=
  match v with
  | VStr s => match s !! i with Some c => VStr [c] | None => VUndef end
  | VArr l => match l !! i with Some x => VStr x | None => VUndef end
  | _ => VUndef
  end.

(** A value used as a property name. *)
Definition property_key (v : jsval) : jsstring :=
  match v with
  | VStr s => s
  | _ => js "undefined"
  end.

(** The loop [for (i = 0; i < members.length; i++)
    pubKeyMap[members[i]] = ephemeralPubKeys[i]]. *)
Definition fill_pubKeyMap (members ephemeralPubKeys : jsval)
  : gmap jsstring jsval :=
  match js_length members with
  | VNum n =>
      foldl (fun m i =>
               <[property_key (js_index members i) :=
                   js_index ephemeralPubKeys i]> m)
        ∅ (seq 0 (Z.to_nat n))
  | _ => ∅
  end.

(** [new GreetStore(...)]: the parameters are bound to the arguments by
    position; a missing argument is [undefined] and an argument beyond the
    eleventh is not bound. *)
Definition GreetStore_new (args : list jsval) : result GreetStore.t :=
  let arg i := nth i args VUndef in
  let state := arg 0%nat in
  let members := arg 1%nat in
  let sessionId := arg 2%nat in
  let ephemeralPrivKey := arg 3%nat in
  let ephemeralPubKey := arg 4%nat in
  let nonce := arg 5%nat in
  let ephemeralPubKeys := arg 6%nat in
  let nonces := arg 7%nat in
  let groupKey := arg 8%nat in
  let privKeyList := arg 9%nat in
  let intKeys := arg 10%nat in
  let this_opState := js_oror state (VNum (STATE.code STATE.NULL)) in
  let this_members := js_oror (clone members) (VArr []) in
  _ ← _assert (strict_eq this_opState (VNum (STATE.code STATE.READY))
               || strict_eq this_opState (VNum (STATE.code STATE.NULL)))
        "tried to create a GreetStore on a state other than NULL or READY";
  pubKeyMap ←
    (if truthy members then
       _ ← _assert (truthy ephemeralPubKeys)
             "ephemeral pubkeys null when members present.";
       _ ← _assert (strict_eq (js_length members)
                      (js_length ephemeralPubKeys))
             "Length of members/pub keys mismatch";
       Ok (fill_pubKeyMap members ephemeralPubKeys)
     else Ok ∅);
  Ok (GreetStore.mk this_opState this_members
        (js_oror (clone sessionId) VNull)
        (js_oror (clone ephemeralPrivKey) VNull)
        (js_oror (clone ephemeralPubKey) VNull)
        (js_oror (clone nonce) VNull)
        (js_oror (clone ephemeralPubKeys) VNull)
        (js_oror (clone nonces) VNull)
        (js_oror (clone groupKey) VNull)
        (js_oror (clone privKeyList) (VArr []))
        (js_oror (clone intKeys) (VArr []))
        pubKeyMap).

(** *** The CLIQUES member, as [greeter.js] uses it *)

Module CliquesMessage.
Record t := mk {
  source : jsstring;
  dest : jsstring;
  agreement : jsstring;
  flow : jsstring;
  members : option (list jsstring);
  intKeys : option (list jsstring);
}.
End CliquesMessage.

Module CliquesMember.
Record t := mk {
  id : jsstring;
  members : list jsstring;
  groupKey : option jsstring;
  privKeyList : list jsstring;
  intKeys : list jsstring;
}.
End CliquesMember.

Abbreviation AskeMember := (Ske.SignatureKeyExchangeMember.t).
Abbreviation AskeMessage := (Ske.SignatureKeyExchangeMessage.t).

(** The operations of [mpenc/greet/cliques] and those operations of
    [mpenc/greet/ske] whose code is not at hand: each maps the member
    before the call to the member after it and to the message it returns,
    if any. *)
Class SubProtocols `{Primitives} := {
  cliques_ika : CliquesMember.t -> list jsstring -> Entropy ->
                result (CliquesMember.t * option CliquesMessage.t);
  cliques_upflow : CliquesMember.t -> CliquesMessage.t -> Entropy ->
                   result (CliquesMember.t * option CliquesMessage.t);
  cliques_downflow : CliquesMember.t -> CliquesMessage.t ->
                     result CliquesMember.t;
  cliques_akaJoin : CliquesMember.t -> list jsstring -> Entropy ->
                    result (CliquesMember.t * option CliquesMessage.t);
  cliques_akaExclude : CliquesMember.t -> list jsstring -> Entropy ->
                       result (CliquesMember.t * option CliquesMessage.t);
  cliques_akaRefresh : CliquesMember.t -> Entropy ->
                       result (CliquesMember.t * option CliquesMessage.t);
  cliques_akaQuit : CliquesMember.t -> result CliquesMember.t;
  aske_downflow : AskeMember -> AskeMessage ->
                  result (AskeMember * option AskeMessage);
  aske_join : AskeMember -> list jsstring -> Entropy ->
              result (AskeMember * option AskeMessage);
  aske_exclude : AskeMember -> list jsstring ->
                 result (AskeMember * option AskeMessage);
  aske_quit : AskeMember -> result (AskeMember * option AskeMessage);
  aske_isSessionAcknowledged : AskeMember -> bool;
}.

Module Greeting.
Record t `{Primitives} := mk {
  id : jsstring;
  _opState : STATE.t;
  cliquesMember : CliquesMember.t;
  askeMember : AskeMember;
  metadata : option GreetingMetadata.t;
  (* assigned when a session is reached *)
  sessionId : option jsstring;
  members : option (list jsstring);
  ephemeralPubKeys : option (list jsstring);
  groupKey : option jsstring;
}.
End Greeting.

Module ProcessResult.
(** The object that [_processMessage] returns. *)
Record t := mk {
  decodedMessage : option GreetMessage.t;
  newState : option STATE.t;
}.
End ProcessResult.

Section greeting.
Context `{Primitives} `{CodecConstants} `{!SubProtocols}.
Import Greeting.

Definition with_opState (state : STATE.t) (g : Greeting.t) : Greeting.t :=
  mk _ (id g) state (cliquesMember g) (askeMember g) (metadata g)
    (sessionId g) (members g) (ephemeralPubKeys g) (groupKey g).

Definition with_members (c : CliquesMember.t) (a : AskeMember)
    (g : Greeting.t) : Greeting.t :=
  mk _ (id g) (_opState g) c a (metadata g)
    (sessionId g) (members g) (ephemeralPubKeys g) (groupKey g).

(** [this.sessionId = this.askeMember.sessionId] and the three
    assignments that follow it. *)
Definition with_session (g : Greeting.t) : Greeting.t :=
  mk _ (id g) (_opState g) (cliquesMember g) (askeMember g) (metadata g)
    (Ske.SignatureKeyExchangeMember.sessionId (askeMember g))
    (Some (Ske.SignatureKeyExchangeMember.members (askeMember g)))
    (Ske.SignatureKeyExchangeMember.ephemeralPubKeys (askeMember g))
    (CliquesMember.groupKey (cliquesMember g)).

(** [this.groupKey = this.cliquesMember.groupKey] *)
Definition with_groupKey (g : Greeting.t) : Greeting.t :=
  mk _ (id g) (_opState g) (cliquesMember g) (askeMember g) (metadata g)
    (sessionId g) (members g) (ephemeralPubKeys g)
    (CliquesMember.groupKey (cliquesMember g)).

Definition opt_str (v : option jsstring) : jsval :=
  match v with Some s => VStr s | None => VNull end.
Definition opt_arr (v : option (list jsstring)) : jsval :=
  match v with Some l => VArr l | None => VNull end.

Definition getResultState (this : Greeting.t) : result GreetStore.t :=
  if negb (bool_decide (_opState this = STATE.READY)) then
    Throw "Greeting not yet finished"
  else
    let a := askeMember this in
    let c := cliquesMember this in
    GreetStore_new
      [ VStr (id this);
        VNum (STATE.code (_opState this));
        VArr (Ske.SignatureKeyExchangeMember.members a);
        opt_str (Ske.SignatureKeyExchangeMember.sessionId a);
        opt_str (Ske.SignatureKeyExchangeMember.ephemeralPrivKey a);
        opt_str (Ske.SignatureKeyExchangeMember.ephemeralPubKey a);
        opt_str (Ske.SignatureKeyExchangeMember.nonce a);
        opt_arr (Ske.SignatureKeyExchangeMember.ephemeralPubKeys a);
        opt_arr (Ske.SignatureKeyExchangeMember.nonces a);
        opt_str (CliquesMember.groupKey c);
        VArr (CliquesMember.privKeyList c);
        VArr (CliquesMember.intKeys c) ].

Definition getResultSId (this : Greeting.t) : result (option jsstring) :=
  if negb (bool_decide (_opState this = STATE.READY)) then
    Throw "Greeting not yet finished"
  else Ok (Ske.SignatureKeyExchangeMember.sessionId (askeMember this)).

Definition _updateOpState (this : Greeting.t) (state : STATE.t)
  : Greeting.t := with_opState state this.

Definition _assertState (this : Greeting.t) (valid : list STATE.t)
    (message : string) : result unit :=
  _assert (existsb (fun v => bool_decide (_opState this = v)) valid)
    message.

Definition getEphemeralPrivKey (this : Greeting.t) : option jsstring :=
  Ske.SignatureKeyExchangeMember.ephemeralPrivKey (askeMember this).

(** [getEphemeralPubKey()] without a participant. *)
Definition getEphemeralPubKey (this : Greeting.t) : option jsstring :=
  Ske.SignatureKeyExchangeMember.ephemeralPubKey (askeMember this).

Definition _mergeMessages (this : Greeting.t)
    (cliquesMessage : option CliquesMessage.t)
    (askeMessage : option AskeMessage)
  : result (option GreetMessage.t) :=
  match cliquesMessage, askeMessage with
  | None, None => Ok None
  | _, _ =>
      _ ← match cliquesMessage, askeMessage with
          | Some c, Some a =>
              _ ← _assert
                    (bool_decide
                       (CliquesMessage.source c
                        = Ske.SignatureKeyExchangeMessage.source a))
                    "Message source mismatch, this shouldn't happen.";
              _assert
                (bool_decide
                   (CliquesMessage.dest c
                    = Ske.SignatureKeyExchangeMessage.dest a))
                "Message destination mismatch, this shouldn't happen."
          | _, _ => Ok tt
          end;
      (* a missing message is replaced by the empty object *)
      let c_dest := str_or_null (CliquesMessage.dest <$> cliquesMessage) in
      let a_dest :=
        str_or_null (Ske.SignatureKeyExchangeMessage.dest <$> askeMessage) in
      let c_members := cliquesMessage ≫= CliquesMessage.members in
      let a_members :=
        askeMessage ≫= Ske.SignatureKeyExchangeMessage.members in
      Ok (Some
            (GreetMessage.mk
               (id this)
               (default (default [] a_dest) c_dest)
               None None
               (match c_members with Some l => Some l | None => a_members end)
               (cliquesMessage ≫= CliquesMessage.intKeys)
               (askeMessage ≫= Ske.SignatureKeyExchangeMessage.nonces)
               (askeMessage ≫= Ske.SignatureKeyExchangeMessage.pubKeys)
               (str_or_null
                  (askeMessage
                     ≫= Ske.SignatureKeyExchangeMessage.sessionSignature))
               (str_or_null
                  (askeMessage
                     ≫= Ske.SignatureKeyExchangeMessage.signingKey))
               None false None None None))
  end.

Definition _getCliquesMessage (this : Greeting.t)
    (message : GreetMessage.t) : result CliquesMessage.t :=
  let flow := if isDownflow message then js "down" else js "up" in
  op ← getOperation message;
  let agreement :=
    if bool_decide (op = Some (js "START")) then js "ika" else js "aka" in
  Ok (CliquesMessage.mk (GreetMessage.source message)
        (GreetMessage.dest message) agreement flow
        (GreetMessage.members message) (GreetMessage.intKeys message)).

Definition _getAskeMessage (this : Greeting.t) (message : GreetMessage.t)
  : AskeMessage :=
  Ske.SignatureKeyExchangeMessage.mk
    (GreetMessage.source message) (GreetMessage.dest message)
    (if isDownflow message then js "down" else js "up")
    (GreetMessage.members message) (GreetMessage.nonces message)
    (GreetMessage.pubKeys message) (GreetMessage.sessionSignature message)
    (GreetMessage.signingKey message).

(** [_encodeAndPublish(packet, state)]: the Greeting after the call and
    the pair [[packet.dest, payload]] that it publishes. *)
Definition _encodeAndPublish (this : Greeting.t)
    (packet : option GreetMessage.t) (state : option STATE.t)
  : result (Greeting.t * (jsstring * jsstring)) :=
  match packet with
  | None => Throw "assertion failed"
  | Some packet =>
      match getEphemeralPrivKey this, getEphemeralPubKey this with
      | Some privKey, Some pubKey =>
          let payload := encodeGreetMessage packet privKey pubKey in
          let this :=
            match state with
            | Some state => _updateOpState this state
            | None => this
            end in
          Ok (this, (GreetMessage.dest packet, payload))
      | _, _ => Throw "TypeError: signing with a null key"
      end
  end.

(** [packet.greetType = t] on the result of [_mergeMessages]. *)
Definition assign_greetType (packet : option GreetMessage.t)
    (t : option jsstring) : result GreetMessage.t :=
  match packet with
  | Some packet => Ok (set_greetType t packet)
  | None => Throw "TypeError: cannot set property of null"
  end.

(** [packet.members.length === 1] *)
Definition one_member (packet : GreetMessage.t) : result bool :=
  match GreetMessage.members packet with
  | Some l => Ok (bool_decide (length l = 1%nat))
  | None => Throw "TypeError: members is null"
  end.

(** [quit()]: [None] is the call that returns nothing. *)
Definition quit (this : Greeting.t)
  : result (Greeting.t * option GreetMessage.t) :=
  if bool_decide (_opState this = STATE.QUIT) then Ok (this, None)
  else
    _ ← _assert (bool_decide (getEphemeralPrivKey this <> None))
          "Not participating.";
    c ← cliques_akaQuit (cliquesMember this);
    '(a, askeMessage) ← aske_quit (askeMember this);
    let this := with_members c a this in
    packet ← _mergeMessages this None askeMessage;
    packet ← assign_greetType packet (Some GREET_TYPE.QUIT_DOWN);
    let this := _updateOpState this STATE.QUIT in
    Ok (this, Some packet).

Definition start (this : Greeting.t) (otherMembers : list jsstring)
    (rndC rndA : Entropy)
  : result (Greeting.t * option GreetMessage.t) :=
  _ ← _assertState this [STATE.NULL]
        "start() can only be called from an uninitialised state.";
  _ ← _assert (negb (bool_decide (otherMembers = []))) "No members to add.";
  '(c, cliquesMessage) ← cliques_ika (cliquesMember this) otherMembers rndC;
  '(a, askeMessage) ← Ske.commit (askeMember this) otherMembers rndA;
  let this := with_members c a this in
  packet ← _mergeMessages this cliquesMessage (Some askeMessage);
  packet ← assign_greetType packet (Some GREET_TYPE.INIT_INITIATOR_UP);
  lastMan ← one_member packet;
  if (lastMan : bool) then quit this
  else Ok (_updateOpState this STATE.INIT_UPFLOW, Some packet).

Definition include (this : Greeting.t) (includeMembers : list jsstring)
    (rndC rndA : Entropy)
  : result (Greeting.t * option GreetMessage.t) :=
  _ ← _assertState this [STATE.READY]
        "include() can only be called from a ready state.";
  _ ← _assert (negb (bool_decide (includeMembers = [])))
        "No members to add.";
  '(c, cliquesMessage) ←
    cliques_akaJoin (cliquesMember this) includeMembers rndC;
  '(a, askeMessage) ← aske_join (askeMember this) includeMembers rndA;
  let this := with_members c a this in
  packet ← _mergeMessages this cliquesMessage askeMessage;
  packet ← assign_greetType packet (Some GREET_TYPE.INCLUDE_AUX_INITIATOR_UP);
  Ok (_updateOpState this STATE.AUX_UPFLOW, Some packet).

Definition exclude (this : Greeting.t) (excludeMembers : list jsstring)
    (rndC : Entropy)
  : result (Greeting.t * option GreetMessage.t) :=
  _ ← _assertState this [STATE.READY]
        "exclude() can only be called from a ready state.";
  _ ← _assert (negb (bool_decide (excludeMembers = [])))
        "No members to exclude.";
  _ ← _assert (bool_decide (Ske.indexOf excludeMembers (id this) = None))
        "Cannot exclude mysefl.";
  '(c, cliquesMessage) ←
    cliques_akaExclude (cliquesMember this) excludeMembers rndC;
  '(a, askeMessage) ← aske_exclude (askeMember this) excludeMembers;
  let this := with_members c a this in
  packet ← _mergeMessages this cliquesMessage askeMessage;
  packet ←
    assign_greetType packet (Some GREET_TYPE.EXCLUDE_AUX_INITIATOR_DOWN);
  let this := with_session this in
  lastMan ← one_member packet;
  if (lastMan : bool) then
    '(this, _) ← quit this;
    Ok (this, None)
  else
    Ok (_updateOpState this
          (if aske_isSessionAcknowledged (askeMember this)
           then STATE.READY else STATE.AUX_DOWNFLOW),
        Some packet).

Definition refresh (this : Greeting.t) (rndC : Entropy)
  : result (Greeting.t * option GreetMessage.t) :=
  _ ← _assertState this
        [STATE.READY; STATE.INIT_DOWNFLOW; STATE.AUX_DOWNFLOW]
        "refresh() can only be called from a ready or downflow states.";
  '(c, cliquesMessage) ← cliques_akaRefresh (cliquesMember this) rndC;
  let this := with_members c (askeMember this) this in
  packet ← _mergeMessages this cliquesMessage None;
  packet ←
    assign_greetType packet (Some GREET_TYPE.REFRESH_AUX_INITIATOR_DOWN);
  Ok (with_groupKey this, Some packet).

(** [_processMessage(message)]: the Greeting after the call and the
    returned object, [None] for [null]. *)
Definition _processMessage (this : Greeting.t) (message : GreetMessage.t)
    (rndC rndA : Entropy)
  : result (Greeting.t * option ProcessResult.t) :=
  if bool_decide (_opState this = STATE.QUIT) then Ok (this, None)
  else if match GreetMessage.members message with
          | Some l =>
              (0 <? Z.of_nat (length l))
              && bool_decide (Ske.indexOf l (id this) = None)
          | None => false
          end
  then
    if negb (bool_decide (_opState this = STATE.QUIT)) then
      Ok (this, Some (ProcessResult.mk None (Some STATE.QUIT)))
    else Ok (this, None)
  else if negb (bool_decide (GreetMessage.dest message = []))
          && negb (bool_decide (GreetMessage.dest message = id this))
  then Ok (this, None)
  else if bool_decide (GreetMessage.source message = id this)
  then Ok (this, None)
  else
    inCliquesMessage ← _getCliquesMessage this message;
    let inAskeMessage := _getAskeMessage this message in
    '(this, outMessage, newState) ←
      (if bool_decide (greetType message = Some GREET_TYPE.QUIT_DOWN) then
         Ok (this, None, None)
       else if isDownflow message then
         c ← (if isGKA message
              then cliques_downflow (cliquesMember this) inCliquesMessage
              else Ok (cliquesMember this));
         '(a, outAskeMessage) ←
           (if isSKE message
            then aske_downflow (askeMember this) inAskeMessage
            else Ok (askeMember this, None));
         let this := with_members c a this in
         outMessage ← _mergeMessages this None outAskeMessage;
         match outMessage with
         | Some outMessage =>
             let outMessage := set_greetType (greetType message) outMessage in
             outMessage ← run (clearInitiator outMessage (VBool true));
             outMessage ← run (clearGKA outMessage VUndef);
             Ok (this, Some outMessage,
                 Some (if isAuxiliary message then STATE.AUX_DOWNFLOW
                       else STATE.INIT_DOWNFLOW))
         | None => Ok (this, None, None)
         end
       else
         '(c, outCliquesMessage) ←
           cliques_upflow (cliquesMember this) inCliquesMessage rndC;
         '(a, outAskeMessage) ←
           Ske.upflow (askeMember this) inAskeMessage rndA;
         let this := with_members c a this in
         outMessage ←
           _mergeMessages this outCliquesMessage (Some outAskeMessage);
         outMessage ← assign_greetType outMessage (greetType message);
         outMessage ← run (clearInitiator outMessage VUndef);
         if bool_decide (GreetMessage.dest outMessage = []) then
           outMessage ← run (setDownflow outMessage VUndef);
           Ok (this, Some outMessage,
               Some (if isAuxiliary message then STATE.AUX_DOWNFLOW
                     else STATE.INIT_DOWNFLOW))
         else
           Ok (this, Some outMessage,
               Some (if isAuxiliary message then STATE.AUX_UPFLOW
                     else STATE.INIT_UPFLOW)));
    if aske_isSessionAcknowledged (askeMember this) then
      Ok (with_session this,
          Some (ProcessResult.mk outMessage (Some STATE.READY)))
    else
      Ok (this, Some (ProcessResult.mk outMessage newState)).

End greeting.

End Greeter.

(** ** The module [mpenc/message] *)

Module Message.

(** *** UTF-8 protection of the body *)

Definition is_high_surrogate (c : Z) : bool := (0xD800 <=? c) && (c <=? 0xDBFF).
Definition is_low_surrogate (c : Z) : bool := (0xDC00 <=? c) && (c <=? 0xDFFF).
Definition is_continuation (b : Z) : bool := (0x80 <=? b) && (b <=? 0xBF).

(** [unescape(encodeURIComponent(s))]: the UTF-8 bytes of [s];
    [encodeURIComponent] raises on a surrogate that is not part of a
    pair. *)
Fixpoint utf8_encode (s : jsstring) : result jsstring :=
  match s with
  | [] => Ok []
  | c :: r =>
      if c <? 0x80 then
        b ← utf8_encode r; Ok (c :: b)
      else if c <? 0x800 then
        b ← utf8_encode r; Ok (0xC0 + c / 64 :: 0x80 + c mod 64 :: b)
      else if is_high_surrogate c then
        match r with
        | d :: r' =>
            if is_low_surrogate d then
              let cp := 0x10000 + (c - 0xD800) * 1024 + (d - 0xDC00) in
              b ← utf8_encode r';
              Ok (0xF0 + cp / 262144 :: 0x80 + cp / 4096 mod 64
                    :: 0x80 + cp / 64 mod 64 :: 0x80 + cp mod 64 :: b)
            else Throw "URIError: URI malformed"
        | [] => Throw "URIError: URI malformed"
        end
      else if is_low_surrogate c then Throw "URIError: URI malformed"
      else
        b ← utf8_encode r;
        Ok (0xE0 + c / 4096 :: 0x80 + c / 64 mod 64 :: 0x80 + c mod 64 :: b)
  end.

(** [decodeURIComponent(escape(v))]: [escape] turns every unit below 256
    into an octet and [decodeURIComponent] accepts only well-formed UTF-8
    (no overlong forms, no encoded surrogates, nothing above U+10FFFF); a
    unit above 255 becomes [%uXXXX], which it rejects. *)
Fixpoint utf8_decode (v : jsstring) : result jsstring :=
  match v with
  | [] => Ok []
  | b0 :: r =>
      if (0 <=? b0) && (b0 <? 0x80) then
        s ← utf8_decode r; Ok (b0 :: s)
      else if (0xC2 <=? b0) && (b0 <=? 0xDF) then
        match r with
        | b1 :: r =>
            if is_continuation b1 then
              s ← utf8_decode r;
              Ok ((b0 - 0xC0) * 64 + (b1 - 0x80) :: s)
            else Throw "URIError: URI malformed"
        | _ => Throw "URIError: URI malformed"
        end
      else if (0xE0 <=? b0) && (b0 <=? 0xEF) then
        match r with
        | b1 :: b2 :: r =>
            let cp := ((b0 - 0xE0) * 64 + (b1 - 0x80)) * 64 + (b2 - 0x80) in
            if is_continuation b1 && is_continuation b2 && (0x800 <=? cp)
               && negb ((0xD800 <=? cp) && (cp <=? 0xDFFF))
            then s ← utf8_decode r; Ok (cp :: s)
            else Throw "URIError: URI malformed"
        | _ => Throw "URIError: URI malformed"
        end
      else if (0xF0 <=? b0) && (b0 <=? 0xF4) then
        match r with
        | b1 :: b2 :: b3 :: r =>
            let cp :=
              (((b0 - 0xF0) * 64 + (b1 - 0x80)) * 64 + (b2 - 0x80)) * 64
              + (b3 - 0x80) in
            if is_continuation b1 && is_continuation b2 && is_continuation b3
               && (0x10000 <=? cp) && (cp <=? 0x10FFFF)
            then
              s ← utf8_decode r;
              Ok (0xD800 + (cp - 0x10000) / 1024
                    :: 0xDC00 + (cp - 0x10000) mod 1024 :: s)
            else Throw "URIError: URI malformed"
        | _ => Throw "URIError: URI malformed"
        end
      else Throw "URIError: URI malformed"
  end.

(** *** Helpers of [mpenc/helper/utils] *)

(** [utils.string2bytes]: the units of the string stored into a
    [Uint8Array]; [utils.bytes2string] reads them back. *)
Definition string2bytes (s : jsstring) : jsstring := map (fun c => c mod 256) s.
Definition bytes2string (b : jsstring) : jsstring := b.

(** [Math.ceil(a / b)] for integers [0 <= a] and [0 < b]. *)
Definition ceil_div (a b : Z) : Z := (a + b - 1) / b.

(** [Math.ceil(Math.log(q) / Math.log(2))] for an integer [1 <= q]: the
    double-precision quotient rounds up to the exact ceiling of the binary
    logarithm for every [q] below [2^29], and no call has [q] above
    65536. *)
Definition ceil_log2 (q : Z) : Z := Z.log2_up q.

(** [(new Array(n)).join('\u0000')] for [0 <= n < 2^32]: [n - 1]
    separators. *)
Definition array_join_zeros (n : Z) : jsstring := repeat 0 (Z.to_nat (n - 1)).

(** *** The session store, as [MessageSecurity] reads it *)

Module GreetStore.
(** The properties of a READY store that [authEncrypt] and
    [decryptVerify] read, at the types they have there. *)
Record t := mk {
  id : jsstring;
  members : list jsstring;
  sessionId : jsstring;
  ephemeralPrivKey : jsstring;
  ephemeralPubKey : jsstring;
  groupKey : jsstring;
  pubKeyMap : gmap jsstring jsstring;
}.
End GreetStore.

Module PendingMessage.
(** [parents] and [readers] are sets; the lists give their iteration
    order. *)
Record t := mk {
  author : jsstring;
  parents : option (list jsstring);
  readers : list jsstring;
  body : jsstring;
}.
End PendingMessage.

Module MessageSecurity.
Record t := mk {
  _greetStore : GreetStore.t;
  _paddingSize : Z;
}.
End MessageSecurity.

Module Encrypted.
(** What [_encryptRaw] returns. *)
Record t := mk { data : jsstring; iv : jsstring }.
End Encrypted.

Module AesCall.
(** The arguments of one call of [asmCrypto.AES_CTR.encrypt]. *)
Record t := mk { data : jsstring; key : jsstring; nonce : jsstring }.
End AesCall.

Module Secrets.
Record t := mk { mId : jsstring }.
End Secrets.

Module AuthEncrypted.
(** What [authEncrypt] returns. *)
Record t := mk { pubtxt : jsstring; secrets : Secrets.t }.
End AuthEncrypted.

Module Decrypted.
(** What [decryptVerify] returns. *)
Record t := mk { secrets : Secrets.t; message : PendingMessage.t }.
End Decrypted.

Module Inspected.
Record t := mk {
  sidkeyHint : jsstring;
  signature : jsstring;
  rawMessage : jsstring;
}.
End Inspected.

Section with_primitives.
Context `{Primitives} `{CodecConstants}.

Definition _dummyMessageSecrets (signature content : jsstring) : Secrets.t :=
  Secrets.mk (take 20 (sha256 (signature ++ content))).

(** [_encryptRaw] up to its call of [asmCrypto.AES_CTR.encrypt]: the
    arguments of that call.  [nonce] is the value of
    [utils.randomString(12)].  A negative padding size makes the
    logarithm [NaN], the shift 1 and the array length negative. *)
Definition _encryptRaw_call (dataBytes key : jsstring) (paddingSize : Z)
    (nonce : jsstring) : result AesCall.t :=
  let paddingSize := ToInt32 paddingSize in
  let keyBytes := string2bytes key in
  _ ← _assert (Z.of_nat (length dataBytes) <? 0xffff)
        "Message size too large for encryption scheme.";
  let dataBytes :=
    Codec._short2bin (Z.of_nat (length dataBytes)) ++ dataBytes in
  dataBytes ←
    (if paddingSize =? 0 then Ok dataBytes
     else if paddingSize <? 0 then Throw "RangeError: Invalid array length"
     else
       let exponentialPaddingSize :=
         paddingSize
         * js_shl 1 (ceil_log2
                       (ceil_div (Z.of_nat (length dataBytes)) paddingSize))
         + 1 in
       let numPaddingBytes :=
         exponentialPaddingSize - Z.of_nat (length dataBytes) in
       Ok (dataBytes ++ array_join_zeros numPaddingBytes));
  Ok (AesCall.mk dataBytes keyBytes (string2bytes (nonce ++ [0; 0; 0; 0]))).

Definition _encryptRaw (dataBytes key : jsstring) (paddingSize : Z)
    (nonce : jsstring) : result Encrypted.t :=
  call ← _encryptRaw_call dataBytes key paddingSize nonce;
  let cipherBytes :=
    AES_CTR_encrypt (AesCall.data call) (AesCall.key call)
      (AesCall.nonce call) in
  Ok (Encrypted.mk (bytes2string cipherBytes) nonce).

(** [s.slice(a, b)] for [0 <= a] and [0 <= b]. *)
Definition slice (a b : nat) (s : jsstring) : jsstring :=
  take (b - a) (drop a s).

Definition _decryptRaw (data key iv : jsstring) : jsstring :=
  let keyBytes := string2bytes key in
  let ivBytes := string2bytes (slice 0 12 iv ++ [0; 0; 0; 0]) in
  let clearBytes := AES_CTR_decrypt data keyBytes ivBytes in
  let clearString := bytes2string clearBytes in
  let messageSize := Codec._bin2short (slice 0 2 clearString) in
  slice 2 (Z.to_nat (messageSize + 2)) clearString.

(** The encryption payload of [authEncrypt], [rawBody]. *)
Definition rawBody (message : PendingMessage.t) : result jsstring :=
  let rawBody :=
    match PendingMessage.parents message with
    | Some parents =>
        concat (map (Codec.encodeTLV TLV_MESSAGE_PARENT) parents)
    | None => []
    end in
  body ← utf8_encode (PendingMessage.body message);
  Ok (rawBody ++ Codec.encodeTLV TLV_MESSAGE_BODY body).

(** [codec.encodeWirePacket] and [codec.decodeWirePacket(..).content]:
    the codec under [src/] has them as [tlvToWire] and [wireToTLV]. *)
Definition encodeWirePacket (contents : jsstring) : result jsstring :=
  Codec.tlvToWire contents.
Definition decodeWirePacket (pubtxt : jsstring) : result jsstring :=
  Codec.wireToTLV pubtxt.

(** [codec.popStandardFields(rest, expectedType, debugOutput)] of the
    codec that [mpenc/message] is written against: the protocol version
    record, then the message-type record, each checked against the
    expected value as the function of that name under [src/] checks
    its two records. *)
Definition popStandardFields (message expectedType : jsstring)
  : result jsstring :=
  '(value, rest) ← Codec.popTLV message Codec.TLV_TYPE.PROTOCOL_VERSION;
  _ ← _assert (bool_decide (value = PROTOCOL_VERSION))
        "decode failed; expected PROTOCOL_VERSION";
  '(value, rest) ← Codec.popTLV rest TLV_MESSAGE_TYPE;
  _ ← _assert (bool_decide (value = expectedType))
        "decode failed; expected message type";
  Ok rest.

Import MessageSecurity.

(** [authEncrypt(transcript, message)]; [nonce] is the value that
    [_encryptRaw] draws. *)
Definition authEncrypt (this : MessageSecurity.t)
    (message : PendingMessage.t) (nonce : jsstring)
  : result AuthEncrypted.t :=
  let store := _greetStore this in
  _ ← _assert (bool_decide (PendingMessage.author message
                            = GreetStore.id store)) "assertion failed";
  let privKey := GreetStore.ephemeralPrivKey store in
  let pubKey := GreetStore.ephemeralPubKey store in
  let sessionID := GreetStore.sessionId store in
  let groupKey := GreetStore.groupKey store in
  let members : gset jsstring :=
    list_to_set (PendingMessage.readers message)
    ∪ {[ GreetStore.id store ]} in
  _ ← _assert (bool_decide
                 (members = list_to_set (GreetStore.members store)))
        "Readers not members of session";
  let sidkeyHash := sha256 (sessionID ++ groupKey) in
  let content := Codec.ENCODED_VERSION ++ Codec.ENCODED_TYPE_DATA in
  rawBody ← rawBody message;
  encrypted ← _encryptRaw rawBody groupKey (_paddingSize this) nonce;
  let content :=
    content ++ Codec.encodeTLV Codec.TLV_TYPE.MESSAGE_IV
                 (Encrypted.iv encrypted) in
  let content :=
    content ++ Codec.encodeTLV TLV_MESSAGE_PAYLOAD
                 (Encrypted.data encrypted) in
  let signature :=
    Codec.signMessage Codec.MPENC_DATA_MESSAGE content privKey pubKey
      sidkeyHash in
  let out := Codec.encodeTLV Codec.TLV_TYPE.SIDKEY_HINT (take 1 sidkeyHash) in
  let out := out ++ Codec.encodeTLV Codec.TLV_TYPE.MESSAGE_SIGNATURE signature in
  let out := out ++ content in
  pubtxt ← encodeWirePacket out;
  Ok (AuthEncrypted.mk pubtxt (_dummyMessageSecrets signature content)).

(** The call of [asmCrypto.AES_CTR.encrypt] that [authEncrypt] reaches
    through [_encryptRaw]. *)
Definition authEncrypt_call (this : MessageSecurity.t)
    (message : PendingMessage.t) (nonce : jsstring) : result AesCall.t :=
  let store := _greetStore this in
  _ ← _assert (bool_decide (PendingMessage.author message
                            = GreetStore.id store)) "assertion failed";
  let members : gset jsstring :=
    list_to_set (PendingMessage.readers message)
    ∪ {[ GreetStore.id store ]} in
  _ ← _assert (bool_decide
                 (members = list_to_set (GreetStore.members store)))
        "Readers not members of session";
  rawBody ← rawBody message;
  _encryptRaw_call rawBody (GreetStore.groupKey store) (_paddingSize this)
    nonce.

Definition _inspectMessage (message : jsstring) : result Inspected.t :=
  '(sidkeyHint, rest) ← Codec.popTLV message Codec.TLV_TYPE.SIDKEY_HINT;
  _ ← _assert (bool_decide (length sidkeyHint = 1%nat))
        "unexpected length for SIDKEY_HINT";
  '(signature, rest) ← Codec.popTLV rest Codec.TLV_TYPE.MESSAGE_SIGNATURE;
  Ok (Inspected.mk sidkeyHint signature rest).

(** [_decodeMessage]: the fields [iv] and [data] of its result. *)
Definition _decodeMessage (rawMessage : jsstring)
  : result (jsstring * jsstring) :=
  rest ← popStandardFields rawMessage MESSAGE_TYPE_DATA;
  '(iv, rest) ← Codec.popTLV rest Codec.TLV_TYPE.MESSAGE_IV;
  '(data, rest) ← Codec.popTLV rest TLV_MESSAGE_PAYLOAD;
  Ok (iv, data).

(** [readers = members.slice(); readers.splice(idx, 1)] *)
Definition splice1 (idx : nat) (members : list jsstring) : list jsstring :=
  take idx members ++ drop (S idx) members.

Definition _decrypt (inspected : Inspected.t) (groupKey author : jsstring)
    (members : list jsstring) : result Decrypted.t :=
  '(iv, data) ← _decodeMessage (Inspected.rawMessage inspected);
  _ ← _assert (negb (bool_decide (data = []))) "assertion failed";
  let rest := _decryptRaw data groupKey iv in
  '(parents, rest) ← Codec.popTLVAll rest TLV_MESSAGE_PARENT;
  '(value, rest) ← Codec.popTLV rest TLV_MESSAGE_BODY;
  body ← utf8_decode value;
  match Ske.indexOf members author with
  | None => Throw "assertion failed"
  | Some idx =>
      let readers := splice1 idx members in
      Ok (Decrypted.mk
            (_dummyMessageSecrets (Inspected.signature inspected)
               (Inspected.rawMessage inspected))
            (PendingMessage.mk author (Some parents) readers body))
  end.

(** [decryptVerify(transcript, pubtxt, authorHint)]; [None] is the
    [null] returned when no author is given. *)
Definition decryptVerify (this : MessageSecurity.t)
    (pubtxt authorHint : jsstring) : result (option Decrypted.t) :=
  let store := _greetStore this in
  let sessionID := GreetStore.sessionId store in
  let groupKey := GreetStore.groupKey store in
  if bool_decide (authorHint = []) then Ok None
  else
    decoded ← decodeWirePacket pubtxt;
    let signingPubKey := GreetStore.pubKeyMap store !! authorHint in
    inspected ← _inspectMessage decoded;
    let sidkeyHash := sha256 (sessionID ++ groupKey) in
    match Greeter.str_or_null signingPubKey with
    | None => Throw "DecryptVerifyError: no key found"
    | Some signingPubKey =>
        let verifySig :=
          Codec.verifyMessageSignature Codec.MPENC_DATA_MESSAGE
            (Inspected.rawMessage inspected) (Inspected.signature inspected)
            signingPubKey sidkeyHash in
        if negb verifySig then Throw "DecryptVerifyError: bad signature"
        else
          decrypted ← _decrypt inspected groupKey authorHint
                        (GreetStore.members store);
          Ok (Some decrypted)
    end.

End with_primitives.

End Message.

(** ** Decoding of greet messages in [greeter.js] *)

(** [new ImmutableSet(array).toArray()] of [mpenc/helper/struct]: the
    values of the array in the order in which the set iterates them. *)
Class Struct := {
  ImmutableSet_toArray : list jsstring -> list jsstring;
}.

Module GreetDecode.

Import Greeter.

(** An action that only appends [btoa(value)] to the debugging output: it
    raises when [btoa] does. *)
Definition debug_btoa (value : jsstring) : result unit :=
  _ ← Base64.btoa value; Ok tt.

(** [popTLVMaybe] and [popTLVAll] with the action that the caller
    passes: it runs on the decoded value, before the rest is returned. *)
Definition popTLVMaybe_with (message : jsstring) (type_ : Z)
    (action : jsstring -> result unit)
  : result (option jsstring * jsstring) :=
  '(v, rest) ← Codec.popTLVMaybe message type_;
  _ ← from_option action (Ok tt) v;
  Ok (v, rest).

Fixpoint popTLVAll_with_loop (fuel : nat) (rest : jsstring) (type_ : Z)
    (action : jsstring -> result unit) (seen : list jsstring)
  : result (list jsstring * jsstring) :=
  match fuel with
  | O => Throw "popTLVAll: out of fuel"
  | S fuel =>
      let oldrest := rest in
      '(v, rest) ← popTLVMaybe_with rest type_ action;
      let seen := seen ++ option_list v in
      if bool_decide (rest = oldrest) then Ok (seen, rest)
      else popTLVAll_with_loop fuel rest type_ action seen
  end.

Definition popTLVAll_with (message : jsstring) (type_ : Z)
    (action : jsstring -> result unit)
  : result (list jsstring * jsstring) :=
  popTLVAll_with_loop (S (length message)) message type_ action [].

Section with_primitives.
Context `{Primitives} `{CodecConstants} `{Struct}.

(** [ns._popTLVMetadata(rest, source, search, action)] with [search]
    false, as [_decode] calls it: the metadata handed to [action], if
    any, and the rest.  (With [search] true it calls
    [codec.popTLVUntil], which the codec under [src/] does not have.) *)
Definition _popTLVMetadata (rest source : jsstring)
  : result (option GreetingMetadata.t * jsstring) :=
  '(prevPf, newRest) ← Codec.popTLVMaybe rest TLV_PREV_PF;
  match prevPf with
  | None => Ok (None, rest)
  | Some prevPf =>
      if bool_decide (newRest = rest) then Ok (None, rest)
      else
        let rest := newRest in
        '(chainHash, rest) ← Codec.popTLV rest TLV_CHAIN_HASH;
        '(parents, rest) ← Codec.popTLVAll rest TLV_LATEST_PM;
        Ok (Some (GreetingMetadata.mk prevPf chainHash source
                    (ImmutableSet_toArray parents)), rest)
  end.

(** [_decode(message)].  The standard fields are popped by the
    [popStandardFields] that [mpenc/message] uses as well. *)
Definition _decode (message : jsstring) : result GreetMessage.t :=
  '(signature, rest) ←
    popTLVMaybe_with message Codec.TLV_TYPE.MESSAGE_SIGNATURE debug_btoa;
  let rawMessage :=
    if bool_decide (rest = message) then None else Some rest in
  rest ← Message.popStandardFields rest MESSAGE_TYPE_GREET;
  '(greetType, rest) ← Codec.popTLV rest Codec.TLV_TYPE.GREET_TYPE;
  '(source, rest) ← Codec.popTLV rest Codec.TLV_TYPE.SOURCE;
  '(dest, rest) ← Codec.popTLV rest Codec.TLV_TYPE.DEST;
  '(members, rest) ← Codec.popTLVAll rest Codec.TLV_TYPE.MEMBER;
  '(intKeys, rest) ←
    popTLVAll_with rest Codec.TLV_TYPE.INT_KEY debug_btoa;
  '(nonces, rest) ← popTLVAll_with rest Codec.TLV_TYPE.NONCE debug_btoa;
  '(pubKeys, rest) ← popTLVAll_with rest Codec.TLV_TYPE.PUB_KEY debug_btoa;
  '(metadata, rest) ← _popTLVMetadata rest source;
  '(sessionSignature, rest) ←
    popTLVMaybe_with rest Codec.TLV_TYPE.SESSION_SIGNATURE debug_btoa;
  '(signingKey, rest) ←
    popTLVMaybe_with rest Codec.TLV_TYPE.SIGNING_KEY debug_btoa;
  Ok (GreetMessage.mk source dest (Some greetType) None (Some members)
        (Some intKeys) (Some nonces) (Some pubKeys) sessionSignature
        signingKey signature false rawMessage None metadata).

(** [out.pubKeys[out.members.indexOf(out.source)]]: the index -1 and an
    index past the end read [undefined]. *)
Definition sender_pubKey (out : GreetMessage.t) : option jsstring :=
  idx ← Ske.indexOf (default [] (GreetMessage.members out))
          (GreetMessage.source out);
  default [] (GreetMessage.pubKeys out) !! idx.

(** The key that [decodeGreetMessage] verifies with: the [pubKey] it is
    given or, when that is missing or empty, the sender's key in the
    message. *)
Definition verification_key (pubKey : option jsstring)
    (out : GreetMessage.t) : option jsstring :=
  match str_or_null pubKey with
  | Some k => Some k
  | None => sender_pubKey out
  end.

(** [ns.decodeGreetMessage(message, pubKey)].  A verification that gives
    [false] and one that raises, as without any key, both end in the
    assertion of the [catch] block. *)
Definition decodeGreetMessage (message : jsstring)
    (pubKey : option jsstring) : result GreetMessage.t :=
  out ← _decode message;
  let sidkeyHash : jsstring := [] in
  _ ← _assert (negb (bool_decide (str_or_null (GreetMessage.data out)
                                  <> None))) "assertion failed";
  let count (l : option (list jsstring)) := length (default [] l) in
  _ ← _assert (count (GreetMessage.intKeys out)
               <=? count (GreetMessage.members out))%nat
        "Number of intermediate keys cannot exceed number of members.";
  _ ← _assert (count (GreetMessage.nonces out)
               <=? count (GreetMessage.members out))%nat
        "Number of nonces cannot exceed number of members.";
  _ ← _assert (count (GreetMessage.pubKeys out)
               <=? count (GreetMessage.members out))%nat
        "Number of public keys cannot exceed number of members.";
  match str_or_null (GreetMessage.signature out) with
  | Some signature =>
      match verification_key pubKey out, GreetMessage.rawMessage out with
      | Some pubKey, Some rawMessage =>
          let signatureOk :=
            Codec.verifyMessageSignature Codec.MPENC_GREET_MESSAGE
              rawMessage signature pubKey sidkeyHash in
          _ ← _assert signatureOk "Signature of message does not verify";
          Ok (GreetMessage.mk (GreetMessage.source out)
                (GreetMessage.dest out) (GreetMessage.greetType out)
                (GreetMessage.sidkeyHint out) (GreetMessage.members out)
                (GreetMessage.intKeys out) (GreetMessage.nonces out)
                (GreetMessage.pubKeys out)
                (GreetMessage.sessionSignature out)
                (GreetMessage.signingKey out) (GreetMessage.signature out)
                signatureOk (GreetMessage.rawMessage out)
                (GreetMessage.data out) (GreetMessage.metadata out))
      | _, _ => Throw "Signature of message does not verify"
      end
  | None => Ok out
  end.

End with_primitives.

End GreetDecode.

(** ** Assumptions on the collaborators *)

(** What the data-message round trip needs from the libraries: hashes,
    signatures and ciphertexts are binary strings, AES-CTR keeps the length
    and decrypts what it encrypted, and a signature made with a key pair
    verifies under its public key. *)
Class PrimitivesLaws `{Primitives} := {
  sha256_bytes : forall s, bytestring (sha256 s);
  sha256_length : forall s, length (sha256 s) = 32%nat;
  sign_bytes : forall m priv pub, bytestring (eddsa_sign m priv pub);
  sign_length : forall m priv pub, length (eddsa_sign m priv pub) = 64%nat;
  sign_verify : forall m priv,
    eddsa_verify (eddsa_sign m priv (eddsa_publickey priv)) m
      (eddsa_publickey priv) = true;
  aes_bytes : forall d k iv, bytestring (AES_CTR_encrypt d k iv);
  aes_length : forall d k iv, length (AES_CTR_encrypt d k iv) = length d;
  aes_decrypt_encrypt : forall d k iv,
    bytestring d -> AES_CTR_decrypt (AES_CTR_encrypt d k iv) k iv = d;
  version_bytes : bytestring PROTOCOL_VERSION;
  version_length : Z.of_nat (length PROTOCOL_VERSION) < 65536;
}.

(** Record types are 16-bit numbers, the message-type value is a short
    binary string, and a parent record is told from a body record by its
    type. *)
Class CodecConstantsLaws `{CodecConstants} := {
  message_type_u16 : 0 <= TLV_MESSAGE_TYPE < 65536;
  message_type_data_bytes : bytestring MESSAGE_TYPE_DATA;
  message_type_data_length : Z.of_nat (length MESSAGE_TYPE_DATA) < 65536;
  message_parent_u16 : 0 <= TLV_MESSAGE_PARENT < 65536;
  message_body_u16 : 0 <= TLV_MESSAGE_BODY < 65536;
  message_payload_u16 : 0 <= TLV_MESSAGE_PAYLOAD < 65536;
  parent_not_body : TLV_MESSAGE_PARENT <> TLV_MESSAGE_BODY;
}.

(** ** Small instances of the collaborators, for running the definitions *)

Module Toy.

Definition xor_stream (d k iv : jsstring) : jsstring :=
  map (fun c => Z.lxor (c mod 256) (nth 0 k 0 mod 256)) d.

Global Instance primitives : Primitives := {|
  sha256 s := map (fun c => c mod 256) (take 32 (s ++ repeat 0 32));
  eddsa_sign m priv pub :=
    map (fun c => c mod 256) (take 64 (pub ++ m ++ repeat 0 64));
  eddsa_verify sig m pub :=
    bool_decide
      (sig = map (fun c => c mod 256) (take 64 (pub ++ m ++ repeat 0 64)));
  eddsa_publickey priv := map (fun c => (c + 1) mod 256) priv;
  AES_CTR_encrypt := xor_stream;
  AES_CTR_decrypt := xor_stream;
  StaticKey := jsstring;
  StaticPubKeyDir := unit;
  smallrsasign cleartext privkey := privkey ++ cleartext;
  PROTOCOL_VERSION := [1];
|}.

Global Instance constants : CodecConstants := {|
  TLV_MESSAGE_TYPE := 0x0002;
  MESSAGE_TYPE_GREET := [1];
  MESSAGE_TYPE_DATA := [0];
  TLV_PREV_PF := 0x0301;
  TLV_CHAIN_HASH := 0x0302;
  TLV_LATEST_PM := 0x0303;
  TLV_MESSAGE_PARENT := 0x0013;
  TLV_MESSAGE_BODY := 0x0014;
  TLV_MESSAGE_PAYLOAD := 0x0010;
|}.

Global Instance struct : Struct := {|
  ImmutableSet_toArray := remove_dups;
|}.

(** Sub-protocols that route along the member list and carry no keys. *)
Definition next_dest (id : jsstring) (members : list jsstring) : jsstring :=
  match Ske.indexOf members id with
  | Some i => nth (i + 1) members []
  | None => []
  end.

Global Instance sub_protocols : Greeter.SubProtocols := {|
  Greeter.cliques_ika c others _ :=
    let members := Greeter.CliquesMember.id c :: others in
    Ok (c, Some (Greeter.CliquesMessage.mk (Greeter.CliquesMember.id c)
                   (next_dest (Greeter.CliquesMember.id c) members)
                   (js "ika") (js "up") (Some members) (Some [])));
  Greeter.cliques_upflow c m _ :=
    let members := default [] (Greeter.CliquesMessage.members m) in
    Ok (c, Some (Greeter.CliquesMessage.mk (Greeter.CliquesMember.id c)
                   (next_dest (Greeter.CliquesMember.id c) members)
                   (Greeter.CliquesMessage.agreement m) (js "up")
                   (Some members) (Greeter.CliquesMessage.intKeys m)));
  Greeter.cliques_downflow c _ := Ok c;
  Greeter.cliques_akaJoin c _ _ := Ok (c, None);
  Greeter.cliques_akaExclude c _ _ := Ok (c, None);
  Greeter.cliques_akaRefresh c _ := Ok (c, None);
  Greeter.cliques_akaQuit c := Ok c;
  Greeter.aske_downflow a _ := Ok (a, None);
  Greeter.aske_join a _ _ := Ok (a, None);
  Greeter.aske_exclude a _ := Ok (a, None);
  Greeter.aske_quit a :=
    Ok (a, Some (Ske.SignatureKeyExchangeMessage.mk
                   (Ske.SignatureKeyExchangeMember.id a) [] (js "down")
                   (Some []) (Some []) (Some []) None
                   (Ske.SignatureKeyExchangeMember.ephemeralPrivKey a)));
  Greeter.aske_isSessionAcknowledged _ := false;
|}.

Definition entropy : Entropy := fun i => repeat (Z.of_nat i + 1) 4.

Definition cliquesMember (id : jsstring) : Greeter.CliquesMember.t :=
  Greeter.CliquesMember.mk id [] None [] [].

(** A Greeting of member [id] in a given state. *)
Definition greeting (id : jsstring) (state : Greeter.STATE.t)
  : Greeter.Greeting.t :=
  Greeter.Greeting.mk _ id state (cliquesMember id)
    (Ske.SignatureKeyExchangeMember_new id) None None None None None.

(** A READY Greeting of member "1" in a session with member "2". *)
Definition ready_greeting : Greeter.Greeting.t :=
  Greeter.Greeting.mk _ (js "1") Greeter.STATE.READY
    (Greeter.CliquesMember.mk (js "1") [js "1"; js "2"]
       (Some (js "groupkey")) [js "x1"] [js "k1"; js "k2"])
    (Ske.SignatureKeyExchangeMember.mk _ (js "1") [js "1"; js "2"]
       (Some (js "priv1")) (Some (js "pub1")) (Some (js "n1"))
       (Some [js "n1"; js "n2"]) (Some [js "pub1"; js "pub2"])
       (Some (js "sid")) None None [js "1"; js "2"])
    None (Some (js "sid")) (Some [js "1"; js "2"])
    (Some [js "pub1"; js "pub2"]) (Some (js "groupkey")).

(** Messages for the examples of [_setBit]. *)
Definition greetMessage (t : jsstring) : Greeter.GreetMessage.t :=
  Greeter.GreetMessage.set_greetType (Some t) Greeter.GreetMessage_new.

Definition protocolMessage (t : jsstring) : Codec.ProtocolMessage :=
  Codec.mkProtocolMessage [] [] (Some t) None [] [] [] [] [] None None None
    false None None None.

(** The session store of member "1" with member "2", with a group key of
    [n] bytes 1, 2, ..., [n]. *)
Definition privKey : jsstring := js "ephemeral-private-key-of-1".

Definition store (n : nat) : Message.GreetStore.t :=
  Message.GreetStore.mk (js "1") [js "1"; js "2"] (js "session-id")
    privKey (eddsa_publickey privKey) (map Z.of_nat (seq 1 n))
    (<[js "1" := eddsa_publickey privKey]>
       (<[js "2" := js "ephemeral-public-key-of-2"]> ∅)).

Definition security (n : nat) (paddingSize : Z) : Message.MessageSecurity.t :=
  Message.MessageSecurity.mk (store n) paddingSize.

(** A message of member "1" to member "2". *)
Definition message (parents : list jsstring) (body : jsstring)
  : Message.PendingMessage.t :=
  Message.PendingMessage.mk (js "1") (Some parents) [js "2"] body.

Definition nonce : jsstring := map Z.of_nat (seq 101 12).

(** A message among members "1" and "3", addressed to "9" and with "2" as
    its source. *)
Definition outsider_message : Greeter.GreetMessage.t :=
  Greeter.GreetMessage.mk (js "2") (js "9")
    (Some Greeter.GREET_TYPE.INIT_PARTICIPANT_UP) None
    (Some [js "1"; js "3"]) (Some []) (Some []) (Some []) None None
    None false None None None.

(** A body of characters of one, two and three bytes and a surrogate pair,
    and its UTF-8 form. *)
Definition sample_body : jsstring := [0x68; 0xE9; 0x20AC; 0xD83D; 0xDE00].
Definition sample_body_utf8 : jsstring :=
  [0x68; 0xC3; 0xA9; 0xE2; 0x82; 0xAC; 0xF0; 0x9F; 0x98; 0x80].

(** An upflow message from member "1" to member "2" of the members "1", "2"
    and "3" that carries a signing key, and the message that member "2"
    passes on to member "3". *)
Definition upflow_with_key : Greeter.GreetMessage.t :=
  Greeter.GreetMessage.mk (js "1") (js "2")
    (Some Greeter.GREET_TYPE.INIT_INITIATOR_UP) None
    (Some [js "1"; js "2"; js "3"]) (Some [js "k0"; js "k1"])
    (Some [js "n1"]) (Some [js "p1"]) None (Some (js "leaked")) None false
    None None None.

Definition greeting_after_upflow : Greeter.Greeting.t :=
  Greeter.Greeting.mk _ (js "2") Greeter.STATE.NULL (cliquesMember (js "2"))
    (Ske.SignatureKeyExchangeMember.mk _ (js "2") [js "1"; js "2"; js "3"]
       (Some (entropy 1%nat)) (Some (eddsa_publickey (entropy 1%nat)))
       (Some (entropy 0%nat)) (Some [js "n1"; entropy 0%nat])
       (Some [js "p1"; eddsa_publickey (entropy 1%nat)]) None None None [])
    None None None None None.

Definition forwarded_with_key : Greeter.GreetMessage.t :=
  Greeter.GreetMessage.mk (js "2") (js "3")
    (Some Greeter.GREET_TYPE.INIT_PARTICIPANT_UP) None
    (Some [js "1"; js "2"; js "3"]) (Some [js "k0"; js "k1"])
    (Some [js "n1"; entropy 0%nat]) (Some [js "p1"; eddsa_publickey (entropy 1%nat)])
    None (Some (js "leaked")) None false None None None.

(** A first message on the way up whose member list names member "2"
    twice. *)
Definition upflow_with_duplicates : Greeter.GreetMessage.t :=
  Greeter.GreetMessage.mk (js "1") (js "2")
    (Some Greeter.GREET_TYPE.INIT_INITIATOR_UP) None
    (Some [js "1"; js "2"; js "2"]) (Some [js "k0"; js "k1"])
    (Some [js "n1"]) (Some [js "p1"]) None None None false None None None.

(** The packet of the message of member "1" with body [sample_body], and
    what [decryptVerify] makes of it. *)
Definition sample_pubtxt : jsstring :=
  Eval vm_compute in
  match Message.authEncrypt (security 16 16)
          (message [js "p1"] sample_body) nonce with
  | Ok enc => Message.AuthEncrypted.pubtxt enc
  | Throw _ => []
  end.

Definition sample_decrypted : Message.Decrypted.t :=
  Message.Decrypted.mk
    (Message.Secrets.mk
       [102; 113; 105; 102; 110; 102; 115; 98; 109; 46; 113; 115; 106; 119;
        98; 117; 102; 46; 108; 102])
    (Message.PendingMessage.mk (js "1") (Some [js "p1"]) [js "2"]
       sample_body).

(** Three members of a key exchange; the last one has a static key. *)
Definition askeMember (id : jsstring) (staticPrivKey : option jsstring)
  : Greeter.AskeMember :=
  Ske.SignatureKeyExchangeMember.mk _ id [] None None None None None None
    staticPrivKey None [].

Definition other_members : list (Greeter.AskeMember * Entropy) :=
  [(askeMember (js "2") None, fun i => js "b" ++ entropy i);
   (askeMember (js "3") (Some (js "rsa3")), fun i => js "c" ++ entropy i)].

(** The outcome of [quit] on the READY Greeting, and of [start] on a new
    one. *)
Definition quit_result : Greeter.Greeting.t * option Greeter.GreetMessage.t :=
  Eval vm_compute in
  match Greeter.quit ready_greeting with
  | Ok x => x
  | Throw _ => (ready_greeting, None)
  end.

Definition start_result
  : Greeter.Greeting.t * option Greeter.GreetMessage.t :=
  Eval vm_compute in
  match Greeter.start (greeting (js "1") Greeter.STATE.NULL)
          [js "2"; js "3"] entropy entropy with
  | Ok x => x
  | Throw _ => (ready_greeting, None)
  end.

(** A first greet message with metadata, from member "1", whose public
    key is the one of [privKey]. *)
Definition sample_greet : Greeter.GreetMessage.t :=
  Greeter.GreetMessage.mk (js "1") (js "2")
    (Some Greeter.GREET_TYPE.INIT_INITIATOR_UP) None
    (Some [js "1"; js "2"; js "3"]) (Some [js "k1"]) (Some [js "n1"])
    (Some [eddsa_publickey privKey]) None (Some []) None false None None
    (Some (Greeter.GreetingMetadata.mk (js "pf") (js "ch") (js "1")
             [js "m1"; js "m2"])).

Definition sample_greet_encoded : jsstring :=
  Eval vm_compute in
  Greeter.encodeGreetMessage sample_greet privKey (eddsa_publickey privKey).

Definition sample_greet_decoded : Greeter.GreetMessage.t :=
  Eval vm_compute in
  match GreetDecode.decodeGreetMessage sample_greet_encoded None with
  | Ok m => m
  | Throw _ => sample_greet
  end.

End Toy.

(** * Notions used in the statements *)

(** The number that [_setBit] computes from the bit and the value. *)
Definition setBit_number (t : jsstring) (bit : Z) (b : bool) : Z :=
  if b then js_or (GreetType.greetTypeToNumber t) (js_shl 1 bit)
  else js_and (GreetType.greetTypeToNumber t) (0xffff - js_shl 1 bit).

(** The padded size: the least power-of-two multiple of [P] that holds
    [L] bytes. *)
Definition padded_size (P L : Z) : Z :=
  P * 2 ^ Z.log2_up (Message.ceil_div L P).

(** The mapping that the first loop of [_computeSid] builds from paired
    lists. *)
Definition insert_pairs (ps : list (jsstring * jsstring))
    (m : gmap jsstring (option jsstring)) : gmap jsstring (option jsstring) :=
  foldl (fun m p => Ske.mapping_set m p.1 (Some p.2)) m ps.

(** The SIGNING_KEY record of a packet, if the packet has one, and the
    packet without its signing key. *)
Definition signingKeyRecord (packet : Greeter.GreetMessage.t)
  : list (Z * jsstring) :=
  match Greeter.str_or_null (Greeter.GreetMessage.signingKey packet) with
  | Some v => [(Codec.TLV_TYPE.SIGNING_KEY, v)]
  | None => []
  end.

Definition without_signingKey (m : Greeter.GreetMessage.t)
  : Greeter.GreetMessage.t :=
  let 'Greeter.GreetMessage.mk source dest greetType sidkeyHint members
         intKeys nonces pubKeys sessionSignature _ signature signatureOk
         rawMessage data metadata := m in
  Greeter.GreetMessage.mk source dest greetType sidkeyHint members intKeys
    nonces pubKeys sessionSignature None signature signatureOk rawMessage
    data metadata.

(** The members after the initiator take the message in turn: each runs
    [upflow] on the message that the one before returned, with draws of
    its own. *)
Fixpoint pass_upflow `{Primitives}
    (ms : list (Greeter.AskeMember * Entropy))
    (message : Greeter.AskeMessage)
  : result (list Greeter.AskeMember * Greeter.AskeMessage) :=
  match ms with
  | [] => Ok ([], message)
  | (m, rnd) :: ms =>
      '(m', message) ← Ske.upflow m message rnd;
      '(ms', out) ← pass_upflow ms message;
      Ok (m' :: ms', out)
  end.

(** The member list of a message names other members but not the one
    that receives it. *)
Definition left_out `{Primitives} (g : Greeter.Greeting.t)
    (m : Greeter.GreetMessage.t) : Prop :=
  exists l, Greeter.GreetMessage.members m = Some l /\ l <> []
            /\ Greeter.Greeting.id g ∉ l.

(** A record whose type and length fit their sixteen-bit fields. *)
Definition record_fits (r : Z * jsstring) : Prop :=
  0 <= r.1 < 65536 /\ Z.of_nat (length r.2) < 65536.

(** The record types of the metadata are sixteen-bit numbers different
    from 0 and from the types of the records around them. *)
Definition metadata_types_apart `{CodecConstants} : Prop :=
  Forall (fun t =>
            0 < t < 65536
            /\ t ∉ [Codec.TLV_TYPE.MEMBER; Codec.TLV_TYPE.INT_KEY;
                    Codec.TLV_TYPE.NONCE; Codec.TLV_TYPE.PUB_KEY;
                    Codec.TLV_TYPE.SESSION_SIGNATURE;
                    Codec.TLV_TYPE.SIGNING_KEY])
    [TLV_PREV_PF; TLV_CHAIN_HASH; TLV_LATEST_PM].

(** An optional record, written only for a non-empty value, and the
    records of the metadata. *)
Definition one_record (ty : Z) (v : option jsstring)
  : list (Z * jsstring) :=
  match Greeter.str_or_null v with Some x => [(ty, x)] | None => [] end.

Definition metadata_records `{CodecConstants}
    (md : option Greeter.GreetingMetadata.t) : list (Z * jsstring) :=
  match md with
  | Some md =>
      (TLV_PREV_PF, Greeter.GreetingMetadata.prevPf md)
      :: (TLV_CHAIN_HASH, Greeter.GreetingMetadata.prevCh md)
      :: map (fun v => (TLV_LATEST_PM, v))
           (Greeter.GreetingMetadata.parents md)
  | None => []
  end.

(** The metadata as [_decode] rebuilds it: the author is the source of
    the message. *)
Definition decoded_metadata `{Struct} (source : jsstring)
    (md : Greeter.GreetingMetadata.t) : Greeter.GreetingMetadata.t :=
  Greeter.GreetingMetadata.mk (Greeter.GreetingMetadata.prevPf md)
    (Greeter.GreetingMetadata.prevCh md) source
    (ImmutableSet_toArray (Greeter.GreetingMetadata.parents md)).

(** The fields whose values [_decode] passes to [btoa]. *)
Definition debug_fields (m : Greeter.GreetMessage.t) : list jsstring :=
  default [] (Greeter.GreetMessage.intKeys m)
  ++ default [] (Greeter.GreetMessage.nonces m)
  ++ default [] (Greeter.GreetMessage.pubKeys m)
  ++ option_list (Greeter.GreetMessage.sessionSignature m)
  ++ option_list (Greeter.GreetMessage.signingKey m).

(** The message that decoding gives for the encoding of [m] with
    signature [sig] over the payload [raw]. *)
Definition decoded `{Struct} (m : Greeter.GreetMessage.t)
    (sig raw : jsstring) (ok : bool) : Greeter.GreetMessage.t :=
  Greeter.GreetMessage.mk (Greeter.GreetMessage.source m)
    (Greeter.GreetMessage.dest m)
    (Some (default [] (Greeter.GreetMessage.greetType m)))
    None
    (Some (default [] (Greeter.GreetMessage.members m)))
    (Some (default [] (Greeter.GreetMessage.intKeys m)))
    (Some (default [] (Greeter.GreetMessage.nonces m)))
    (Some (default [] (Greeter.GreetMessage.pubKeys m)))
    (Greeter.str_or_null (Greeter.GreetMessage.sessionSignature m))
    (Greeter.str_or_null (Greeter.GreetMessage.signingKey m))
    (Some sig) ok (Some raw) None
    (decoded_metadata (Greeter.GreetMessage.source m)
       <$> Greeter.GreetMessage.metadata m).

(** * Properties *)

(** ** Greet types: [_setBit] *)

Section setBit.
Import GreetType.

Lemma _setBit_cases table t bit b nc :
  GreetType._setBit table (Some t) bit (VBool b) nc
  = let t' := greetTypeFromNumber (setBit_number t bit b) in
    if known table t' then Ok t'
    else if is_true_or_1 nc then Ok t' else Throw "Illegal message type!".
Proof.
  unfold GreetType._setBit, setBit_number.
  destruct b; cbn [is_true_or_1 is_false_or_0 mbind result_bind];
    destruct (known table _); cbn [negb]; destruct (is_true_or_1 nc);
    reflexivity.
Qed.

End setBit.

Example clearInitiator_INIT_INITIATOR_UP :
  Greeter.clearInitiator
    (Toy.greetMessage Greeter.GREET_TYPE.INIT_INITIATOR_UP) VUndef
  = (Ok tt,
     Toy.greetMessage Greeter.GREET_TYPE.INIT_PARTICIPANT_UP).
Proof. reflexivity. Qed.

Example setDownflow_INIT_INITIATOR_UP_rejected :
  Greeter.setDownflow
    (Toy.greetMessage Greeter.GREET_TYPE.INIT_INITIATOR_UP) VUndef
  = (Throw "Illegal message type!",
     Toy.greetMessage Greeter.GREET_TYPE.INIT_INITIATOR_UP).
Proof. reflexivity. Qed.

Example setDownflow_INIT_INITIATOR_UP_overridden :
  Greeter.setDownflow
    (Toy.greetMessage Greeter.GREET_TYPE.INIT_INITIATOR_UP) (VBool true)
  = (Ok tt,
     Toy.greetMessage [0x00; 0x9e]).
Proof. reflexivity. Qed.

(** Bit 16 lies outside the two code units: setting it gives a first unit
    of 0x100. *)
Example setBit_16 :
  GreetType._setBit Greeter.GREET_TYPE_MAPPING
    (Some Greeter.GREET_TYPE.QUIT_DOWN) 16 (VBool true) (VBool true)
  = Ok [0x100; 0xd3].
Proof. reflexivity. Qed.

(** C4. A [_setBit] call without the override flag, on a message that holds
    a greet type (in particular an enumerated one), either stores a greet
    type that is enumerated or raises "Illegal message type!" and leaves
    the message as it was; with the override flag the computed greet type
    is stored, whatever it is.  This holds for [GreetMessage] of
    [greeter.js] and for [ProtocolMessage] of [codec.js], for every bit and
    both boolean values. *)
Theorem setBit_enumerated_or_rejected :
  forall (bit : Z) (b : bool) (nc : jsval)
         (gm : Greeter.GreetMessage.t) (tg : jsstring)
         (pm : Codec.ProtocolMessage) (tc : jsstring),
    Greeter.GreetMessage.greetType gm = Some tg ->
    GreetType.known Greeter.GREET_TYPE_MAPPING tg = true ->
    Codec.greetType pm = Some tc ->
    GreetType.known Codec.GREET_TYPE_MAPPING tc = true ->
    (is_true_or_1 nc = false ->
       (match Greeter._setBit gm bit (VBool b) nc with
        | (Ok _, gm') =>
            exists t', GreetType.known Greeter.GREET_TYPE_MAPPING t' = true
                       /\ gm' = Greeter.GreetMessage.set_greetType (Some t') gm
        | (Throw e, gm') => e = "Illegal message type!"%string /\ gm' = gm
        end)
       /\
       (match Codec._setBit pm bit (VBool b) nc with
        | (Ok _, pm') =>
            exists t', GreetType.known Codec.GREET_TYPE_MAPPING t' = true
                       /\ pm' = Codec.set_greetType t' pm
        | (Throw e, pm') => e = "Illegal message type!"%string /\ pm' = pm
        end))
    /\
    (is_true_or_1 nc = true ->
       Greeter._setBit gm bit (VBool b) nc
       = (Ok tt,
          Greeter.GreetMessage.set_greetType
            (Some (GreetType.greetTypeFromNumber (setBit_number tg bit b))) gm)
       /\
       Codec._setBit pm bit (VBool b) nc
       = (Ok tt,
          Codec.set_greetType
            (GreetType.greetTypeFromNumber (setBit_number tc bit b)) pm)).
Proof.
  intros bit b nc gm tg pm tc Hg _ Hc _.
  unfold Greeter._setBit, Codec._setBit. rewrite Hg, Hc, !_setBit_cases.
  cbv zeta. split; intros Hnc; rewrite Hnc.
  - split.
    + destruct (GreetType.known Greeter.GREET_TYPE_MAPPING _) eqn:E; eauto.
    + destruct (GreetType.known Codec.GREET_TYPE_MAPPING _) eqn:E; eauto.
  - split.
    + destruct (GreetType.known Greeter.GREET_TYPE_MAPPING _); reflexivity.
    + destruct (GreetType.known Codec.GREET_TYPE_MAPPING _); reflexivity.
Qed.

Lemma setBit_enumerated_or_rejected_witness :
  Greeter.GreetMessage.greetType
    (Toy.greetMessage Greeter.GREET_TYPE.INIT_INITIATOR_UP)
  = Some Greeter.GREET_TYPE.INIT_INITIATOR_UP
  /\ GreetType.known Greeter.GREET_TYPE_MAPPING
       Greeter.GREET_TYPE.INIT_INITIATOR_UP = true
  /\ Codec.greetType (Toy.protocolMessage Codec.GREET_TYPE.QUIT_DOWN)
     = Some Codec.GREET_TYPE.QUIT_DOWN
  /\ GreetType.known Codec.GREET_TYPE_MAPPING Codec.GREET_TYPE.QUIT_DOWN = true
  /\ Greeter._setBit (Toy.greetMessage Greeter.GREET_TYPE.INIT_INITIATOR_UP)
       GreetType._DOWN_BIT (VBool true) (VBool true)
     = (Ok tt, Toy.greetMessage [0x00; 0x9e])
  /\ Codec._setBit (Toy.protocolMessage Codec.GREET_TYPE.QUIT_DOWN)
       GreetType._DOWN_BIT (VBool true) (VBool true)
     = (Ok tt, Toy.protocolMessage Codec.GREET_TYPE.QUIT_DOWN).
Proof.
  do 4 (split; [reflexivity|]).
  destruct (setBit_enumerated_or_rejected GreetType._DOWN_BIT true (VBool true)
              (Toy.greetMessage Greeter.GREET_TYPE.INIT_INITIATOR_UP)
              Greeter.GREET_TYPE.INIT_INITIATOR_UP
              (Toy.protocolMessage Codec.GREET_TYPE.QUIT_DOWN)
              Codec.GREET_TYPE.QUIT_DOWN
              eq_refl eq_refl eq_refl eq_refl) as [_ H].
  destruct (H eq_refl) as [H1 H2]. split; [exact H1 | exact H2].
Defined.

(** ** The result of a Greeting: [getResultState] *)

Section getResultState.
Context `{Primitives}.
Import Greeter Greeter.Greeting.

(** The constructor gives the snapshot of the claim when it is called with
    its own eleven parameters. *)
Lemma GreetStore_new_ready (members pubKeys nonces privKeyList intKeys : list jsstring)
    (sid priv pub nonce gk : jsstring) :
  length members = length pubKeys ->
  sid <> [] -> priv <> [] -> pub <> [] -> nonce <> [] -> gk <> [] ->
  exists map,
    GreetStore_new
      [VNum (STATE.code STATE.READY); VArr members; VStr sid; VStr priv;
       VStr pub; VStr nonce; VArr pubKeys; VArr nonces; VStr gk;
       VArr privKeyList; VArr intKeys]
    = Ok (GreetStore.mk (VNum (STATE.code STATE.READY)) (VArr members)
            (VStr sid) (VStr priv) (VStr pub) (VStr nonce) (VArr pubKeys)
            (VArr nonces) (VStr gk) (VArr privKeyList) (VArr intKeys) map).
Proof.
  intros Hlen Hs Hp Hq Hn Hg. eexists. unfold GreetStore_new.
  cbn [nth js_oror truthy clone strict_eq STATE.code Z.eqb negb orb
       _assert mbind result_bind js_length].
  rewrite Hlen, Z.eqb_refl. cbn [_assert mbind result_bind].
  destruct sid, priv, pub, nonce, gk; try congruence. reflexivity.
Qed.

(** C1 (the code departs from the claim).  [getResultState] passes
    [this.id] in front of the eleven arguments of [GreetStore], so the
    constructor reads the id as the state and the state as the member
    list, and one of its assertions fails: the call raises in every state,
    READY included, and no store is created. *)
Theorem getResultState_always_raises :
  forall g : Greeting.t, raises (getResultState g).
Proof.
  intros g. unfold getResultState, raises.
  destruct (bool_decide (_opState g = STATE.READY)) eqn:E; cbn [negb];
    [|eauto].
  apply bool_decide_eq_true in E. rewrite E.
  unfold GreetStore_new.
  cbn [nth js_oror truthy clone STATE.code].
  destruct (id g) as [|c s]; cbn [truthy js_oror strict_eq orb].
  - cbn [_assert mbind result_bind Z.eqb negb].
    destruct (Ske.SignatureKeyExchangeMember.nonce (askeMember g))
      as [[|d n]|];
      cbn [opt_str truthy _assert mbind result_bind js_length strict_eq];
      eauto.
  - cbn [_assert mbind result_bind]. eauto.
Qed.

End getResultState.

Example getResultState_ready_greeting :
  Greeter.getResultState Toy.ready_greeting
  = Throw "tried to create a GreetStore on a state other than NULL or READY".
Proof. reflexivity. Qed.

(** ** Inbound greet messages: [_processMessage] *)

Lemma indexOf_None (l : list jsstring) (x : jsstring) :
  Ske.indexOf l x = None <-> x ∉ l.
Proof.
  induction l as [|y l IH]; cbn [Ske.indexOf].
  - split; [intros _; apply not_elem_of_nil | reflexivity].
  - rewrite not_elem_of_cons. case_bool_decide as E.
    + split; [discriminate | intros [? _]; congruence].
    + destruct (Ske.indexOf l x); cbn.
      * split; [discriminate|]. intros [_ Hn]. apply IH in Hn. discriminate.
      * split; [|reflexivity]. intros _. split; [congruence | by apply IH].
Qed.

Lemma indexOf_Some (l : list jsstring) (x : jsstring) (i : nat) :
  Ske.indexOf l x = Some i -> l !! i = Some x.
Proof.
  revert i. induction l as [|y l IH]; intros i; cbn [Ske.indexOf]; [done|].
  case_bool_decide as E.
  - intros [= <-]. by subst.
  - destruct (Ske.indexOf l x) as [j|]; cbn; [|done].
    intros [= <-]. by apply IH.
Qed.

Section processMessage.
Context `{Primitives} `{CodecConstants} `{!Greeter.SubProtocols}.
Import Greeter Greeter.Greeting.

(** C5. While the Greeting is not in state QUIT, a message whose member
    list is not empty and does not contain the local id makes
    [_processMessage] return the transition to QUIT with no message and
    leaves the Greeting as it is, whatever the destination and the source
    of the message; a message that passes this test and is addressed to
    another member, or comes from the local id, makes it return [null]
    with the Greeting unchanged. *)
Theorem processMessage_not_member_quits :
  forall (g : Greeting.t) (m : GreetMessage.t) (rndC rndA : Entropy),
    _opState g <> STATE.QUIT ->
    (forall l, GreetMessage.members m = Some l -> l <> [] -> id g ∉ l ->
       _processMessage g m rndC rndA
       = Ok (g, Some (ProcessResult.mk None (Some STATE.QUIT))))
    /\
    ((forall l, GreetMessage.members m = Some l -> l = [] \/ id g ∈ l) ->
     (GreetMessage.dest m <> [] /\ GreetMessage.dest m <> id g)
     \/ GreetMessage.source m = id g ->
       _processMessage g m rndC rndA = Ok (g, None)).
Proof.
  intros g m rndC rndA Hq. unfold _processMessage.
  rewrite (bool_decide_eq_false_2 _ Hq). cbn [negb]. split.
  - intros l Hl Hne Hnin. rewrite Hl.
    apply indexOf_None in Hnin. rewrite Hnin.
    rewrite bool_decide_eq_true_2 by reflexivity.
    destruct l; [congruence|]. reflexivity.
  - intros Hmem Hdrop.
    assert (match GreetMessage.members m with
            | Some l =>
                (0 <? Z.of_nat (length l))
                && bool_decide (Ske.indexOf l (id g) = None)
            | None => false
            end = false) as ->.
    { destruct (GreetMessage.members m) as [l|] eqn:El; [|reflexivity].
      destruct (Hmem l eq_refl) as [-> | Hin]; [reflexivity|].
      rewrite bool_decide_eq_false_2; [apply andb_false_r|].
      rewrite indexOf_None. tauto. }
    destruct Hdrop as [[Hd1 Hd2] | Hs].
    + rewrite !bool_decide_eq_false_2 by assumption. reflexivity.
    + rewrite (bool_decide_eq_true_2 _ Hs).
      destruct (_ && _); reflexivity.
Qed.

End processMessage.

(** ** Wire framing: Base64 and [tlvToWire] / [wireToTLV] *)

Section base64.
Import Base64.

Lemma list_ind3 (P : list Z -> Prop) :
  P [] -> (forall a, P [a]) -> (forall a b, P [a; b]) ->
  (forall a b c r, P r -> P (a :: b :: c :: r)) ->
  forall l, P l.
Proof.
  intros H0 H1 H2 H3.
  assert (forall l, P l /\ (forall a, P (a :: l)) /\ (forall a b, P (a :: b :: l)))
    as Hall.
  { induction l as [|c l [IH0 [IH1 IH2]]]; [by auto|].
    split; [apply IH1 | split; [intros a; apply IH2 |]].
    intros a b. apply H3, IH0. }
  intros l. apply Hall.
Qed.

Lemma b64_table (i : Z) :
  0 <= i < 64 ->
  b64_index (b64_char i) = Some i
  /\ is_ascii_whitespace (b64_char i) = false
  /\ (b64_char i =? pad) = false.
Proof.
  intros Hi.
  assert (forallb
            (fun i =>
               bool_decide (b64_index (b64_char i) = Some i)
               && negb (is_ascii_whitespace (b64_char i))
               && negb (b64_char i =? pad))
            (map Z.of_nat (seq 0 64)) = true) as Hall
    by (vm_compute; reflexivity).
  rewrite forallb_forall in Hall. specialize (Hall i).
  assert (In i (map Z.of_nat (seq 0 64))) as Hin.
  { apply in_map_iff. exists (Z.to_nat i). split; [lia|].
    apply in_seq. lia. }
  apply Hall in Hin. apply andb_prop in Hin as [Hin H3].
  apply andb_prop in Hin as [H1 H2].
  apply bool_decide_eq_true in H1. apply negb_true_iff in H2, H3. auto.
Qed.

Lemma sextets_range (l : jsstring) :
  bytestring l -> Forall (fun i => 0 <= i < 64) (sextets l).
Proof.
  unfold bytestring, is_byte.
  induction l as [|a|a b|a b c r IH] using list_ind3; intros Hb;
    cbn [sextets]; repeat (apply Forall_cons_1 in Hb as [? Hb]);
    repeat apply Forall_cons_2; try apply Forall_nil_2; auto;
    Z.div_mod_to_equations; lia.
Qed.

Lemma atob_groups_sextets (l : jsstring) :
  bytestring l -> atob_groups (sextets l) = l.
Proof.
  unfold bytestring, is_byte.
  induction l as [|a|a b|a b c r IH] using list_ind3; intros Hb;
    cbn [sextets atob_groups]; repeat (apply Forall_cons_1 in Hb as [? Hb]).
  - reflexivity.
  - f_equal. Z.div_mod_to_equations; lia.
  - f_equal; [|f_equal]; Z.div_mod_to_equations; lia.
  - rewrite IH by assumption.
    f_equal; [|f_equal; [|f_equal]]; Z.div_mod_to_equations; lia.
Qed.

Lemma strip_padding_btoa_groups (l : jsstring) :
  bytestring l -> strip_padding (btoa_groups l) = map b64_char (sextets l).
Proof.
  intros Hb. pose proof (sextets_range l Hb) as Hr. revert Hb Hr.
  induction l as [|a|a b|a b c r IH] using list_ind3; intros Hb Hr;
    cbn [sextets btoa_groups map] in *;
    repeat (apply Forall_cons_1 in Hr as [?%b64_table Hr]);
    repeat (apply Forall_cons_1 in Hb as [? Hb]).
  - reflexivity.
  - cbn [strip_padding]. rewrite Z.eqb_refl. cbn [andb].
    destruct_and!. by repeat match goal with H : (_ =? pad) = false |- _ => rewrite H; clear H end.
  - cbn [strip_padding]. rewrite Z.eqb_refl.
    destruct_and!. by repeat match goal with H : (_ =? pad) = false |- _ => rewrite H; clear H end.
  - specialize (IH Hb Hr). rewrite <- IH.
    destruct_and!.
    destruct r as [|x [|y [|z r]]]; cbn [btoa_groups strip_padding];
      repeat match goal with H : (_ =? pad) = false |- _ => rewrite H; clear H end;
      reflexivity.
Qed.

Lemma btoa_groups_no_whitespace (l : jsstring) :
  bytestring l ->
  Forall (fun c => is_ascii_whitespace c = false) (btoa_groups l).
Proof.
  intros Hb. pose proof (sextets_range l Hb) as Hr. revert Hb Hr.
  induction l as [|a|a b|a b c r IH] using list_ind3; intros Hb Hr;
    cbn [sextets btoa_groups] in *;
    repeat (apply Forall_cons_1 in Hr as [?%b64_table Hr]);
    repeat (apply Forall_cons_1 in Hb as [? Hb]);
    destruct_and?; repeat apply Forall_cons_2; try apply Forall_nil_2;
    auto.
Qed.

Lemma filter_all {A} (P : A -> Prop) `{!forall x, Decision (P x)}
    (l : list A) :
  Forall P l -> filter P l = l.
Proof.
  induction 1 as [|x l Hx _ IH]; [reflexivity|].
  rewrite filter_cons_True by assumption. by rewrite IH.
Qed.

Lemma btoa_groups_length (l : jsstring) :
  exists k : nat, length (btoa_groups l) = (4 * k)%nat.
Proof.
  induction l as [|a|a b|a b c r [k IH]] using list_ind3;
    cbn [btoa_groups length].
  - by exists 0%nat.
  - by exists 1%nat.
  - by exists 1%nat.
  - exists (S k). lia.
Qed.

Lemma sextets_length (l : jsstring) :
  exists k r : nat,
    length (sextets l) = (4 * k + r)%nat /\ (r = 0 \/ r = 2 \/ r = 3)%nat.
Proof.
  induction l as [|a|a b|a b c r (k & r' & IH & Hr)] using list_ind3;
    cbn [sextets length].
  - exists 0%nat, 0%nat. lia.
  - exists 0%nat, 2%nat. lia.
  - exists 0%nat, 3%nat. lia.
  - exists (S k), r'. lia.
Qed.

Lemma mapM_index_char (s : list Z) :
  Forall (fun i => 0 <= i < 64) s ->
  mapM b64_index (map b64_char s) = Some s.
Proof.
  intros Hs. apply mapM_Some. apply Forall2_fmap_l.
  apply Forall_Forall2_diag. eapply Forall_impl; [exact Hs|].
  intros i Hi. by apply b64_table.
Qed.

(** Decoding inverts encoding on binary strings. *)
Lemma atob_btoa (x : jsstring) :
  bytestring x -> exists w, btoa x = Ok w /\ atob w = Ok x.
Proof.
  intros Hb. exists (btoa_groups x). split.
  - unfold btoa.
    assert (forallb (fun c => (0 <=? c) && (c <? 256)) x = true) as ->;
      [|reflexivity].
    apply forallb_forall. intros c Hc.
    assert (is_byte c) as [? ?].
    { eapply Forall_forall in Hb; [exact Hb|]. by apply list_elem_of_In. }
    apply andb_true_intro. split; [apply Z.leb_le | apply Z.ltb_lt]; lia.
  - unfold atob.
    rewrite (filter_all _ _ (btoa_groups_no_whitespace x Hb)).
    destruct (btoa_groups_length x) as [k Hk]. rewrite Hk.
    replace (Z.of_nat (4 * k) mod 4 =? 0) with true
      by (symmetry; apply Z.eqb_eq; Z.div_mod_to_equations; lia).
    rewrite (strip_padding_btoa_groups x Hb), length_map.
    destruct (sextets_length x) as (k' & r & Hl & Hr). rewrite Hl.
    replace (Z.of_nat (4 * k' + r) mod 4 =? 1) with false
      by (symmetry; apply Z.eqb_neq; Z.div_mod_to_equations; lia).
    rewrite (mapM_index_char _ (sextets_range x Hb)).
    by rewrite (atob_groups_sextets x Hb).
Qed.

Lemma btoa_groups_bytes (x : jsstring) :
  bytestring x -> bytestring (btoa_groups x).
Proof.
  intros Hb. pose proof (sextets_range x Hb) as Hr. revert Hb Hr.
  assert (forall i, 0 <= i < 64 -> is_byte (b64_char i)) as Hc.
  { intros i Hi.
    assert (forallb (fun i => (0 <=? b64_char i) && (b64_char i <? 256))
              (map Z.of_nat (seq 0 64)) = true) as Hall
      by (vm_compute; reflexivity).
    rewrite forallb_forall in Hall. specialize (Hall i).
    assert (In i (map Z.of_nat (seq 0 64))) as Hin.
    { apply in_map_iff. exists (Z.to_nat i). split; [lia|].
      apply in_seq. lia. }
    apply Hall, andb_prop in Hin as [H1 H2]. unfold is_byte. lia. }
  assert (is_byte pad) as Hp by (unfold is_byte, pad; lia).
  induction x as [|a|a b|a b c r IH] using list_ind3; intros Hb Hr;
    cbn [sextets btoa_groups] in *;
    repeat (apply Forall_cons_1 in Hr as [?%Hc Hr]);
    repeat (apply Forall_cons_1 in Hb as [? Hb]);
    repeat apply Forall_cons_2; try apply Forall_nil_2; auto.
  by apply IH.
Qed.

End base64.

Lemma slice_to_last_framed (pre mid : jsstring) (c : Z) :
  Codec.slice_to_last (length pre) (pre ++ mid ++ [c]) = mid.
Proof.
  unfold Codec.slice_to_last. rewrite drop_app_length, !length_app.
  cbn [length].
  replace (length pre + (length mid + 1) - 1 - length pre)%nat
    with (length mid) by lia.
  by rewrite take_app_length.
Qed.

(** C9. For every binary string [x], [tlvToWire] produces the frame
    ["?mpENC:" ++ base64 x ++ "."] and [wireToTLV] of that frame is [x]. *)
Theorem wireToTLV_tlvToWire :
  forall x : jsstring,
    bytestring x ->
    exists b64,
      Base64.btoa x = Ok b64
      /\ Codec.tlvToWire x = Ok (js "?mpENC:" ++ b64 ++ js ".")
      /\ Codec.wireToTLV (js "?mpENC:" ++ b64 ++ js ".") = Ok x.
Proof.
  intros x Hb. destruct (atob_btoa x Hb) as (w & Hw & Ha).
  exists w. split; [exact Hw|]. split.
  - unfold Codec.tlvToWire. rewrite Hw. reflexivity.
  - unfold Codec.wireToTLV.
    change (length Codec._PROTOCOL_PREFIX + 1)%nat with (length (js "?mpENC:")).
    change (js ".") with [46].
    by rewrite slice_to_last_framed.
Qed.

(** ** Sixteen-bit fields and TLV records *)

Section tlv.

Lemma ToInt32_small (n : Z) : - 2 ^ 31 <= n < 2 ^ 31 -> ToInt32 n = n.
Proof. intros Hn. unfold ToInt32. rewrite Z.mod_small; lia. Qed.

Lemma js_shl_1 (k : Z) : 0 <= k < 31 -> js_shl 1 k = 2 ^ k.
Proof.
  intros Hk. unfold js_shl, ToUint32.
  rewrite (ToInt32_small 1) by lia.
  rewrite (Z.mod_small k) by lia. rewrite (Z.mod_small k) by lia.
  rewrite Z.shiftl_1_l. apply ToInt32_small.
  assert (2 ^ k <= 2 ^ 30) by (apply Z.pow_le_mono_r; lia). lia.
Qed.

Lemma _short2bin_u16 (n : Z) :
  0 <= n < 65536 -> Codec._short2bin n = [n / 256; n mod 256].
Proof.
  intros Hn. unfold Codec._short2bin, js_sar, js_and, fromCharCode, ToUint16.
  rewrite (ToInt32_small n) by lia. rewrite (ToInt32_small 255) by lia.
  change (ToUint32 8 mod 32) with 8. rewrite Z.shiftr_div_pow2 by lia.
  change 255 with (Z.ones 8). rewrite Z.land_ones by lia.
  change (2 ^ 8) with 256.
  rewrite (Z.mod_small (n / 256)) by (Z.div_mod_to_equations; lia).
  rewrite (Z.mod_small (n mod 256)) by (Z.div_mod_to_equations; lia).
  reflexivity.
Qed.

Lemma _bin2short_bytes (hi lo : Z) (s : jsstring) :
  0 <= hi < 256 -> 0 <= lo < 256 ->
  Codec._bin2short (hi :: lo :: s) = hi * 256 + lo.
Proof.
  intros Hhi Hlo. unfold Codec._bin2short, js_or, js_shl, charCodeAt.
  cbn [nth]. change (ToUint32 8 mod 32) with 8.
  rewrite (ToInt32_small hi) by lia. rewrite (ToInt32_small lo) by lia.
  rewrite Z.shiftl_mul_pow2 by lia. change (2 ^ 8) with 256.
  rewrite !(ToInt32_small (hi * 256)) by lia.
  set (x := Z.lor (hi * 256) lo).
  assert (x / 2 ^ 8 = hi) as Hd.
  { rewrite <- Z.shiftr_div_pow2 by lia. unfold x.
    rewrite Z.shiftr_lor, !Z.shiftr_div_pow2 by lia. change (2 ^ 8) with 256.
    rewrite Z.div_mul by lia. rewrite (Z.div_small lo) by lia.
    apply Z.lor_0_r. }
  assert (x mod 2 ^ 8 = lo) as Hm.
  { rewrite <- Z.land_ones by lia. unfold x.
    rewrite Z.land_lor_distr_l, !Z.land_ones by lia. change (2 ^ 8) with 256.
    rewrite Z.mod_mul by lia. rewrite (Z.mod_small lo) by lia.
    apply Z.lor_0_l. }
  rewrite (Z.div_mod x (2 ^ 8)) by lia. rewrite Hd, Hm. lia.
Qed.

Lemma _bin2short_short2bin (n : Z) (s : jsstring) :
  0 <= n < 65536 -> Codec._bin2short (Codec._short2bin n ++ s) = n.
Proof.
  intros Hn. rewrite _short2bin_u16 by assumption. cbn [app].
  rewrite _bin2short_bytes; Z.div_mod_to_equations; lia.
Qed.

Lemma _short2bin_bytes (n : Z) :
  0 <= n < 65536 -> bytestring (Codec._short2bin n).
Proof.
  intros Hn. rewrite _short2bin_u16 by assumption.
  repeat apply Forall_cons_2; [| |apply Forall_nil_2]; unfold is_byte;
    Z.div_mod_to_equations; lia.
Qed.

Lemma _short2bin_length (n : Z) : length (Codec._short2bin n) = 2%nat.
Proof. reflexivity. Qed.

Lemma encodeTLV_length (ty : Z) (v : jsstring) :
  length (Codec.encodeTLV ty v) = (4 + length v)%nat.
Proof. unfold Codec.encodeTLV. rewrite !length_app. reflexivity. Qed.

Lemma encodeTLV_bytes (ty : Z) (v : jsstring) :
  0 <= ty < 65536 -> Z.of_nat (length v) < 65536 -> bytestring v ->
  bytestring (Codec.encodeTLV ty v).
Proof.
  intros Hty Hlen Hv. unfold Codec.encodeTLV, bytestring.
  rewrite !Forall_app. repeat split; [| |assumption];
    apply _short2bin_bytes; lia.
Qed.

(** Decoding reads back a record whose type and length fit 16 bits. *)
Lemma decodeTLV_encodeTLV (ty : Z) (v rest : jsstring) :
  0 <= ty < 65536 -> Z.of_nat (length v) < 65536 ->
  Codec.decodeTLV (Codec.encodeTLV ty v ++ rest)
  = Ok (Codec.mkTLV ty v rest).
Proof.
  intros Hty Hlen. unfold Codec.decodeTLV, Codec.encodeTLV.
  set (n := Z.of_nat (length v)).
  assert (0 <= n < 65536) as Hn by lia.
  rewrite !_short2bin_u16 by assumption.
  cbn [app substring drop take Nat.sub].
  rewrite !_bin2short_bytes by (Z.div_mod_to_equations; lia).
  replace (ty / 256 * 256 + ty mod 256) with ty
    by (Z.div_mod_to_equations; lia).
  replace (n / 256 * 256 + n mod 256) with n
    by (Z.div_mod_to_equations; lia).
  unfold n. rewrite Nat2Z.id.
  assert (forall a b c d (l : jsstring),
             substring 4 (4 + length v) (a :: b :: c :: d :: l)
             = take (length v) l) as ->.
  { intros. unfold substring.
    replace (4 + length v - 4)%nat with (length v) by lia. reflexivity. }
  rewrite take_app_length, Z.eqb_refl. cbn [_assert mbind result_bind].
  replace (length v + 4)%nat with (S (S (S (S (length v))))) by lia.
  cbn [drop]. by rewrite drop_app_length.
Qed.

Lemma popTLV_encodeTLV (ty : Z) (v rest : jsstring) :
  0 <= ty < 65536 -> Z.of_nat (length v) < 65536 ->
  Codec.popTLV (Codec.encodeTLV ty v ++ rest) ty = Ok (v, rest).
Proof.
  intros Hty Hlen. unfold Codec.popTLV.
  rewrite decodeTLV_encodeTLV by assumption.
  cbn [mbind result_bind Codec.type Codec.value Codec.rest].
  by rewrite Z.eqb_refl.
Qed.

Lemma popTLVMaybe_encodeTLV (ty ty' : Z) (v rest : jsstring) :
  0 <= ty < 65536 -> Z.of_nat (length v) < 65536 ->
  Codec.popTLVMaybe (Codec.encodeTLV ty v ++ rest) ty'
  = if ty =? ty' then Ok (Some v, rest)
    else Ok (None, Codec.encodeTLV ty v ++ rest).
Proof.
  intros Hty Hlen. unfold Codec.popTLVMaybe.
  rewrite decodeTLV_encodeTLV by assumption.
  cbn [mbind result_bind Codec.type Codec.value Codec.rest].
  by destruct (ty =? ty').
Qed.

End tlv.

(** ** Padding and encryption: [_encryptRaw] *)

Section encryptRaw.
Context `{Primitives} `{CodecConstants}.
Import Message.

Lemma ceil_div_spec (a b : Z) :
  0 < b -> a <= b * ceil_div a b < a + b.
Proof. intros Hb. unfold ceil_div. Z.div_mod_to_equations. nia. Qed.

Lemma ceil_div_le (a b c : Z) :
  0 < b -> a <= b * c -> ceil_div a b <= c.
Proof.
  intros Hb Hc. pose proof (ceil_div_spec a b Hb).
  destruct (Z.le_gt_cases (ceil_div a b) c); [assumption|]. nia.
Qed.

Lemma le_pow2_log2_up (q : Z) : 1 <= q -> q <= 2 ^ Z.log2_up q.
Proof.
  intros Hq. destruct (Z.eq_dec q 1) as [-> | Hne]; [reflexivity|].
  apply Z.log2_up_spec. lia.
Qed.

Lemma padded_size_ge (P L : Z) : 0 < P -> 0 < L -> L <= padded_size P L.
Proof.
  intros HP HL. unfold padded_size.
  pose proof (ceil_div_spec L P HP).
  assert (1 <= ceil_div L P) by nia.
  pose proof (le_pow2_log2_up (ceil_div L P)). nia.
Qed.

Lemma padded_size_least (P L j : Z) :
  0 < P -> 0 < L -> 0 <= j -> L <= P * 2 ^ j -> padded_size P L <= P * 2 ^ j.
Proof.
  intros HP HL Hj Hle. unfold padded_size.
  pose proof (ceil_div_spec L P HP).
  assert (1 <= ceil_div L P) by nia.
  assert (ceil_div L P <= 2 ^ j) by (apply ceil_div_le; assumption).
  assert (Z.log2_up (ceil_div L P) <= j)
    by (apply Z.log2_up_le_pow2; lia).
  assert (2 ^ Z.log2_up (ceil_div L P) <= 2 ^ j)
    by (apply Z.pow_le_mono_r; lia).
  nia.
Qed.

Lemma log2_up_bound (P L : Z) :
  0 < P -> 0 < L <= 65536 -> 0 <= Z.log2_up (ceil_div L P) <= 16.
Proof.
  intros HP HL. split; [apply Z.log2_up_nonneg|].
  pose proof (ceil_div_spec L P HP).
  assert (1 <= ceil_div L P) by nia.
  apply Z.log2_up_le_pow2; [lia|].
  apply ceil_div_le; [assumption|]. change (2 ^ 16) with 65536. nia.
Qed.

(** [_encryptRaw] is its call of AES-CTR on the arguments that
    [_encryptRaw_call] computes. *)
Lemma _encryptRaw_call_spec (d key : jsstring) (P : Z) (nonce : jsstring) :
  _encryptRaw d key P nonce
  = call ← _encryptRaw_call d key P nonce;
    Ok (Encrypted.mk
          (AES_CTR_encrypt (AesCall.data call) (AesCall.key call)
             (AesCall.nonce call))
          nonce).
Proof. reflexivity. Qed.

Lemma _encryptRaw_call_too_long (d key : jsstring) (P : Z) (nonce : jsstring) :
  0xffff <= Z.of_nat (length d) ->
  _encryptRaw_call d key P nonce
  = Throw "Message size too large for encryption scheme.".
Proof.
  intros Hd. unfold _encryptRaw_call.
  replace (Z.of_nat (length d) <? 0xffff) with false
    by (symmetry; apply Z.ltb_ge; lia).
  reflexivity.
Qed.

Lemma _encryptRaw_call_unpadded (d key nonce : jsstring) :
  Z.of_nat (length d) < 0xffff ->
  _encryptRaw_call d key 0 nonce
  = Ok (AesCall.mk (Codec._short2bin (Z.of_nat (length d)) ++ d)
          (string2bytes key) (string2bytes (nonce ++ [0; 0; 0; 0]))).
Proof.
  intros Hd. unfold _encryptRaw_call.
  replace (Z.of_nat (length d) <? 0xffff) with true
    by (symmetry; apply Z.ltb_lt; lia).
  reflexivity.
Qed.

Lemma _encryptRaw_call_padded (d key : jsstring) (P : Z) (nonce : jsstring) :
  Z.of_nat (length d) < 0xffff -> 0 < P < 2 ^ 31 ->
  _encryptRaw_call d key P nonce
  = Ok (AesCall.mk
          (Codec._short2bin (Z.of_nat (length d)) ++ d
           ++ repeat 0
                (Z.to_nat (padded_size P (Z.of_nat (length d) + 2)
                           - (Z.of_nat (length d) + 2))))
          (string2bytes key) (string2bytes (nonce ++ [0; 0; 0; 0]))).
Proof.
  intros Hd HP. unfold _encryptRaw_call.
  replace (Z.of_nat (length d) <? 0xffff) with true
    by (symmetry; apply Z.ltb_lt; lia).
  cbn [_assert mbind result_bind].
  rewrite (ToInt32_small P) by lia.
  replace (P =? 0) with false by (symmetry; apply Z.eqb_neq; lia).
  replace (P <? 0) with false by (symmetry; apply Z.ltb_ge; lia).
  cbn [mbind result_bind]. rewrite length_app, _short2bin_length.
  replace (Z.of_nat (2 + length d)) with (Z.of_nat (length d) + 2) by lia.
  set (L := Z.of_nat (length d) + 2).
  pose proof (log2_up_bound P L ltac:(lia) ltac:(unfold L; lia)) as Hk.
  unfold ceil_log2. rewrite js_shl_1 by lia.
  unfold array_join_zeros. fold (padded_size P L).
  replace (padded_size P L + 1 - L - 1) with (padded_size P L - L) by lia.
  by rewrite <- app_assoc.
Qed.

(** C7. For a record stream [d] shorter than 65535 bytes and a padding
    size [0 < P] (a 32-bit integer), the string that [_encryptRaw] hands
    to AES-CTR is the two length bytes, [d], and zero bytes up to
    [P * 2^ceil(log2(ceil((len d + 2) / P)))] bytes in all, which is the
    least power-of-two multiple of [P] that holds the [len d + 2] bytes;
    for [P = 0] it is the two length bytes and [d], with nothing added. *)
Theorem encryptRaw_padding :
  forall (d key nonce : jsstring) (P : Z),
    Z.of_nat (length d) < 0xffff ->
    let L := Z.of_nat (length d) + 2 in
    (0 < P < 2 ^ 31 ->
       let T := P * 2 ^ Z.log2_up ((L + P - 1) / P) in
       exists plain,
         _encryptRaw d key P nonce
         = Ok (Encrypted.mk
                 (AES_CTR_encrypt plain (string2bytes key)
                    (string2bytes (nonce ++ [0; 0; 0; 0])))
                 nonce)
         /\ plain = Codec._short2bin (Z.of_nat (length d)) ++ d
                    ++ repeat 0 (Z.to_nat (T - L))
         /\ Z.of_nat (length plain) = T
         /\ L <= T
         /\ (forall j, 0 <= j -> L <= P * 2 ^ j -> T <= P * 2 ^ j))
    /\
    (P = 0 ->
       _encryptRaw d key P nonce
       = Ok (Encrypted.mk
               (AES_CTR_encrypt
                  (Codec._short2bin (Z.of_nat (length d)) ++ d)
                  (string2bytes key) (string2bytes (nonce ++ [0; 0; 0; 0])))
               nonce)).
Proof.
  intros d key nonce P Hd L. split.
  - intros HP T. fold (ceil_div L P) in T. fold (padded_size P L) in T.
    pose proof (padded_size_ge P L ltac:(lia) ltac:(unfold L; lia)) as Hge.
    eexists. split; [|split; [reflexivity|]].
    + rewrite _encryptRaw_call_spec, _encryptRaw_call_padded by assumption.
      reflexivity.
    + split; [|split; [exact Hge|]].
      * rewrite !length_app, _short2bin_length, repeat_length.
        fold T in Hge. lia.
      * intros j Hj Hle. apply padded_size_least; unfold L in *; lia.
  - intros ->.
    rewrite _encryptRaw_call_spec, _encryptRaw_call_unpadded by assumption.
    reflexivity.
Qed.

End encryptRaw.

Example padded_size_examples :
  Message.ceil_div 31 32 = 1 /\ padded_size 32 31 = 32
  /\ padded_size 32 32 = 32 /\ padded_size 32 33 = 64
  /\ padded_size 32 65 = 128 /\ padded_size 1 65536 = 65536.
Proof. repeat split; reflexivity. Qed.

Lemma encryptRaw_padding_witness :
  Z.of_nat (length (js "Shout, shout, let it all out!")) < 0xffff
  /\ 0 < 32 < 2 ^ 31
  /\ Message._encryptRaw (js "Shout, shout, let it all out!") (js "key") 32
       Toy.nonce
     = Ok (Message.Encrypted.mk
             (AES_CTR_encrypt
                (Codec._short2bin 29 ++ js "Shout, shout, let it all out!"
                 ++ [0])
                (js "key") (Toy.nonce ++ [0; 0; 0; 0]))
             Toy.nonce).
Proof.
  split; [vm_compute; reflexivity|]. split; [lia|].
  destruct (encryptRaw_padding (js "Shout, shout, let it all out!") (js "key")
              Toy.nonce 32 ltac:(vm_compute; reflexivity)) as [Hpad _].
  destruct (Hpad ltac:(lia)) as (plain & Henc & -> & _).
  rewrite Henc. reflexivity.
Defined.

(** ** The length guard and the AES call of [authEncrypt] *)

Section authEncrypt_call.
Context `{Primitives} `{CodecConstants}.
Import Message Message.MessageSecurity.

(** [authEncrypt] reaches AES-CTR through [_encryptRaw] on the arguments
    that [authEncrypt_call] computes, and packs its result. *)
Lemma authEncrypt_unfold (this : MessageSecurity.t)
    (message : PendingMessage.t) (nonce : jsstring) :
  authEncrypt this message nonce
  = call ← authEncrypt_call this message nonce;
    let store := _greetStore this in
    let sidkeyHash :=
      sha256 (GreetStore.sessionId store ++ GreetStore.groupKey store) in
    let content :=
      Codec.ENCODED_VERSION ++ Codec.ENCODED_TYPE_DATA
      ++ Codec.encodeTLV Codec.TLV_TYPE.MESSAGE_IV nonce
      ++ Codec.encodeTLV TLV_MESSAGE_PAYLOAD
           (AES_CTR_encrypt (AesCall.data call) (AesCall.key call)
              (AesCall.nonce call)) in
    let signature :=
      Codec.signMessage Codec.MPENC_DATA_MESSAGE content
        (GreetStore.ephemeralPrivKey store) (GreetStore.ephemeralPubKey store)
        sidkeyHash in
    pubtxt ←
      encodeWirePacket
        (Codec.encodeTLV Codec.TLV_TYPE.SIDKEY_HINT (take 1 sidkeyHash)
         ++ Codec.encodeTLV Codec.TLV_TYPE.MESSAGE_SIGNATURE signature
         ++ content);
    Ok (AuthEncrypted.mk pubtxt (_dummyMessageSecrets signature content)).
Proof.
  unfold authEncrypt, authEncrypt_call.
  destruct (_assert (bool_decide (PendingMessage.author message = _)) _);
    [|reflexivity].
  cbn [mbind result_bind].
  destruct (_assert (bool_decide (_ = _)) _); [|reflexivity].
  cbn [mbind result_bind].
  destruct (rawBody message) as [raw|]; [|reflexivity].
  cbn [mbind result_bind]. rewrite _encryptRaw_call_spec.
  destruct (_encryptRaw_call raw _ _ nonce) as [call|]; [|reflexivity].
  cbv zeta.
  cbn [mbind result_bind Encrypted.iv Encrypted.data bytes2string].
  repeat rewrite <- app_assoc. reflexivity.
Qed.

Lemma authEncrypt_call_inv (this : MessageSecurity.t)
    (message : PendingMessage.t) (nonce : jsstring) (call : AesCall.t) :
  authEncrypt_call this message nonce = Ok call ->
  exists raw,
    rawBody message = Ok raw
    /\ _encryptRaw_call raw (GreetStore.groupKey (_greetStore this))
         (_paddingSize this) nonce = Ok call.
Proof.
  unfold authEncrypt_call.
  destruct (_assert (bool_decide (PendingMessage.author message = _)) _);
    [|discriminate].
  cbn [mbind result_bind].
  destruct (_assert (bool_decide (_ = _)) _); [|discriminate].
  cbn [mbind result_bind].
  destruct (rawBody message) as [raw|]; [|discriminate].
  cbn [mbind result_bind]. eauto.
Qed.

Lemma authEncrypt_call_ok (this : MessageSecurity.t)
    (message : PendingMessage.t) (nonce : jsstring) :
  PendingMessage.author message = GreetStore.id (_greetStore this) ->
  list_to_set (PendingMessage.readers message)
    ∪ {[ GreetStore.id (_greetStore this) ]}
  = (list_to_set (GreetStore.members (_greetStore this)) : gset jsstring) ->
  authEncrypt_call this message nonce
  = raw ← rawBody message;
    _encryptRaw_call raw (GreetStore.groupKey (_greetStore this))
      (_paddingSize this) nonce.
Proof.
  intros Ha Hm. unfold authEncrypt_call.
  rewrite !bool_decide_eq_true_2 by assumption. reflexivity.
Qed.

Lemma _encryptRaw_call_inv (d key : jsstring) (P : Z) (nonce : jsstring)
    (call : AesCall.t) :
  _encryptRaw_call d key P nonce = Ok call ->
  Z.of_nat (length d) < 0xffff
  /\ (exists padding,
        AesCall.data call
        = Codec._short2bin (Z.of_nat (length d)) ++ d ++ padding
        /\ Forall (fun c => c = 0) padding)
  /\ AesCall.key call = string2bytes key
  /\ AesCall.nonce call = string2bytes (nonce ++ [0; 0; 0; 0]).
Proof.
  unfold _encryptRaw_call.
  destruct (Z.ltb_spec (Z.of_nat (length d)) 0xffff) as [Hd|Hd];
    [|discriminate].
  cbn [_assert mbind result_bind].
  destruct (ToInt32 P =? 0).
  - intros [= <-]. cbn [AesCall.data AesCall.key AesCall.nonce].
    split; [assumption|]. split; [|done].
    exists []. by rewrite app_nil_r.
  - destruct (ToInt32 P <? 0); [discriminate|].
    intros [= <-]. cbn [AesCall.data AesCall.key AesCall.nonce].
    split; [assumption|]. split; [|done].
    match goal with
    | |- context [array_join_zeros ?n] => exists (array_join_zeros n)
    end.
    split; [reflexivity|].
    unfold array_join_zeros. apply Forall_forall.
    intros c Hc%list_elem_of_In%repeat_spec. assumption.
Qed.

Lemma authEncrypt_too_long (this : MessageSecurity.t)
    (message : PendingMessage.t) (nonce raw : jsstring) :
  rawBody message = Ok raw ->
  0xffff <= Z.of_nat (length raw) ->
  raises (authEncrypt this message nonce)
  /\ raises (authEncrypt_call this message nonce).
Proof.
  intros Hraw Hlen.
  assert (raises (authEncrypt_call this message nonce)) as [e He].
  { unfold authEncrypt_call, raises.
    destruct (_assert (bool_decide (PendingMessage.author message = _)) _);
      [|eauto].
    cbn [mbind result_bind].
    destruct (_assert (bool_decide (_ = _)) _); [|eauto].
    cbn [mbind result_bind]. rewrite Hraw. cbn [mbind result_bind].
    rewrite _encryptRaw_call_too_long by assumption. eauto. }
  split; [|by exists e].
  exists e. rewrite authEncrypt_unfold, He. reflexivity.
Qed.

(** For a message that passes the checks of the author and the readers, the
    exception is that of the length guard. *)
Lemma authEncrypt_too_long_error (this : MessageSecurity.t)
    (message : PendingMessage.t) (nonce raw : jsstring) :
  PendingMessage.author message = GreetStore.id (_greetStore this) ->
  list_to_set (PendingMessage.readers message)
    ∪ {[ GreetStore.id (_greetStore this) ]}
  = (list_to_set (GreetStore.members (_greetStore this)) : gset jsstring) ->
  rawBody message = Ok raw ->
  0xffff <= Z.of_nat (length raw) ->
  authEncrypt this message nonce
  = Throw "Message size too large for encryption scheme.".
Proof.
  intros Ha Hm Hraw Hlen.
  rewrite authEncrypt_unfold, authEncrypt_call_ok, Hraw by assumption.
  cbn [mbind result_bind].
  rewrite _encryptRaw_call_too_long by assumption. reflexivity.
Qed.

(** C10. When the record stream of a message (its MESSAGE_PARENT records
    and its MESSAGE_BODY record) has 65535 bytes or more, [authEncrypt]
    raises and AES-CTR is not called; when the stream is shorter, every
    call of AES-CTR that [authEncrypt] makes is on a string that starts
    with the two bytes of the exact length of the stream, followed by the
    stream, and these two bytes read back as that length. *)
Theorem authEncrypt_length_guard :
  forall (this : MessageSecurity.t) (message : PendingMessage.t)
         (nonce raw : jsstring),
    rawBody message = Ok raw ->
    (0xffff <= Z.of_nat (length raw) ->
       raises (authEncrypt this message nonce)
       /\ raises (authEncrypt_call this message nonce))
    /\
    (Z.of_nat (length raw) < 0xffff ->
       (forall call,
          authEncrypt_call this message nonce = Ok call ->
          exists padding,
            AesCall.data call
            = Codec._short2bin (Z.of_nat (length raw)) ++ raw ++ padding)
       /\ Codec._bin2short (Codec._short2bin (Z.of_nat (length raw)))
          = Z.of_nat (length raw)
       /\ (PendingMessage.author message = GreetStore.id (_greetStore this) ->
           list_to_set (PendingMessage.readers message)
             ∪ {[ GreetStore.id (_greetStore this) ]}
           = (list_to_set (GreetStore.members (_greetStore this))
              : gset jsstring) ->
           0 <= _paddingSize this < 2 ^ 31 ->
           exists call, authEncrypt_call this message nonce = Ok call)).
Proof.
  intros this message nonce raw Hraw. split.
  - intros Hlen. by apply (authEncrypt_too_long this message nonce raw).
  - intros Hlen. split; [|split].
    + intros call Hcall.
      apply authEncrypt_call_inv in Hcall as (raw' & Hraw' & Hcall).
      rewrite Hraw in Hraw'. injection Hraw' as <-.
      apply _encryptRaw_call_inv in Hcall as (_ & (padding & Hd & _) & _).
      eauto.
    + rewrite <- (app_nil_r (Codec._short2bin _)).
      apply _bin2short_short2bin. lia.
    + intros Ha Hm HP. rewrite authEncrypt_call_ok, Hraw by assumption.
      cbn [mbind result_bind].
      destruct (Z.eq_dec (_paddingSize this) 0) as [-> | Hne].
      * rewrite _encryptRaw_call_unpadded by assumption. eauto.
      * rewrite _encryptRaw_call_padded by lia. eauto.
Qed.

(** The key and the counter block of the AES call are the whole group key
    of the store and the nonce followed by four zero bytes. *)
Lemma authEncrypt_call_key (this : MessageSecurity.t)
    (message : PendingMessage.t) (nonce : jsstring) (call : AesCall.t) :
  authEncrypt_call this message nonce = Ok call ->
  AesCall.key call = string2bytes (GreetStore.groupKey (_greetStore this))
  /\ AesCall.nonce call = string2bytes (nonce ++ [0; 0; 0; 0]).
Proof.
  intros (raw & _ & Hcall)%authEncrypt_call_inv.
  apply _encryptRaw_call_inv in Hcall. tauto.
Qed.

End authEncrypt_call.

Lemma utf8_encode_ascii (s : jsstring) :
  Forall (fun c => 0 <= c < 128) s -> Message.utf8_encode s = Ok s.
Proof.
  induction 1 as [|c s Hc _ IH]; [reflexivity|].
  cbn [Message.utf8_encode]. rewrite IH.
  replace (c <? 128) with true by (symmetry; apply Z.ltb_lt; lia).
  reflexivity.
Qed.

(** A body of 65535 letters [a]. *)
Lemma long_body_stream :
  Message.rawBody (Toy.message [] (repeat 97 (Z.to_nat 65535)))
  = Ok (Codec.encodeTLV TLV_MESSAGE_BODY (repeat 97 (Z.to_nat 65535)))
  /\ 0xffff
     <= Z.of_nat
          (length (Codec.encodeTLV TLV_MESSAGE_BODY
                     (repeat 97 (Z.to_nat 65535)))).
Proof.
  split.
  - unfold Message.rawBody, Toy.message.
    cbn [Message.PendingMessage.parents Message.PendingMessage.body map concat].
    rewrite utf8_encode_ascii; [reflexivity|].
    apply Forall_forall. intros c Hc%list_elem_of_In%repeat_spec. lia.
  - rewrite encodeTLV_length, repeat_length. lia.
Qed.

(** The checks of the author and the readers pass for the messages of
    member "1" to member "2". *)
Lemma toy_message_checks (n : nat) (P : Z) (parents : list jsstring)
    (body : jsstring) :
  Message.PendingMessage.author (Toy.message parents body)
  = Message.GreetStore.id (Message.MessageSecurity._greetStore (Toy.security n P))
  /\ list_to_set (Message.PendingMessage.readers (Toy.message parents body))
       ∪ {[ Message.GreetStore.id (Message.MessageSecurity._greetStore (Toy.security n P)) ]}
     = (list_to_set
          (Message.GreetStore.members
             (Message.MessageSecurity._greetStore (Toy.security n P))) : gset jsstring).
Proof.
  split; [reflexivity|].
  cbn [Toy.message Toy.security Toy.store Message.PendingMessage.readers
       Message.MessageSecurity._greetStore Message.GreetStore.id Message.GreetStore.members].
  set_solver.
Qed.

Lemma authEncrypt_length_guard_witness :
  Message.rawBody (Toy.message [js "p1"] (js "hi"))
  = Ok (Codec.encodeTLV TLV_MESSAGE_PARENT (js "p1")
        ++ Codec.encodeTLV TLV_MESSAGE_BODY (js "hi"))
  /\ Message.authEncrypt_call (Toy.security 16 0)
       (Toy.message [js "p1"] (js "hi")) Toy.nonce
     = Ok (Message.AesCall.mk
             ([0; 12] ++ Codec.encodeTLV TLV_MESSAGE_PARENT (js "p1")
              ++ Codec.encodeTLV TLV_MESSAGE_BODY (js "hi"))
             (Message.GreetStore.groupKey (Toy.store 16))
             (Toy.nonce ++ [0; 0; 0; 0]))
  /\ Codec._bin2short [0; 12] = 12.
Proof.
  split; [reflexivity|]. split; [reflexivity|].
  destruct (authEncrypt_length_guard (Toy.security 16 0)
              (Toy.message [js "p1"] (js "hi")) Toy.nonce _ eq_refl)
    as [_ Hshort].
  destruct (Hshort ltac:(vm_compute; reflexivity)) as (_ & Hprefix & _).
  exact Hprefix.
Defined.

(** C6 (the code departs from the claim).  With a group key of 32 bytes, as
    the key agreement on Curve25519 yields it, the key that [authEncrypt]
    hands to AES-CTR is all 32 bytes of the group key, not its first 16;
    the counter block is the 12-byte nonce followed by four zero bytes. *)
Theorem authEncrypt_key_is_whole_groupKey :
  exists call,
    Message.authEncrypt_call (Toy.security 32 0) (Toy.message [] (js "hi"))
      Toy.nonce = Ok call
    /\ Message.AesCall.key call = Message.GreetStore.groupKey (Toy.store 32)
    /\ length (Message.AesCall.key call) = 32%nat
    /\ Message.AesCall.key call
       <> take 16 (Message.GreetStore.groupKey (Toy.store 32))
    /\ Message.AesCall.nonce call = Toy.nonce ++ [0; 0; 0; 0].
Proof.
  eexists. split; [vm_compute; reflexivity|].
  cbn [Message.AesCall.key Message.AesCall.nonce].
  repeat split; try (vm_compute; reflexivity).
  vm_compute. discriminate.
Qed.

(** Member "2" receives a message among members "1" and "3" that is
    addressed to "9" and claims to come from "2" itself. *)
Lemma processMessage_not_member_quits_witness :
  Greeter.Greeting._opState (Toy.greeting (js "2") Greeter.STATE.INIT_UPFLOW)
  <> Greeter.STATE.QUIT
  /\ Greeter._processMessage
       (Toy.greeting (js "2") Greeter.STATE.INIT_UPFLOW)
       Toy.outsider_message Toy.entropy Toy.entropy
     = Ok (Toy.greeting (js "2") Greeter.STATE.INIT_UPFLOW,
           Some (Greeter.ProcessResult.mk None (Some Greeter.STATE.QUIT))).
Proof.
  split; [discriminate|].
  refine (proj1 (processMessage_not_member_quits
                   (Toy.greeting (js "2") Greeter.STATE.INIT_UPFLOW)
                   Toy.outsider_message Toy.entropy Toy.entropy _)
            [js "1"; js "3"] eq_refl _ _).
  - discriminate.
  - discriminate.
  - apply indexOf_None. reflexivity.
Defined.

Lemma wireToTLV_tlvToWire_witness :
  bytestring [0; 1; 255; 104; 105]
  /\ Codec.tlvToWire [0; 1; 255; 104; 105] = Ok (js "?mpENC:AAH/aGk=.")
  /\ Codec.wireToTLV (js "?mpENC:AAH/aGk=.") = Ok [0; 1; 255; 104; 105].
Proof.
  assert (bytestring [0; 1; 255; 104; 105]) as Hb
    by (repeat constructor; unfold is_byte; lia).
  split; [exact Hb|].
  destruct (wireToTLV_tlvToWire [0; 1; 255; 104; 105] Hb)
    as (b64 & Hb64 & Hwire & Hback).
  injection Hb64 as <-. split; [exact Hwire | exact Hback].
Defined.

(** ** Session ids: [_computeSid] *)

Section computeSid.
Context `{Primitives}.
Import Ske.

Lemma jsstring_leb_refl (a : jsstring) : jsstring_leb a a = true.
Proof.
  induction a as [|x a IH]; [reflexivity|]. cbn [jsstring_leb].
  rewrite Z.eqb_refl, IH. apply orb_true_r.
Qed.

Lemma jsstring_leb_total (a b : jsstring) :
  jsstring_leb a b = true \/ jsstring_leb b a = true.
Proof.
  revert b. induction a as [|x a IH]; intros [|y b]; cbn [jsstring_leb];
    auto.
  destruct (Z.lt_total x y) as [Hlt | [-> | Hgt]].
  - left. apply orb_true_intro. left. by apply Z.ltb_lt.
  - rewrite Z.eqb_refl, !andb_true_l.
    destruct (IH b) as [-> | ->]; [left | right]; apply orb_true_r.
  - right. apply orb_true_intro. left. by apply Z.ltb_lt.
Qed.

Lemma jsstring_leb_cons (x y : Z) (a b : jsstring) :
  jsstring_leb (x :: a) (y :: b) = true <->
  x < y \/ (x = y /\ jsstring_leb a b = true).
Proof.
  cbn [jsstring_leb].
  rewrite orb_true_iff, andb_true_iff, Z.ltb_lt, Z.eqb_eq. tauto.
Qed.

Lemma jsstring_leb_trans (a b c : jsstring) :
  jsstring_leb a b = true -> jsstring_leb b c = true ->
  jsstring_leb a c = true.
Proof.
  revert b c. induction a as [|x a IH]; intros [|y b] [|z c];
    try reflexivity; try discriminate.
  rewrite !jsstring_leb_cons.
  intros [Hxy | [-> Hab]] [Hyz | [-> Hbc]]; try (left; lia).
  right. split; [reflexivity|]. by apply (IH b).
Qed.

Lemma jsstring_leb_antisym (a b : jsstring) :
  jsstring_leb a b = true -> jsstring_leb b a = true -> a = b.
Proof.
  revert b. induction a as [|x a IH]; intros [|y b];
    try reflexivity; try discriminate.
  rewrite !jsstring_leb_cons.
  intros [Hxy | [-> Hab]] [Hyx | [Heq Hba]]; try lia.
  f_equal. by apply IH.
Qed.

Global Instance jsstring_le_total : Total jsstring_le.
Proof. intros a b. apply jsstring_leb_total. Qed.

Global Instance jsstring_le_trans : Transitive jsstring_le.
Proof. intros a b c. apply jsstring_leb_trans. Qed.

Global Instance jsstring_le_antisym : AntiSymm (=) jsstring_le.
Proof. intros a b. apply jsstring_leb_antisym. Qed.

(** Sorting forgets the order of its argument. *)
Lemma sort_Permutation (l l' : list jsstring) : l ≡ₚ l' -> sort l = sort l'.
Proof.
  intros Hp. unfold sort.
  apply (Sorted_unique jsstring_le); try apply Sorted_merge_sort; try apply _.
  by rewrite !merge_sort_Permutation.
Qed.

Lemma _computeSid_mapping_pairs (ps : list (jsstring * jsstring))
    (pre : list jsstring) (m : gmap jsstring (option jsstring)) :
  _computeSid_mapping (length pre) ps.*1 (pre ++ ps.*2) m = insert_pairs ps m.
Proof.
  revert pre m. induction ps as [|[k v] ps IH]; intros pre m; [reflexivity|].
  change (insert_pairs ((k, v) :: ps) m)
    with (insert_pairs ps (mapping_set m k (Some v))).
  cbn [fmap list_fmap fst snd _computeSid_mapping].
  rewrite list_lookup_middle by reflexivity.
  replace (pre ++ v :: ps.*2) with ((pre ++ [v]) ++ ps.*2)
    by (by rewrite <- app_assoc).
  replace (S (length pre)) with (length (pre ++ [v]))
    by (rewrite length_app; cbn; lia).
  apply IH.
Qed.

Lemma mapping_get_set_ne (m : gmap jsstring (option jsstring))
    (k k' : jsstring) (v : option jsstring) :
  k <> k' -> mapping_get (mapping_set m k' v) k = mapping_get m k.
Proof.
  intros Hne. unfold mapping_get, mapping_set.
  repeat case_bool_decide; try reflexivity.
  by rewrite lookup_insert_ne.
Qed.

Lemma mapping_get_set_eq (m : gmap jsstring (option jsstring))
    (k v : jsstring) :
  mapping_get (mapping_set m k (Some v)) k
  = if bool_decide (k = proto) then js "[object Object]" else v.
Proof.
  unfold mapping_get, mapping_set. case_bool_decide; [reflexivity|].
  by rewrite lookup_insert_eq.
Qed.

Lemma insert_pairs_notin (ps : list (jsstring * jsstring))
    (m : gmap jsstring (option jsstring)) (k : jsstring) :
  k ∉ ps.*1 -> mapping_get (insert_pairs ps m) k = mapping_get m k.
Proof.
  revert m. induction ps as [|[k' v] ps IH]; intros m Hk; [reflexivity|].
  cbn [fmap list_fmap fst] in Hk. apply not_elem_of_cons in Hk as [Hne Hk].
  change (insert_pairs ((k', v) :: ps) m)
    with (insert_pairs ps (mapping_set m k' (Some v))).
  rewrite IH by assumption. by apply mapping_get_set_ne.
Qed.

Lemma insert_pairs_in (ps : list (jsstring * jsstring))
    (m : gmap jsstring (option jsstring)) (k v : jsstring) :
  NoDup ps.*1 -> (k, v) ∈ ps ->
  mapping_get (insert_pairs ps m) k
  = if bool_decide (k = proto) then js "[object Object]" else v.
Proof.
  revert m. induction ps as [|[k' v'] ps IH]; intros m Hnd Hin.
  - by apply elem_of_nil in Hin.
  - cbn [fmap list_fmap fst] in Hnd. apply NoDup_cons in Hnd as [Hk' Hnd].
    change (insert_pairs ((k', v') :: ps) m)
      with (insert_pairs ps (mapping_set m k' (Some v'))).
    apply elem_of_cons in Hin as [[= -> ->] | Hin].
    + rewrite insert_pairs_notin by assumption. apply mapping_get_set_eq.
    + by apply IH.
Qed.

Lemma _computeSid_items_ext (l : list jsstring)
    (m1 m2 : gmap jsstring (option jsstring)) (pidItems nonceItems : jsstring) :
  (forall k, k ∈ l -> mapping_get m1 k = mapping_get m2 k) ->
  _computeSid_items l m1 pidItems nonceItems
  = _computeSid_items l m2 pidItems nonceItems.
Proof.
  revert pidItems nonceItems.
  induction l as [|k l IH]; intros pidItems nonceItems Hext; [reflexivity|].
  cbn [_computeSid_items]. rewrite (Hext k) by (apply elem_of_cons; by left).
  apply IH. intros k' Hk'. apply Hext. apply elem_of_cons. by right.
Qed.

Lemma _computeSid_pairs (ps ps' : list (jsstring * jsstring)) :
  NoDup ps.*1 -> ps ≡ₚ ps' ->
  _computeSid ps.*1 ps.*2 = _computeSid ps'.*1 ps'.*2.
Proof.
  intros Hnd Hp. unfold _computeSid.
  assert (ps.*1 ≡ₚ ps'.*1) as Hp1 by (by apply fmap_Permutation).
  assert (NoDup ps'.*1) as Hnd' by (by rewrite <- Hp1).
  rewrite <- (sort_Permutation _ _ Hp1).
  rewrite (_computeSid_mapping_pairs ps [] ∅).
  rewrite (_computeSid_mapping_pairs ps' [] ∅).
  rewrite (_computeSid_items_ext _ (insert_pairs ps ∅) (insert_pairs ps' ∅));
    [reflexivity|].
  intros k Hk. unfold sort in Hk. rewrite merge_sort_Permutation in Hk.
  apply list_elem_of_fmap in Hk as ([k' v] & -> & Hin). cbn [fst].
  rewrite (insert_pairs_in ps ∅ k' v) by assumption.
  rewrite (insert_pairs_in ps' ∅ k' v); [reflexivity|assumption|].
  by rewrite <- Hp.
Qed.

(** C8. For lists [M] of pairwise distinct member ids and [N] of nonces of
    the same length, and any lists [M'], [N'] obtained from them by one
    permutation applied to both, [_computeSid M N] and [_computeSid M' N']
    are equal. *)
Theorem computeSid_permutation :
  forall M N M' N' : list jsstring,
    length M = length N -> length M' = length N' -> NoDup M ->
    zip M N ≡ₚ zip M' N' ->
    _computeSid M N = _computeSid M' N'.
Proof.
  intros M N M' N' Hl Hl' Hnd Hp.
  pose proof (_computeSid_pairs (zip M N) (zip M' N')) as Hs.
  rewrite !fst_zip, !snd_zip in Hs by lia.
  by apply Hs.
Qed.

End computeSid.

Example computeSid_sorted_chain :
  Ske.sort [js "2"; js "10"; js "1"] = [js "1"; js "10"; js "2"]
  /\ Ske._computeSid [js "b"; js "a"] [js "n1"; js "n2"]
     = sha256 (js "ab" ++ js "n2n1")
  /\ Ske._computeSid [js "b"; js "__proto__"] [js "n1"; js "n2"]
     = sha256 (js "__proto__b" ++ js "[object Object]n1").
Proof. repeat split; reflexivity. Qed.

Lemma computeSid_permutation_witness :
  length [js "b"; js "a"; js "c"] = length [js "n1"; js "n2"; js "n3"]
  /\ length [js "c"; js "b"; js "a"] = length [js "n3"; js "n1"; js "n2"]
  /\ NoDup [js "b"; js "a"; js "c"]
  /\ Ske._computeSid [js "b"; js "a"; js "c"] [js "n1"; js "n2"; js "n3"]
     = Ske._computeSid [js "c"; js "b"; js "a"] [js "n3"; js "n1"; js "n2"].
Proof.
  assert (NoDup [js "b"; js "a"; js "c"]) as Hnd
    by (apply (bool_decide_unpack _); vm_compute; exact I).
  do 2 (split; [reflexivity|]). split; [exact Hnd|].
  apply computeSid_permutation; [reflexivity | reflexivity | exact Hnd |].
  exact (Permutation_app_comm [(js "b", js "n1"); (js "a", js "n2")]
           [(js "c", js "n3")]).
Defined.

(** ** The signing key in outbound greet messages *)

(** Case analysis on the first step of a computation that succeeded. *)
Ltac bind_inv H :=
  match type of H with
  | mbind _ ?r = Ok _ =>
      let E := fresh "E" in
      destruct r eqn:E; cbn [mbind result_bind] in H; [|discriminate H]
  end.

Lemma ToInt32_mod256 (y : Z) : ToInt32 y mod 256 = y mod 256.
Proof.
  unfold ToInt32. change (2 ^ 31) with 2147483648.
  change (2 ^ 32) with 4294967296. Z.div_mod_to_equations. lia.
Qed.

Lemma clearInitiator_unit (t : jsstring) :
  0 <= nth 1 (GreetType.greetTypeFromNumber
           (setBit_number t GreetType._INIT_BIT false)) 0 < 128.
Proof.
  unfold setBit_number, GreetType.greetTypeFromNumber. cbn [nth].
  generalize (GreetType.greetTypeToNumber t). intros n.
  change (0xffff - js_shl 1 GreetType._INIT_BIT) with 0xff7f.
  assert (js_and (js_and n 65407) 255 = ToInt32 n mod 128) as ->.
  { unfold js_and at 1. change (ToInt32 255) with (Z.ones 8).
    rewrite Z.land_ones by lia. change (2 ^ 8) with 256.
    rewrite ToInt32_mod256. unfold js_and. change (ToInt32 65407) with 0xff7f.
    change 256 with (2 ^ 8). rewrite <- Z.land_ones by lia.
    rewrite <- Z.land_assoc. change (Z.land 65407 (Z.ones 8)) with (Z.ones 7).
    by rewrite Z.land_ones by lia. }
  unfold fromCharCode, ToUint16. change (2 ^ 16) with 65536.
  pose proof (Z.mod_pos_bound (ToInt32 n) 128 ltac:(lia)).
  rewrite Z.mod_small; lia.
Qed.

Lemma setDownflow_not_quit :
  forallb (fun t =>
    (128 <=? nth 1 t 0)
    || negb (bool_decide
         (GreetType.greetTypeFromNumber
            (setBit_number t GreetType._DOWN_BIT true)
          = Greeter.GREET_TYPE.QUIT_DOWN)))
    Greeter.GREET_TYPE_MAPPING = true.
Proof. vm_compute. reflexivity. Qed.

Lemma known_elem_of (table : list jsstring) (t : jsstring) :
  GreetType.known table t = true -> t ∈ table.
Proof. unfold GreetType.known. apply bool_decide_eq_true_1. Qed.

Tactic Notation "bind_inv_as" hyp(H) "as" simple_intropattern(p)
    "eqn" ident(E) :=
  match type of H with
  | mbind _ ?r = Ok _ =>
      destruct r as [p|] eqn:E; cbn [mbind result_bind] in H;
      [|discriminate H]
  end.

Section signingKey.
Context `{Primitives} `{CodecConstants} `{!Greeter.SubProtocols}.
Import Greeter Greeter.GreetMessage.

Lemma encodeRecords_app (r1 r2 : list (Z * jsstring)) :
  encodeRecords (r1 ++ r2) = encodeRecords r1 ++ encodeRecords r2.
Proof. unfold encodeRecords. by rewrite map_app, concat_app. Qed.

Lemma encodeRecords_many (ty : Z) (l : list jsstring) :
  encodeRecords (map (fun v => (ty, v)) l) = Codec._encodeTlvArray ty l.
Proof.
  unfold encodeRecords, Codec._encodeTlvArray. by rewrite map_map.
Qed.

(** The payload is the signature record, the two standard records and the
    records of [greetRecords]. *)
Lemma encodeGreetMessage_records (m : GreetMessage.t) (privKey pubKey : jsstring) :
  let out := Codec.ENCODED_VERSION ++ Codec.ENCODED_TYPE_GREET
             ++ encodeRecords (greetRecords m) in
  encodeGreetMessage m privKey pubKey
  = Codec.encodeTLV Codec.TLV_TYPE.MESSAGE_SIGNATURE
      (Codec.signMessage Codec.MPENC_GREET_MESSAGE out privKey pubKey [])
    ++ out.
Proof.
  cbv zeta.
  unfold encodeGreetMessage, greetRecords, Codec.encodeTLV_opt.
  rewrite !encodeRecords_app.
  destruct (members m), (intKeys m), (nonces m), (pubKeys m), (metadata m),
    (str_or_null (sessionSignature m)), (str_or_null (signingKey m));
    cbn [default]; rewrite ?encodeRecords_app, ?encodeRecords_many;
    cbn [encodeRecords map concat fst snd Codec._encodeTlvArray];
    rewrite ?app_nil_r; repeat rewrite <- app_assoc; reflexivity.
Qed.

Lemma greetRecords_signingKey (m : GreetMessage.t) :
  greetRecords m = greetRecords (without_signingKey m) ++ signingKeyRecord m.
Proof.
  destruct m. unfold greetRecords, signingKeyRecord, without_signingKey.
  cbn [source dest greetType members intKeys nonces pubKeys metadata
       sessionSignature signingKey str_or_null].
  rewrite !app_assoc, app_nil_r. reflexivity.
Qed.

Lemma _mergeMessages_signingKey (g : Greeting.t)
    (c : option CliquesMessage.t) (a : option AskeMessage) (p : GreetMessage.t) :
  _mergeMessages g c a = Ok (Some p) ->
  signingKey p
  = str_or_null (a ≫= Ske.SignatureKeyExchangeMessage.signingKey).
Proof.
  unfold _mergeMessages. intros Hm.
  destruct c as [c0|], a as [a0|]; try discriminate;
    try bind_inv Hm; try bind_inv E; injection Hm as <-; reflexivity.
Qed.

Lemma assign_greetType_inv (p : option GreetMessage.t) (t : option jsstring)
    (p' : GreetMessage.t) :
  assign_greetType p t = Ok p' ->
  exists p0, p = Some p0 /\ p' = set_greetType t p0.
Proof. destruct p as [p0|]; [|discriminate]. intros [= <-]. eauto. Qed.

Lemma run_setBit_inv (m m' : GreetMessage.t) (bit : Z) (value nc : jsval) :
  run (_setBit m bit value nc) = Ok m' ->
  exists t',
    GreetType._setBit GREET_TYPE_MAPPING (greetType m) bit value nc = Ok t'
    /\ m' = set_greetType (Some t') m.
Proof.
  unfold run, _setBit.
  destruct (GreetType._setBit _ _ _ _ _) as [t'|]; [|discriminate].
  intros [= <-]. eauto.
Qed.

Lemma upflow_signingKey (a a' : AskeMember) (m out : AskeMessage)
    (rnd : Entropy) :
  Ske.upflow a m rnd = Ok (a', out) ->
  Ske.SignatureKeyExchangeMessage.signingKey out
  = Ske.SignatureKeyExchangeMessage.signingKey m.
Proof.
  unfold Ske.upflow. intros Hu.
  destruct (Ske.SignatureKeyExchangeMessage.members m); [|discriminate].
  bind_inv Hu. destruct (Ske.indexOf _ _); [|discriminate].
  destruct (Ske.SignatureKeyExchangeMessage.nonces m); [|discriminate].
  destruct (Ske.SignatureKeyExchangeMessage.pubKeys m); [|discriminate].
  case_bool_decide.
  - bind_inv Hu. by injection Hu as <- <-.
  - by injection Hu as <- <-.
Qed.

Lemma commit_signingKey (a a' : AskeMember) (others : list jsstring)
    (out : AskeMessage) (rnd : Entropy) :
  Ske.commit a others rnd = Ok (a', out) ->
  Ske.SignatureKeyExchangeMessage.signingKey out = None.
Proof.
  unfold Ske.commit. intros Hc. bind_inv Hc.
  by apply upflow_signingKey in Hc.
Qed.

Lemma quit_greetType (g g' : Greeting.t) (packet : GreetMessage.t) :
  quit g = Ok (g', Some packet) ->
  greetType packet = Some GREET_TYPE.QUIT_DOWN.
Proof.
  unfold quit. intros Hq. case_bool_decide; [discriminate|].
  bind_inv Hq. bind_inv Hq.
  destruct (aske_quit _) as [[ak am]|] eqn:Ea; [|discriminate].
  cbn [mbind result_bind] in Hq. bind_inv Hq. bind_inv Hq.
  match goal with
  | Ha : assign_greetType _ _ = Ok _ |- _ =>
      apply assign_greetType_inv in Ha as (p0 & _ & ->)
  end.
  by injection Hq as <- <-.
Qed.

Lemma clearInitiator_not_quit (m m' : GreetMessage.t) :
  run (clearInitiator m VUndef) = Ok m' ->
  exists t, greetType m' = Some t /\ t ∈ GREET_TYPE_MAPPING
            /\ 0 <= nth 1 t 0 < 128 /\ signingKey m' = signingKey m
            /\ dest m' = dest m.
Proof.
  intros Hr. apply run_setBit_inv in Hr as (t' & Hs & ->).
  destruct (greetType m) as [t|] eqn:Et; [|discriminate].
  rewrite _setBit_cases in Hs. cbv zeta in Hs.
  pose proof (clearInitiator_unit t) as Hu.
  remember (GreetType.greetTypeFromNumber _) as t1 eqn:Et1 in Hs, Hu.
  destruct (GreetType.known _ _) eqn:Ek; [|discriminate Hs].
  injection Hs as <-. exists t1. split; [reflexivity|].
  split; [exact (known_elem_of _ _ Ek)|].
  split; [exact Hu | done].
Qed.

Lemma setDownflow_after_clear (m m' : GreetMessage.t) (t : jsstring) :
  greetType m = Some t -> t ∈ GREET_TYPE_MAPPING -> 0 <= nth 1 t 0 < 128 ->
  run (setDownflow m VUndef) = Ok m' ->
  greetType m' <> Some GREET_TYPE.QUIT_DOWN /\ signingKey m' = signingKey m.
Proof.
  intros Et Hin Hlt Hr. apply run_setBit_inv in Hr as (t' & Hs & ->).
  rewrite Et, _setBit_cases in Hs. cbv zeta in Hs.
  split; [|done]. cbn [greetType set_greetType]. intros [= ->].
  pose proof setDownflow_not_quit as Hall.
  rewrite forallb_forall in Hall. apply list_elem_of_In, Hall in Hin.
  apply orb_true_iff in Hin as [Hge|Hne]; [lia|].
  apply negb_true_iff, bool_decide_eq_false in Hne.
  remember (GreetType.greetTypeFromNumber _) as t1 eqn:Et1 in Hs, Hne.
  destruct (GreetType.known _ _); [|discriminate Hs].
  apply Hne. by injection Hs.
Qed.

Lemma processMessage_upflow_signingKey (g g' : Greeting.t)
    (m out : GreetMessage.t) (rndC rndA : Entropy) (r : ProcessResult.t) :
  _processMessage g m rndC rndA = Ok (g', Some r) ->
  isDownflow m = false ->
  ProcessResult.decodedMessage r = Some out ->
  signingKey out = str_or_null (signingKey m)
  /\ greetType out <> Some GREET_TYPE.QUIT_DOWN.
Proof.
  unfold _processMessage. intros Hp Hup Hout.
  case_bool_decide; [discriminate|].
  destruct (match members m with Some _ => _ | None => _ end).
  { cbn [negb] in Hp. injection Hp as <- <-. discriminate. }
  destruct (negb _ && negb _); [discriminate|].
  case_bool_decide; [discriminate|].
  bind_inv Hp. rewrite Hup in Hp.
  match type of Hp with
  | mbind _ ?x = _ => destruct x as [[[g1 om] ns]|] eqn:Ein; [|discriminate Hp]
  end.
  cbn [mbind result_bind] in Hp.
  assert (om = Some out) as ->.
  { destruct (aske_isSessionAcknowledged _); injection Hp as <- <-;
      exact Hout. }
  clear Hp. case_bool_decide; [discriminate Ein|].
  bind_inv_as Ein as [c oc] eqn Ec. bind_inv_as Ein as [a1 oa] eqn Ea.
  bind_inv_as Ein as p0 eqn Em. bind_inv_as Ein as p1 eqn Et.
  bind_inv_as Ein as p2 eqn Ei.
  apply upflow_signingKey in Ea.
  apply assign_greetType_inv in Et as (q & -> & ->).
  apply _mergeMessages_signingKey in Em. cbn [mbind option_bind] in Em.
  apply clearInitiator_not_quit in Ei as (t1 & Et1 & Hin & Hu & Hk & _).
  assert (signingKey p2 = str_or_null (signingKey m)) as Hkey.
  { rewrite Hk. cbn [signingKey set_greetType]. by rewrite Em, Ea. }
  case_bool_decide.
  - bind_inv_as Ein as p3 eqn Ed. injection Ein as _ <- _.
    apply (setDownflow_after_clear _ _ t1 Et1 Hin Hu) in Ed
      as [Hquit Hsame].
    by rewrite Hsame.
  - injection Ein as _ <- _. split; [exact Hkey|].
    rewrite Et1. intros [= ->]. cbn in Hu. lia.
Qed.

Lemma start_signingKey (g g' : Greeting.t) (others : list jsstring)
    (rndC rndA : Entropy) (packet : GreetMessage.t) :
  start g others rndC rndA = Ok (g', Some packet) ->
  signingKey packet = None \/ greetType packet = Some GREET_TYPE.QUIT_DOWN.
Proof.
  unfold start. intros Hs.
  bind_inv_as Hs as u0 eqn Es. bind_inv_as Hs as u1 eqn En.
  bind_inv_as Hs as [c oc] eqn Ec. bind_inv_as Hs as [a1 oa] eqn Ea.
  bind_inv_as Hs as p0 eqn Em. bind_inv_as Hs as p1 eqn Et.
  bind_inv_as Hs as lastMan eqn El.
  destruct lastMan.
  - right. by apply quit_greetType in Hs.
  - left. injection Hs as _ <-.
    apply assign_greetType_inv in Et as (q & -> & ->).
    apply _mergeMessages_signingKey in Em. apply commit_signingKey in Ea.
    cbn [signingKey set_greetType mbind option_bind] in *.
    by rewrite Em, Ea.
Qed.

Lemma refresh_signingKey (g g' : Greeting.t) (rndC : Entropy)
    (packet : GreetMessage.t) :
  refresh g rndC = Ok (g', Some packet) -> signingKey packet = None.
Proof.
  unfold refresh. intros Hs.
  bind_inv_as Hs as u0 eqn Es. bind_inv_as Hs as [c oc] eqn Ec.
  bind_inv_as Hs as p0 eqn Em. bind_inv_as Hs as p1 eqn Et.
  injection Hs as _ <-.
  apply assign_greetType_inv in Et as (q & -> & ->).
  by apply _mergeMessages_signingKey in Em.
Qed.


End signingKey.



(** * Further properties *)

(** ** Stepping through computations *)

Lemma bind_Ok {A B : Type} (f : A -> result B) (x : A) : (Ok x ≫= f) = f x.
Proof. reflexivity. Qed.

Lemma _assert_true (msg : string) : _assert true msg = Ok tt.
Proof. reflexivity. Qed.

Ltac ok_step := rewrite ?_assert_true, bind_Ok; cbv beta iota.

Lemma bind_inv {A B : Type} (m : result A) (f : A -> result B) (y : B) :
  m ≫= f = Ok y -> exists x, m = Ok x /\ f x = Ok y.
Proof. destruct m as [x|e]; [eauto | discriminate]. Qed.

Lemma _assert_inv (b : bool) (msg : string) (u : unit) :
  _assert b msg = Ok u -> b = true.
Proof. by destruct b. Qed.

Lemma if_negb_true {A : Type} (x y : A) : (if negb true then x else y) = y.
Proof. reflexivity. Qed.

Lemma str_or_null_inv (v : option jsstring) (k : jsstring) :
  Greeter.str_or_null v = Some k -> v = Some k /\ k <> [].
Proof. destruct v as [[|c s]|]; try discriminate. by intros [= <-]. Qed.

(** Inversion of the first step of a computation that succeeded. *)
Tactic Notation "bind_split" hyp(H) "as" simple_intropattern(p)
    "eqn" ident(E) :=
  match type of H with
  | mbind _ ?m = Ok _ =>
      destruct m as [p|] eqn:E;
      [rewrite bind_Ok in H; cbv beta iota in H | discriminate H]
  end.

(** The first step of a computation that raised. *)
Lemma bind_Throw {A B : Type} (f : A -> result B) (e : string) :
  (Throw e ≫= f) = Throw e.
Proof. reflexivity. Qed.

Tactic Notation "throw_split" hyp(H) "as" simple_intropattern(p)
    "eqn" ident(E) :=
  match type of H with
  | mbind _ ?m = Throw _ =>
      destruct m as [p|] eqn:E;
      [rewrite bind_Ok in H; cbv beta iota in H
      |rewrite bind_Throw in H; injection H as <-]
  end.

(** ** The UTF-8 protection of the body *)

Section utf8.
Import Message.

Lemma utf8_decode_1 (c : Z) (b s : jsstring) :
  0 <= c < 0x80 -> utf8_decode b = Ok s -> utf8_decode (c :: b) = Ok (c :: s).
Proof.
  intros Hc Hb. cbn [utf8_decode]. rewrite Hb.
  replace ((0 <=? c) && (c <? 128)) with true; [reflexivity|].
  symmetry. apply andb_true_intro. split; [apply Z.leb_le | apply Z.ltb_lt]; lia.
Qed.

Lemma utf8_decode_2 (c : Z) (b s : jsstring) :
  0x80 <= c < 0x800 -> utf8_decode b = Ok s ->
  utf8_decode (0xC0 + c / 64 :: 0x80 + c mod 64 :: b) = Ok (c :: s).
Proof.
  intros Hc Hb. cbn [utf8_decode]. rewrite Hb. unfold is_continuation.
  assert (0xC2 <= 0xC0 + c / 64 <= 0xDF) by (Z.div_mod_to_equations; lia).
  assert (0x80 <= 0x80 + c mod 64 <= 0xBF) by (Z.div_mod_to_equations; lia).
  replace (0xC0 + c / 64 <? 128) with false by (symmetry; apply Z.ltb_ge; lia).
  rewrite andb_false_r.
  replace (0xC2 <=? 0xC0 + c / 64) with true by (symmetry; apply Z.leb_le; lia).
  replace (0xC0 + c / 64 <=? 0xDF) with true by (symmetry; apply Z.leb_le; lia).
  replace (0x80 <=? 0x80 + c mod 64) with true by (symmetry; apply Z.leb_le; lia).
  replace (0x80 + c mod 64 <=? 0xBF) with true by (symmetry; apply Z.leb_le; lia).
  cbn [andb mbind result_bind]. do 2 f_equal. Z.div_mod_to_equations; lia.
Qed.

Ltac zbool :=
  repeat match goal with
  | |- context [?a <=? ?b] =>
      first [ replace (a <=? b) with true by (symmetry; apply Z.leb_le; lia)
            | replace (a <=? b) with false by (symmetry; apply Z.leb_gt; lia) ]
  | |- context [?a <? ?b] =>
      first [ replace (a <? b) with true by (symmetry; apply Z.ltb_lt; lia)
            | replace (a <? b) with false by (symmetry; apply Z.ltb_ge; lia) ]
  end.

Lemma utf8_decode_3 (c : Z) (b s : jsstring) :
  0x800 <= c < 0x10000 -> ~ 0xD800 <= c <= 0xDFFF ->
  utf8_decode b = Ok s ->
  utf8_decode (0xE0 + c / 4096 :: 0x80 + c / 64 mod 64 :: 0x80 + c mod 64 :: b)
  = Ok (c :: s).
Proof.
  intros Hc Hs Hb. cbn [utf8_decode]. rewrite Hb. unfold is_continuation.
  cbv zeta.
  assert (0xE0 <= 0xE0 + c / 4096 <= 0xEF) by (Z.div_mod_to_equations; lia).
  assert (0x80 <= 0x80 + c / 64 mod 64 <= 0xBF)
    by (Z.div_mod_to_equations; lia).
  assert (0x80 <= 0x80 + c mod 64 <= 0xBF) by (Z.div_mod_to_equations; lia).
  replace ((0xE0 + c / 4096 - 0xE0) * 64 + (0x80 + c / 64 mod 64 - 0x80))
    with (c / 64) by (Z.div_mod_to_equations; lia).
  replace (c / 64 * 64 + (0x80 + c mod 64 - 0x80)) with c
    by (Z.div_mod_to_equations; lia).
  set (b0 := 0xE0 + c / 4096) in *. set (b1 := 0x80 + c / 64 mod 64) in *.
  set (b2 := 0x80 + c mod 64) in *.
  zbool. cbn [andb negb mbind result_bind].
  destruct (Z.leb_spec 55296 c); [|reflexivity].
  destruct (Z.leb_spec c 57343); [lia|reflexivity].
Qed.

Lemma utf8_decode_4 (c d : Z) (b s : jsstring) :
  0xD800 <= c <= 0xDBFF -> 0xDC00 <= d <= 0xDFFF ->
  utf8_decode b = Ok s ->
  let cp := 0x10000 + (c - 0xD800) * 1024 + (d - 0xDC00) in
  utf8_decode (0xF0 + cp / 262144 :: 0x80 + cp / 4096 mod 64
                 :: 0x80 + cp / 64 mod 64 :: 0x80 + cp mod 64 :: b)
  = Ok (c :: d :: s).
Proof.
  intros Hc Hd Hb cp. cbn [utf8_decode]. rewrite Hb. unfold is_continuation.
  cbv zeta.
  assert (0x10000 <= cp <= 0x10FFFF) as Hcp by (unfold cp; lia).
  assert (0xF0 <= 0xF0 + cp / 262144 <= 0xF4)
    by (Z.div_mod_to_equations; lia).
  assert (0x80 <= 0x80 + cp / 4096 mod 64 <= 0xBF)
    by (Z.div_mod_to_equations; lia).
  assert (0x80 <= 0x80 + cp / 64 mod 64 <= 0xBF)
    by (Z.div_mod_to_equations; lia).
  assert (0x80 <= 0x80 + cp mod 64 <= 0xBF) by (Z.div_mod_to_equations; lia).
  replace ((0xF0 + cp / 262144 - 0xF0) * 64 + (0x80 + cp / 4096 mod 64 - 0x80))
    with (cp / 4096) by (Z.div_mod_to_equations; lia).
  replace (cp / 4096 * 64 + (0x80 + cp / 64 mod 64 - 0x80)) with (cp / 64)
    by (Z.div_mod_to_equations; lia).
  replace (cp / 64 * 64 + (0x80 + cp mod 64 - 0x80)) with cp
    by (Z.div_mod_to_equations; lia).
  replace (0xD800 + (cp - 0x10000) / 1024) with c
    by (unfold cp; Z.div_mod_to_equations; lia).
  replace (0xDC00 + (cp - 0x10000) mod 1024) with d
    by (unfold cp; Z.div_mod_to_equations; lia).
  set (b0 := 0xF0 + cp / 262144) in *.
  set (b1 := 0x80 + cp / 4096 mod 64) in *.
  set (b2 := 0x80 + cp / 64 mod 64) in *.
  set (b3 := 0x80 + cp mod 64) in *.
  clearbody cp. zbool. reflexivity.
Qed.

Lemma utf8_roundtrip_upto (n : nat) :
  forall s b : jsstring,
    (length s <= n)%nat -> wfstring s -> utf8_encode s = Ok b ->
    utf8_decode b = Ok s /\ bytestring b.
Proof.
  induction n as [|n IH]; intros s b Hn Hw He.
  { destruct s; [|cbn in Hn; lia]. injection He as <-. split; [reflexivity|].
    constructor. }
  destruct s as [|c s]; [injection He as <-; split; [reflexivity|constructor]|].
  apply Forall_cons_1 in Hw as [Hc Hw]. unfold is_unit in Hc.
  cbn [length] in Hn. cbn [utf8_encode] in He.
  destruct (Z.ltb_spec c 0x80).
  { bind_inv_as He as j eqn E. injection He as <-.
    destruct (IH s j ltac:(lia) Hw E) as [Hd Hb]. split.
    - apply utf8_decode_1; [lia | exact Hd].
    - constructor; [unfold is_byte; lia | exact Hb]. }
  destruct (Z.ltb_spec c 0x800).
  { bind_inv_as He as j eqn E. injection He as <-.
    destruct (IH s j ltac:(lia) Hw E) as [Hd Hb]. split.
    - apply utf8_decode_2; [lia | exact Hd].
    - repeat constructor; try exact Hb; Z.div_mod_to_equations; lia. }
  unfold is_high_surrogate, is_low_surrogate in He.
  destruct (Z.leb_spec 0xD800 c), (Z.leb_spec c 0xDBFF);
    cbn [andb] in He.
  - destruct s as [|d s]; [discriminate|].
    apply Forall_cons_1 in Hw as [Hd Hw]. unfold is_unit in Hd.
    cbn [length] in Hn.
    destruct (Z.leb_spec 0xDC00 d), (Z.leb_spec d 0xDFFF);
      cbn [andb] in He; try discriminate.
    cbv zeta in He. bind_inv_as He as j eqn E. injection He as <-.
    destruct (IH s j ltac:(lia) Hw E) as [Hdec Hb]. split.
    + apply utf8_decode_4; [lia | lia | exact Hdec].
    + repeat constructor; try exact Hb; Z.div_mod_to_equations; lia.
  - destruct (Z.leb_spec 0xDC00 c), (Z.leb_spec c 0xDFFF);
      cbn [andb] in He; try discriminate; try lia.
    bind_inv_as He as j eqn E. injection He as <-.
    destruct (IH s j ltac:(lia) Hw E) as [Hdec Hb]. split.
    + apply utf8_decode_3; [lia | lia | exact Hdec].
    + repeat constructor; try exact Hb; Z.div_mod_to_equations; lia.
  - destruct (Z.leb_spec 0xDC00 c), (Z.leb_spec c 0xDFFF);
      cbn [andb] in He; try discriminate; try lia.
    bind_inv_as He as j eqn E. injection He as <-.
    destruct (IH s j ltac:(lia) Hw E) as [Hdec Hb]. split.
    + apply utf8_decode_3; [lia | lia | exact Hdec].
    + repeat constructor; try exact Hb; Z.div_mod_to_equations; lia.
  - lia.
Qed.

Lemma utf8_encode_length_upto (n : nat) :
  forall s b : jsstring,
    (length s <= n)%nat -> utf8_encode s = Ok b ->
    (length s <= length b <= 3 * length s)%nat.
Proof.
  induction n as [|n IH]; intros s b Hn He.
  { destruct s; [|cbn in Hn; lia]. injection He as <-. cbn. lia. }
  destruct s as [|c s]; [injection He as <-; cbn; lia|].
  cbn [length] in Hn. cbn [utf8_encode] in He.
  destruct (c <? 0x80).
  { bind_inv_as He as j eqn E. injection He as <-.
    pose proof (IH s j ltac:(lia) E). cbn [length]. lia. }
  destruct (c <? 0x800).
  { bind_inv_as He as j eqn E. injection He as <-.
    pose proof (IH s j ltac:(lia) E). cbn [length]. lia. }
  destruct (is_high_surrogate c).
  - destruct s as [|d s]; [discriminate|]. cbn [length] in Hn.
    destruct (is_low_surrogate d); [|discriminate].
    cbv zeta in He. bind_inv_as He as j eqn E. injection He as <-.
    pose proof (IH s j ltac:(lia) E). cbn [length]. lia.
  - destruct (is_low_surrogate c); [discriminate|].
    bind_inv_as He as j eqn E. injection He as <-.
    pose proof (IH s j ltac:(lia) E). cbn [length]. lia.
Qed.

Lemma utf8_roundtrip (s b : jsstring) :
  wfstring s -> utf8_encode s = Ok b ->
  utf8_decode b = Ok s /\ bytestring b.
Proof. by apply (utf8_roundtrip_upto (length s)). Qed.

(** X4. The UTF-8 protection of a message body, [unescape(encodeURIComponent(s))]
    undone by [decodeURIComponent(escape(b))]: when the first yields [b] for a
    string [s] of UTF-16 code units, [b] is a byte string of between one and
    three bytes per unit of [s], and the second gives [s] back. *)
Theorem utf8_protection_roundtrip :
  forall s b : jsstring,
    wfstring s -> utf8_encode s = Ok b ->
    utf8_decode b = Ok s /\ bytestring b
    /\ (length s <= length b <= 3 * length s)%nat.
Proof.
  intros s b Hw He. destruct (utf8_roundtrip s b Hw He) as [Hd Hb].
  split; [exact Hd|]. split; [exact Hb|].
  by apply (utf8_encode_length_upto (length s)).
Qed.

End utf8.

(** ** Streams of records *)

Section tlv_streams.

Lemma popTLVAll_loop_records (ty : Z) (ps : list jsstring) (tail : jsstring) :
  0 <= ty < 65536 ->
  Forall (fun p => Z.of_nat (length p) < 65536) ps ->
  Codec.popTLVMaybe tail ty = Ok (None, tail) ->
  forall (fuel : nat) (seen : list jsstring),
    (length ps < fuel)%nat ->
    Codec.popTLVAll_loop fuel (concat (map (Codec.encodeTLV ty) ps) ++ tail)
      ty seen
    = Ok (seen ++ ps, tail).
Proof.
  intros Hty Hps Htail. induction Hps as [|p ps Hp _ IH]; intros fuel seen Hf.
  - destruct fuel as [|fuel]; [cbn in Hf; lia|].
    cbn [map concat app Codec.popTLVAll_loop]. rewrite Htail.
    cbn [mbind result_bind option_list].
    by rewrite bool_decide_eq_true_2.
  - destruct fuel as [|fuel]; [cbn in Hf; lia|].
    cbn [map concat Codec.popTLVAll_loop]. rewrite <- app_assoc.
    rewrite popTLVMaybe_encodeTLV by assumption. rewrite Z.eqb_refl.
    cbn [mbind result_bind option_list].
    rewrite bool_decide_eq_false_2.
    + rewrite IH by (cbn [length] in Hf; lia). by rewrite <- app_assoc.
    + intros Heq. apply (f_equal length) in Heq.
      rewrite (length_app (Codec.encodeTLV ty p)), encodeTLV_length in Heq.
      lia.
Qed.

Lemma records_length (ty : Z) (ps : list jsstring) :
  length (concat (map (Codec.encodeTLV ty) ps))
  = (4 * length ps + length (concat ps))%nat.
Proof.
  induction ps as [|p ps IH]; [reflexivity|].
  cbn [map concat length]. rewrite !length_app, encodeTLV_length, IH. lia.
Qed.

Lemma concat_length_le (ps : list jsstring) :
  Forall (fun p => (length p <= length (concat ps))%nat) ps.
Proof.
  induction ps as [|p ps IH]; constructor.
  - cbn [concat]. rewrite length_app. lia.
  - eapply Forall_impl; [exact IH|]. cbn [concat]. intros q Hq.
    rewrite length_app. lia.
Qed.

Lemma records_bytes (ty : Z) (ps : list jsstring) :
  0 <= ty < 65536 ->
  Forall (fun p => Z.of_nat (length p) < 65536) ps ->
  Forall bytestring ps ->
  bytestring (concat (map (Codec.encodeTLV ty) ps)).
Proof.
  intros Hty Hl Hb. induction Hl as [|p ps Hp _ IH]; [constructor|].
  apply Forall_cons_1 in Hb as [Hbp Hb].
  cbn [map concat]. apply Forall_app. split; [|by apply IH].
  by apply encodeTLV_bytes.
Qed.

Lemma wire_roundtrip (x : jsstring) :
  bytestring x ->
  exists w, Codec.tlvToWire x = Ok w /\ Codec.wireToTLV w = Ok x.
Proof.
  intros Hb. destruct (atob_btoa x Hb) as (w & Hw & Ha).
  exists (js "?mpENC:" ++ w ++ js "."). split.
  - unfold Codec.tlvToWire. rewrite Hw. reflexivity.
  - unfold Codec.wireToTLV.
    change (length Codec._PROTOCOL_PREFIX + 1)%nat with (length (js "?mpENC:")).
    change (js ".") with [46].
    by rewrite slice_to_last_framed.
Qed.

End tlv_streams.

(** ** Data messages: encryption and decryption *)

Section roundtrip.
Context `{Primitives} `{!PrimitivesLaws} `{CodecConstants} `{!CodecConstantsLaws}.
Import Message Message.MessageSecurity.

(** The plaintext that [_encryptRaw] hands to AES-CTR, for either kind of
    padding size. *)
Lemma _encryptRaw_call_ok (d key : jsstring) (P : Z) (nonce : jsstring) :
  Z.of_nat (length d) < 0xffff -> 0 <= P < 2 ^ 31 ->
  exists padding,
    _encryptRaw_call d key P nonce
    = Ok (AesCall.mk
            (Codec._short2bin (Z.of_nat (length d)) ++ d ++ padding)
            (string2bytes key) (string2bytes (nonce ++ [0; 0; 0; 0])))
    /\ Forall (fun c => c = 0) padding
    /\ Z.of_nat (length d) + 2 + Z.of_nat (length padding)
       = if P =? 0 then Z.of_nat (length d) + 2
         else padded_size P (Z.of_nat (length d) + 2).
Proof.
  intros Hd HP. destruct (Z.eqb_spec P 0) as [-> | Hne].
  - exists []. rewrite _encryptRaw_call_unpadded by assumption.
    rewrite app_nil_r. split; [reflexivity|]. split; [constructor|].
    cbn [length]. lia.
  - eexists. rewrite _encryptRaw_call_padded by lia.
    split; [reflexivity|]. split.
    + apply Forall_forall. intros c Hc%list_elem_of_In%repeat_spec. exact Hc.
    + rewrite repeat_length.
      pose proof (padded_size_ge P (Z.of_nat (length d) + 2)
                    ltac:(lia) ltac:(lia)).
      lia.
Qed.

Lemma _decryptRaw_encrypted (raw padding key nonce : jsstring) :
  Z.of_nat (length raw) < 65536 -> bytestring raw ->
  Forall (fun c => c = 0) padding -> length nonce = 12%nat ->
  _decryptRaw
    (AES_CTR_encrypt
       (Codec._short2bin (Z.of_nat (length raw)) ++ raw ++ padding)
       (string2bytes key) (string2bytes (nonce ++ [0; 0; 0; 0])))
    key nonce
  = raw.
Proof.
  intros Hlen Hraw Hpad Hnonce. unfold _decryptRaw, bytes2string.
  assert (slice 0 12 nonce = nonce) as ->.
  { unfold slice. cbn [drop]. rewrite <- Hnonce, Nat.sub_0_r.
    apply firstn_all. }
  rewrite aes_decrypt_encrypt.
  - pose proof (_bin2short_short2bin (Z.of_nat (length raw)) [] ltac:(lia))
      as Hb.
    rewrite _short2bin_u16 in * by lia. unfold slice.
    cbn [app drop take Nat.sub] in *. rewrite take_0, drop_0, Hb.
    replace (Z.to_nat (Z.of_nat (length raw) + 2) - 2)%nat with (length raw)
      by lia.
    by rewrite take_app_length.
  - apply Forall_app. split; [apply _short2bin_bytes; lia|].
    apply Forall_app. split; [exact Hraw|].
    eapply Forall_impl; [exact Hpad|]. intros c ->. unfold is_byte. lia.
Qed.

Lemma rawBody_inv (message : PendingMessage.t) (raw : jsstring) :
  rawBody message = Ok raw ->
  exists body8,
    utf8_encode (PendingMessage.body message) = Ok body8
    /\ raw = concat (map (Codec.encodeTLV TLV_MESSAGE_PARENT)
                       (default [] (PendingMessage.parents message)))
             ++ Codec.encodeTLV TLV_MESSAGE_BODY body8.
Proof.
  unfold rawBody. intros Hr. bind_inv_as Hr as body8 eqn Eb.
  injection Hr as <-. exists body8. split; [reflexivity|].
  by destruct (PendingMessage.parents message).
Qed.

Lemma str_or_null_nonempty (v : jsstring) :
  v <> [] -> Greeter.str_or_null (Some v) = Some v.
Proof. by destruct v. Qed.

Lemma verifyMessageSignature_signMessage (category : Codec.MESSAGE_TYPE)
    (data priv hash : jsstring) :
  Codec.verifyMessageSignature category data
    (Codec.signMessage category data priv (eddsa_publickey priv) hash)
    (eddsa_publickey priv) hash
  = true.
Proof. unfold Codec.verifyMessageSignature, Codec.signMessage. apply sign_verify. Qed.

Lemma _inspectMessage_encoded (hint sig content : jsstring) :
  length hint = 1%nat -> Z.of_nat (length sig) < 65536 ->
  _inspectMessage
    (Codec.encodeTLV Codec.TLV_TYPE.SIDKEY_HINT hint
     ++ Codec.encodeTLV Codec.TLV_TYPE.MESSAGE_SIGNATURE sig ++ content)
  = Ok (Inspected.mk hint sig content).
Proof.
  intros Hh Hs. unfold _inspectMessage.
  rewrite popTLV_encodeTLV by (unfold Codec.TLV_TYPE.SIDKEY_HINT; lia).
  ok_step. rewrite bool_decide_eq_true_2 by exact Hh. ok_step.
  rewrite popTLV_encodeTLV
    by (first [unfold Codec.TLV_TYPE.MESSAGE_SIGNATURE; lia | exact Hs]).
  ok_step. reflexivity.
Qed.

Lemma _decodeMessage_encoded (iv data : jsstring) :
  Z.of_nat (length iv) < 65536 -> Z.of_nat (length data) < 65536 ->
  _decodeMessage
    (Codec.ENCODED_VERSION ++ Codec.ENCODED_TYPE_DATA
     ++ Codec.encodeTLV Codec.TLV_TYPE.MESSAGE_IV iv
     ++ Codec.encodeTLV TLV_MESSAGE_PAYLOAD data)
  = Ok (iv, data).
Proof.
  intros Hiv Hdata.
  unfold _decodeMessage, popStandardFields, Codec.ENCODED_VERSION,
    Codec.ENCODED_TYPE_DATA.
  rewrite popTLV_encodeTLV
    by (first [unfold Codec.TLV_TYPE.PROTOCOL_VERSION; lia
              | apply version_length]).
  ok_step. rewrite bool_decide_eq_true_2 by reflexivity. ok_step.
  rewrite popTLV_encodeTLV
    by (first [apply message_type_u16 | apply message_type_data_length]).
  ok_step. rewrite bool_decide_eq_true_2 by reflexivity. do 2 ok_step.
  rewrite popTLV_encodeTLV
    by (first [unfold Codec.TLV_TYPE.MESSAGE_IV; lia | exact Hiv]).
  ok_step.
  rewrite <- (app_nil_r (Codec.encodeTLV TLV_MESSAGE_PAYLOAD data)).
  rewrite popTLV_encodeTLV
    by (first [apply message_payload_u16 | exact Hdata]).
  ok_step. reflexivity.
Qed.

(** Parsing the record stream of a message: the parents, then the body. *)
Lemma popTLVAll_parents (ps : list jsstring) (body8 : jsstring) :
  Forall (fun p => Z.of_nat (length p) < 65536) ps ->
  Z.of_nat (length body8) < 65536 ->
  Codec.popTLVAll
    (concat (map (Codec.encodeTLV TLV_MESSAGE_PARENT) ps)
     ++ Codec.encodeTLV TLV_MESSAGE_BODY body8) TLV_MESSAGE_PARENT
  = Ok (ps, Codec.encodeTLV TLV_MESSAGE_BODY body8).
Proof.
  intros Hps Hb. unfold Codec.popTLVAll.
  rewrite popTLVAll_loop_records.
  - reflexivity.
  - apply message_parent_u16.
  - exact Hps.
  - rewrite <- (app_nil_r (Codec.encodeTLV TLV_MESSAGE_BODY body8)).
    rewrite popTLVMaybe_encodeTLV
      by (first [apply message_body_u16 | exact Hb]).
    replace (TLV_MESSAGE_BODY =? TLV_MESSAGE_PARENT) with false; [done|].
    symmetry. apply Z.eqb_neq. pose proof parent_not_body. congruence.
  - rewrite length_app, records_length. lia.
Qed.

Lemma popTLV_body (body8 : jsstring) :
  Z.of_nat (length body8) < 65536 ->
  Codec.popTLV (Codec.encodeTLV TLV_MESSAGE_BODY body8) TLV_MESSAGE_BODY
  = Ok (body8, []).
Proof.
  intros Hb.
  rewrite <- (app_nil_r (Codec.encodeTLV TLV_MESSAGE_BODY body8)).
  apply popTLV_encodeTLV; [apply message_body_u16 | exact Hb].
Qed.

Lemma _decrypt_encrypted (hint sig nonce raw padding groupKey author : jsstring)
    (members ps : list jsstring) (body8 body : jsstring) (idx : nat) :
  let plain := Codec._short2bin (Z.of_nat (length raw)) ++ raw ++ padding in
  let cipher :=
    AES_CTR_encrypt plain (string2bytes groupKey)
      (string2bytes (nonce ++ [0; 0; 0; 0])) in
  raw = concat (map (Codec.encodeTLV TLV_MESSAGE_PARENT) ps)
        ++ Codec.encodeTLV TLV_MESSAGE_BODY body8 ->
  Forall bytestring ps -> bytestring body8 ->
  utf8_decode body8 = Ok body ->
  Forall (fun c => c = 0) padding -> length nonce = 12%nat ->
  Z.of_nat (length plain) < 65536 ->
  Ske.indexOf members author = Some idx ->
  let content :=
    Codec.ENCODED_VERSION ++ Codec.ENCODED_TYPE_DATA
    ++ Codec.encodeTLV Codec.TLV_TYPE.MESSAGE_IV nonce
    ++ Codec.encodeTLV TLV_MESSAGE_PAYLOAD cipher in
  _decrypt (Inspected.mk hint sig content) groupKey author members
  = Ok (Decrypted.mk (_dummyMessageSecrets sig content)
          (PendingMessage.mk author (Some ps) (splice1 idx members) body)).
Proof.
  intros plain cipher Eraw Hps Hb8 Hdec Hzeros Hnl Hplain Hidx content.
  assert (length plain = (2 + length raw + length padding)%nat) as Hpl.
  { unfold plain. rewrite !length_app, _short2bin_length. lia. }
  assert (length cipher = length plain) as Hclen by apply aes_length.
  assert (Z.of_nat (length body8) < 65536
          /\ Forall (fun p => Z.of_nat (length p) < 65536) ps) as [Hl8 Hlps].
  { pose proof (f_equal length Eraw) as El.
    rewrite length_app, encodeTLV_length, records_length in El.
    split; [lia|].
    eapply Forall_impl; [apply concat_length_le|]. cbn beta. lia. }
  assert (bytestring raw) as Hrawb.
  { rewrite Eraw. apply Forall_app. split.
    - apply records_bytes; [apply message_parent_u16 | done | done].
    - apply encodeTLV_bytes; [apply message_body_u16 | done | done]. }
  assert (_decryptRaw cipher groupKey nonce = raw) as Hdr.
  { unfold cipher, plain. apply _decryptRaw_encrypted; (lia || assumption). }
  pose proof (popTLVAll_parents ps body8 Hlps Hl8) as Hparse.
  rewrite <- Eraw in Hparse.
  pose proof (popTLV_body body8 Hl8) as Hpb.
  assert (cipher <> []) as Hne.
  { intros Hc. apply (f_equal length) in Hc. cbn [length] in Hc. lia. }
  assert (_decodeMessage content = Ok (nonce, cipher)) as Hdm
    by (apply _decodeMessage_encoded; lia).
  clearbody content cipher plain.
  unfold _decrypt. cbn [Inspected.rawMessage Inspected.signature].
  rewrite Hdm. ok_step.
  rewrite bool_decide_eq_false_2 by exact Hne.
  change (negb false) with true. ok_step. rewrite Hdr, Hparse. ok_step.
  rewrite Hpb. ok_step. rewrite Hdec. ok_step.
  by rewrite Hidx.
Qed.

(** [decryptVerify] on the wire form of a signed packet: what is left is
    the decryption. *)
Lemma decryptVerify_signed (this : MessageSecurity.t)
    (w author hint sig content pub : jsstring) :
  let store := _greetStore this in
  author <> [] ->
  Codec.wireToTLV w
  = Ok (Codec.encodeTLV Codec.TLV_TYPE.SIDKEY_HINT hint
        ++ Codec.encodeTLV Codec.TLV_TYPE.MESSAGE_SIGNATURE sig ++ content) ->
  length hint = 1%nat -> Z.of_nat (length sig) < 65536 ->
  GreetStore.pubKeyMap store !! author = Some pub -> pub <> [] ->
  Codec.verifyMessageSignature Codec.MPENC_DATA_MESSAGE content sig pub
    (sha256 (GreetStore.sessionId store ++ GreetStore.groupKey store))
  = true ->
  decryptVerify this w author
  = (decrypted ← _decrypt (Inspected.mk hint sig content)
                   (GreetStore.groupKey store) author
                   (GreetStore.members store);
     Ok (Some decrypted)).
Proof.
  intros store Ha Hw Hh Hs Hmap Hpub Hv. unfold decryptVerify. fold store.
  rewrite bool_decide_eq_false_2 by exact Ha.
  unfold decodeWirePacket. rewrite Hw. ok_step.
  rewrite _inspectMessage_encoded by assumption. ok_step.
  rewrite Hmap, str_or_null_nonempty by exact Hpub.
  cbn [Inspected.rawMessage Inspected.signature]. rewrite Hv. reflexivity.
Qed.


(** X2. [_decryptRaw] undoes [_encryptRaw]: for a byte string [d] shorter
    than 65535 bytes, a padding size that is a non-negative 32-bit integer
    and a 12-byte nonce, [_encryptRaw] returns the nonce as [iv] and a
    ciphertext of the padded length, and [_decryptRaw] of that ciphertext
    with the same key and [iv] is [d], the length prefix and the padding
    stripped. *)
Theorem decryptRaw_encryptRaw :
  forall (d key nonce : jsstring) (P : Z),
    bytestring d -> Z.of_nat (length d) < 0xffff -> 0 <= P < 2 ^ 31 ->
    length nonce = 12%nat ->
    exists enc : Encrypted.t,
      _encryptRaw d key P nonce = Ok enc
      /\ Encrypted.iv enc = nonce
      /\ length (Encrypted.data enc)
         = Z.to_nat (if P =? 0 then Z.of_nat (length d) + 2
                     else padded_size P (Z.of_nat (length d) + 2))
      /\ _decryptRaw (Encrypted.data enc) key (Encrypted.iv enc) = d.
Proof.
  intros d key nonce P Hb Hlen HP Hnl.
  destruct (_encryptRaw_call_ok d key P nonce Hlen HP)
    as (padding & Hcall & Hzeros & Hplen).
  eexists. rewrite _encryptRaw_call_spec, Hcall, bind_Ok.
  split; [reflexivity|].
  cbn [Encrypted.iv Encrypted.data AesCall.data AesCall.key AesCall.nonce].
  split; [reflexivity|]. split.
  - rewrite aes_length, !length_app, _short2bin_length, <- Hplen. lia.
  - apply _decryptRaw_encrypted; (lia || assumption).
Qed.

Lemma _decrypt_unfold (inspected : Inspected.t) (groupKey author : jsstring)
    (members : list jsstring) :
  _decrypt inspected groupKey author members
  = ('(iv, data) ← _decodeMessage (Inspected.rawMessage inspected);
     _ ← _assert (negb (bool_decide (data = []))) "assertion failed";
     let rest := _decryptRaw data groupKey iv in
     '(parents, rest) ← Codec.popTLVAll rest TLV_MESSAGE_PARENT;
     '(value, rest) ← Codec.popTLV rest TLV_MESSAGE_BODY;
     body ← utf8_decode value;
     match Ske.indexOf members author with
     | None => Throw "assertion failed"
     | Some idx =>
         let readers := splice1 idx members in
         Ok (Decrypted.mk
               (_dummyMessageSecrets (Inspected.signature inspected)
                  (Inspected.rawMessage inspected))
               (PendingMessage.mk author (Some parents) readers body))
     end).
Proof. reflexivity. Qed.

Lemma _decrypt_inv (inspected : Inspected.t) (groupKey author : jsstring)
    (members : list jsstring) (dec : Decrypted.t) :
  _decrypt inspected groupKey author members = Ok dec ->
  exists idx,
    Ske.indexOf members author = Some idx
    /\ PendingMessage.author (Decrypted.message dec) = author
    /\ PendingMessage.readers (Decrypted.message dec) = splice1 idx members.
Proof.
  rewrite _decrypt_unfold. intros Ed.
  bind_split Ed as [iv data] eqn Edm. bind_split Ed as u eqn Eu.
  cbv zeta in Ed.
  bind_split Ed as [parents rest] eqn Epa.
  bind_split Ed as [value rest'] eqn Epb.
  bind_split Ed as body eqn Eb.
  destruct (Ske.indexOf members author) as [idx|] eqn:Eidx; [|discriminate].
  injection Ed as <-. exists idx. by repeat split.
Qed.


End roundtrip.

(** ** The small instances satisfy the assumptions *)

Lemma map_mod256_bytes (s : jsstring) :
  bytestring (map (fun c => c mod 256) s).
Proof.
  apply Forall_forall. intros c (x & <- & _)%list_elem_of_In%in_map_iff.
  unfold is_byte. Z.div_mod_to_equations. lia.
Qed.

Lemma lxor_byte (a b : Z) : is_byte a -> is_byte b -> is_byte (Z.lxor a b).
Proof.
  unfold is_byte. intros Ha Hb.
  assert (0 <= Z.lxor a b) as Hnn by (apply Z.lxor_nonneg; lia).
  split; [exact Hnn|].
  destruct (Z.eq_dec (Z.lxor a b) 0) as [-> | Hne]; [lia|].
  apply (Z.log2_lt_cancel _ 256). change (Z.log2 256) with 8.
  pose proof (Z.log2_lxor a b ltac:(lia) ltac:(lia)) as Hl.
  assert (Z.log2 a < 8).
  { destruct (Z.eq_dec a 0) as [-> | ?]; [cbn; lia|].
    apply Z.log2_lt_pow2; lia. }
  assert (Z.log2 b < 8).
  { destruct (Z.eq_dec b 0) as [-> | ?]; [cbn; lia|].
    apply Z.log2_lt_pow2; lia. }
  lia.
Qed.

Lemma xor_stream_bytes (d k iv : jsstring) : bytestring (Toy.xor_stream d k iv).
Proof.
  unfold Toy.xor_stream. apply Forall_forall.
  intros c (x & <- & _)%list_elem_of_In%in_map_iff.
  apply lxor_byte; unfold is_byte; Z.div_mod_to_equations; lia.
Qed.

Lemma xor_stream_involutive (d k iv : jsstring) :
  bytestring d -> Toy.xor_stream (Toy.xor_stream d k iv) k iv = d.
Proof.
  intros Hd. unfold Toy.xor_stream. rewrite map_map.
  rewrite <- (map_id d) at 2. apply map_ext_in.
  intros c Hc. eapply Forall_forall in Hd; [|apply list_elem_of_In, Hc].
  set (kb := nth 0 k 0 mod 256).
  assert (is_byte (Z.lxor (c mod 256) kb)) as Hx.
  { apply lxor_byte; unfold is_byte, kb; Z.div_mod_to_equations; lia. }
  unfold is_byte in Hd, Hx.
  rewrite (Z.mod_small (Z.lxor _ _)) by lia.
  rewrite Z.lxor_assoc, Z.lxor_nilpotent, Z.lxor_0_r.
  apply Z.mod_small. lia.
Qed.

Global Instance toy_primitives_laws : PrimitivesLaws.
Proof.
  split.
  - intros s. apply map_mod256_bytes.
  - intros s. cbn [sha256 Toy.primitives].
    rewrite length_map, length_take, length_app, repeat_length. lia.
  - intros m priv pub. apply map_mod256_bytes.
  - intros m priv pub. cbn [eddsa_sign Toy.primitives].
    rewrite length_map, length_take, !length_app, repeat_length. lia.
  - intros m priv. cbn [eddsa_verify eddsa_sign Toy.primitives].
    by apply bool_decide_eq_true_2.
  - intros d k iv. apply xor_stream_bytes.
  - intros d k iv. cbn [AES_CTR_encrypt Toy.primitives]. unfold Toy.xor_stream.
    by rewrite length_map.
  - intros d k iv Hd. apply xor_stream_involutive, Hd.
  - repeat constructor; unfold is_byte; cbn; lia.
  - cbn. lia.
Qed.

Global Instance toy_constants_laws : CodecConstantsLaws.
Proof.
  split; cbn; try lia; try discriminate.
  repeat constructor; unfold is_byte; lia.
Qed.


Lemma decryptRaw_encryptRaw_witness :
  exists enc : Message.Encrypted.t,
    Message._encryptRaw (js "hello") (js "0123456789abcdef") 16 Toy.nonce
    = Ok enc
    /\ Message.Encrypted.iv enc = Toy.nonce
    /\ length (Message.Encrypted.data enc)
       = Z.to_nat (if 16 =? 0 then Z.of_nat (length (js "hello")) + 2
                   else padded_size 16 (Z.of_nat (length (js "hello")) + 2))
    /\ Message._decryptRaw (Message.Encrypted.data enc)
         (js "0123456789abcdef") (Message.Encrypted.iv enc)
       = js "hello".
Proof.
  apply (decryptRaw_encryptRaw (js "hello") (js "0123456789abcdef")
           Toy.nonce 16).
  - repeat constructor; unfold is_byte; cbn; lia.
  - cbn. lia.
  - lia.
  - reflexivity.
Defined.

Lemma utf8_protection_roundtrip_witness :
  Message.utf8_decode Toy.sample_body_utf8
  = Ok Toy.sample_body
  /\ bytestring Toy.sample_body_utf8
  /\ (length Toy.sample_body
      <= length Toy.sample_body_utf8
      <= 3 * length Toy.sample_body)%nat.
Proof.
  apply (utf8_protection_roundtrip Toy.sample_body).
  - repeat constructor; unfold is_unit; cbn; lia.
  - reflexivity.
Defined.

(** ** The codec: sixteen-bit fields, records, categories *)

Section codec_records.
Import Codec.

(** X5. Sixteen-bit fields.  [_short2bin] of a number below 65536 is its
    two bytes, high byte first, and [_bin2short] reads the number back
    from the front of any string that starts with them; [_bin2short] of
    two bytes is [hi * 256 + lo], and [_short2bin] gives the two bytes
    back. *)
Theorem short2bin_bin2short :
  (forall n : Z,
      0 <= n < 65536 ->
      _short2bin n = [n / 256; n mod 256]
      /\ bytestring (_short2bin n)
      /\ forall s : jsstring, _bin2short (_short2bin n ++ s) = n)
  /\ (forall (hi lo : Z) (s : jsstring),
         is_byte hi -> is_byte lo ->
         _bin2short (hi :: lo :: s) = hi * 256 + lo
         /\ _short2bin (_bin2short (hi :: lo :: s)) = [hi; lo]).
Proof.
  split.
  - intros n Hn. split; [by apply _short2bin_u16|].
    split; [by apply _short2bin_bytes|].
    intros s. by apply _bin2short_short2bin.
  - intros hi lo s Hhi Hlo. unfold is_byte in *.
    rewrite _bin2short_bytes by lia. split; [reflexivity|].
    rewrite _short2bin_u16 by lia.
    f_equal; [|f_equal]; Z.div_mod_to_equations; lia.
Qed.

(** What [decodeTLV] does on a byte string with a full header. *)
Lemma decodeTLV_bytes (t0 t1 l0 l1 : Z) (payload : jsstring) :
  is_byte t0 -> is_byte t1 -> is_byte l0 -> is_byte l1 ->
  decodeTLV (t0 :: t1 :: l0 :: l1 :: payload)
  = if l0 * 256 + l1 <=? Z.of_nat (length payload)
    then Ok (mkTLV (t0 * 256 + t1) (take (Z.to_nat (l0 * 256 + l1)) payload)
               (drop (Z.to_nat (l0 * 256 + l1)) payload))
    else Throw "TLV payload length does not match indicated length.".
Proof.
  unfold is_byte. intros Ht0 Ht1 Hl0 Hl1. unfold decodeTLV.
  assert (substring 0 2 (t0 :: t1 :: l0 :: l1 :: payload) = [t0; t1]) as ->
    by reflexivity.
  assert (substring 2 4 (t0 :: t1 :: l0 :: l1 :: payload) = [l0; l1]) as ->
    by reflexivity.
  rewrite !_bin2short_bytes by lia.
  set (n := l0 * 256 + l1). assert (0 <= n) as Hn by lia.
  assert (substring 4 (4 + Z.to_nat n) (t0 :: t1 :: l0 :: l1 :: payload)
          = take (Z.to_nat n) payload) as ->.
  { unfold substring. replace (4 + Z.to_nat n - 4)%nat with (Z.to_nat n) by lia.
    reflexivity. }
  replace (Z.to_nat n + 4)%nat with (S (S (S (S (Z.to_nat n))))) by lia.
  cbn [drop]. rewrite length_take.
  destruct (Z.leb_spec n (Z.of_nat (length payload))).
  - replace (n =? Z.of_nat (Z.to_nat n `min` length payload)) with true
      by (symmetry; apply Z.eqb_eq; lia).
    reflexivity.
  - replace (n =? Z.of_nat (Z.to_nat n `min` length payload)) with false
      by (symmetry; apply Z.eqb_neq; lia).
    reflexivity.
Qed.

(** X6. [decodeTLV] on a string of four header bytes and a payload: when
    the payload has at least the announced number of units, the record's
    type is the first two bytes as a number, its value the announced
    number of units, its rest what follows, and encoding type and value
    again and appending the rest gives the input back; when the payload
    is shorter than announced, the call raises the length-mismatch
    error. *)
Theorem decodeTLV_characterised :
  forall (t0 t1 l0 l1 : Z) (payload : jsstring),
    is_byte t0 -> is_byte t1 -> is_byte l0 -> is_byte l1 ->
    let n := l0 * 256 + l1 in
    let m := t0 :: t1 :: l0 :: l1 :: payload in
    (n <= Z.of_nat (length payload) ->
       exists tlv,
         decodeTLV m = Ok tlv
         /\ type tlv = t0 * 256 + t1
         /\ value tlv = take (Z.to_nat n) payload
         /\ rest tlv = drop (Z.to_nat n) payload
         /\ m = encodeTLV (type tlv) (value tlv) ++ rest tlv)
    /\ (Z.of_nat (length payload) < n ->
          decodeTLV m
          = Throw "TLV payload length does not match indicated length.").
Proof.
  intros t0 t1 l0 l1 payload Ht0 Ht1 Hl0 Hl1 n m. unfold m.
  rewrite decodeTLV_bytes by assumption. fold n. unfold is_byte in *.
  split; intros Hn.
  - replace (n <=? Z.of_nat (length payload)) with true
      by (symmetry; apply Z.leb_le; lia).
    eexists. split; [reflexivity|]. cbn [type value rest].
    repeat split. unfold encodeTLV.
    rewrite length_take, !_short2bin_u16 by lia.
    replace (Z.of_nat (Z.to_nat n `min` length payload)) with n by lia.
    cbn [app]. rewrite take_drop.
    unfold n. repeat f_equal; Z.div_mod_to_equations; lia.
  - replace (n <=? Z.of_nat (length payload)) with false
      by (symmetry; apply Z.leb_gt; lia).
    reflexivity.
Qed.

(** X7. On a string that starts with an encoded record of type [ty],
    [decodeTLV] returns the record and the rest, [popTLV] and
    [popTLVMaybe] asked for [ty] return the value and the rest; asked for
    another type, [popTLV] raises and [popTLVMaybe] returns no value and
    the whole string unchanged. *)
Theorem popTLV_on_record :
  forall (ty ty' : Z) (v rest : jsstring),
    0 <= ty < 65536 -> Z.of_nat (length v) < 65536 ->
    decodeTLV (encodeTLV ty v ++ rest) = Ok (mkTLV ty v rest)
    /\ popTLV (encodeTLV ty v ++ rest) ty = Ok (v, rest)
    /\ popTLVMaybe (encodeTLV ty v ++ rest) ty = Ok (Some v, rest)
    /\ (ty' <> ty ->
          raises (popTLV (encodeTLV ty v ++ rest) ty')
          /\ popTLVMaybe (encodeTLV ty v ++ rest) ty'
             = Ok (None, encodeTLV ty v ++ rest)).
Proof.
  intros ty ty' v rest Hty Hv.
  split; [by apply decodeTLV_encodeTLV|].
  split; [by apply popTLV_encodeTLV|].
  split.
  { rewrite popTLVMaybe_encodeTLV by assumption. by rewrite Z.eqb_refl. }
  intros Hne. split.
  - unfold popTLV. rewrite decodeTLV_encodeTLV by assumption.
    rewrite bind_Ok. cbn [type].
    replace (ty =? ty') with false by (symmetry; apply Z.eqb_neq; lia).
    by eexists.
  - rewrite popTLVMaybe_encodeTLV by assumption.
    replace (ty =? ty') with false by (symmetry; apply Z.eqb_neq; lia).
    reflexivity.
Qed.

(** X8. [popTLVAll] undoes [_encodeTlvArray]: on the records of one type
    followed by a tail that does not start with a record of that type, it
    returns the values in order and the tail. *)
Theorem popTLVAll_encodeTlvArray :
  forall (ty : Z) (vs : list jsstring) (tail : jsstring),
    0 <= ty < 65536 ->
    Forall (fun v => Z.of_nat (length v) < 65536) vs ->
    popTLVMaybe tail ty = Ok (None, tail) ->
    popTLVAll (_encodeTlvArray ty vs ++ tail) ty = Ok (vs, tail).
Proof.
  intros ty vs tail Hty Hvs Htail. unfold popTLVAll, _encodeTlvArray.
  rewrite popTLVAll_loop_records; try assumption; [reflexivity|].
  rewrite length_app, records_length. lia.
Qed.

(** [getGreetType] skips the records of other types. *)
Lemma getGreetType_loop_skip (pre : list (Z * jsstring)) (tail : jsstring) :
  Forall (fun r => 0 <= r.1 < 65536 /\ r.1 <> TLV_TYPE.GREET_TYPE
                   /\ Z.of_nat (length r.2) < 65536) pre ->
  forall fuel : nat,
    (length pre + length tail < fuel)%nat ->
    getGreetType_loop fuel
      (concat (map (fun r => encodeTLV r.1 r.2) pre) ++ tail)
    = getGreetType_loop (fuel - length pre) tail.
Proof.
  induction 1 as [|[ty v] pre (Hty & Hne & Hv) _ IH]; intros fuel Hf.
  - cbn [map concat app length]. by rewrite Nat.sub_0_r.
  - destruct fuel as [|fuel]; [cbn in Hf; lia|].
    cbn [map concat fst snd length] in *. rewrite <- app_assoc.
    assert (exists c l,
               encodeTLV ty v
               ++ concat (map (fun r => encodeTLV r.1 r.2) pre) ++ tail
               = c :: l)
      as (c & l & El) by (unfold encodeTLV, _short2bin; cbn [app]; eauto).
    rewrite El. cbn [getGreetType_loop]. rewrite <- El.
    rewrite decodeTLV_encodeTLV by assumption. rewrite bind_Ok.
    cbn [type value rest].
    replace (ty =? TLV_TYPE.GREET_TYPE) with false
      by (symmetry; apply Z.eqb_neq; lia).
    rewrite IH by lia. reflexivity.
Qed.

Lemma records_count_le (pre : list (Z * jsstring)) :
  (length pre <= length (concat (map (fun r => encodeTLV r.1 r.2) pre)))%nat.
Proof.
  induction pre as [|r pre IH]; [cbn; lia|].
  cbn [map concat length]. rewrite length_app, encodeTLV_length. lia.
Qed.

(** [getGreetType] stops at the first GREET_TYPE record. *)
Lemma getGreetType_found (pre : list (Z * jsstring)) (t rest : jsstring) :
  Forall (fun r => 0 <= r.1 < 65536 /\ r.1 <> TLV_TYPE.GREET_TYPE
                   /\ Z.of_nat (length r.2) < 65536) pre ->
  Z.of_nat (length t) < 65536 ->
  getGreetType
    (concat (map (fun r => encodeTLV r.1 r.2) pre)
     ++ encodeTLV TLV_TYPE.GREET_TYPE t ++ rest)
  = Ok (Some t).
Proof.
  intros Hpre Ht. unfold getGreetType.
  pose proof (records_count_le pre) as Hc.
  rewrite getGreetType_loop_skip;
    [|exact Hpre|rewrite !length_app, encodeTLV_length; lia].
  rewrite !length_app, encodeTLV_length.
  match goal with |- getGreetType_loop ?f _ = _ =>
    remember f as k eqn:Ek end.
  destruct k as [|k]; [lia|].
  assert (exists c l, encodeTLV TLV_TYPE.GREET_TYPE t ++ rest = c :: l)
    as (c & l & El) by (unfold encodeTLV, _short2bin; cbn [app]; eauto).
  rewrite El. cbn [getGreetType_loop]. rewrite <- El.
  rewrite decodeTLV_encodeTLV
    by (first [unfold TLV_TYPE.GREET_TYPE; lia | exact Ht]).
  rewrite bind_Ok. cbn [type value]. by rewrite Z.eqb_refl.
Qed.

(** X9. [getGreetType] returns the value of the first GREET_TYPE record,
    whatever records of other types precede it and whatever follows it;
    on a sequence of records with no GREET_TYPE record it returns
    [undefined]. *)
Theorem getGreetType_first_record :
  forall (pre : list (Z * jsstring)) (t rest : jsstring),
    Forall (fun r => 0 <= r.1 < 65536 /\ r.1 <> TLV_TYPE.GREET_TYPE
                     /\ Z.of_nat (length r.2) < 65536) pre ->
    Z.of_nat (length t) < 65536 ->
    getGreetType
      (concat (map (fun r => encodeTLV r.1 r.2) pre)
       ++ encodeTLV TLV_TYPE.GREET_TYPE t ++ rest)
    = Ok (Some t)
    /\ getGreetType (concat (map (fun r => encodeTLV r.1 r.2) pre)) = Ok None.
Proof.
  intros pre t rest Hpre Ht. split; [by apply getGreetType_found|].
  unfold getGreetType. pose proof (records_count_le pre) as Hc.
  rewrite <- (app_nil_r (concat _)).
  rewrite getGreetType_loop_skip;
    [|exact Hpre|rewrite app_nil_r; cbn [length]; lia].
  by destruct (_ - _)%nat.
Qed.

End codec_records.

(** ** The loops over records end *)

Section tlv_loops.
Import Codec.

Lemma decodeTLV_rest (message : jsstring) (tlv : TLV) :
  decodeTLV message = Ok tlv ->
  exists n : nat, rest tlv = drop (n + 4) message.
Proof.
  unfold decodeTLV, _assert. intros Hd.
  destruct (_ =? _); [|discriminate Hd]. rewrite bind_Ok in Hd.
  exists (Z.to_nat (_bin2short (substring 2 4 message))).
  set (n := Z.to_nat _) in *. clearbody n.
  set (t := _bin2short _) in Hd. clearbody t.
  set (v := substring _ _ _) in Hd. clearbody v.
  assert (rest (mkTLV t v (drop (n + 4) message)) = rest tlv) as <-
    by congruence.
  reflexivity.
Qed.

Lemma decodeTLV_error (message : jsstring) (e : string) :
  decodeTLV message = Throw e ->
  e = "TLV payload length does not match indicated length."%string.
Proof.
  unfold decodeTLV, _assert. intros Hd.
  destruct (_ =? _); [discriminate Hd|]. by injection Hd as <-.
Qed.

Lemma drop_shorter (n : nat) (s : jsstring) :
  s <> [] -> (length (drop (n + 4) s) < length s)%nat.
Proof.
  intros Hs. rewrite length_drop. destruct s; [done|]. cbn [length]. lia.
Qed.

Lemma popTLVAll_loop_ends (ty : Z) (fuel : nat) :
  forall (message : jsstring) (seen : list jsstring),
    (length message < fuel)%nat ->
    (exists r, popTLVAll_loop fuel message ty seen = Ok r)
    \/ popTLVAll_loop fuel message ty seen
       = Throw "TLV payload length does not match indicated length.".
Proof.
  induction fuel as [|fuel IH]; intros message seen Hf; [lia|].
  cbn [popTLVAll_loop]. unfold popTLVMaybe.
  destruct (decodeTLV message) as [tlv|e] eqn:Ed.
  - rewrite bind_Ok. destruct (negb (type tlv =? ty)).
    + rewrite bind_Ok. cbv beta iota.
      rewrite bool_decide_eq_true_2 by reflexivity. left. eauto.
    + rewrite bind_Ok. cbv beta iota. case_bool_decide as Er.
      * left. eauto.
      * apply decodeTLV_rest in Ed as [n Hn]. apply IH.
        rewrite Hn. destruct message as [|c s].
        { destruct Er. rewrite Hn. by rewrite drop_nil. }
        pose proof (drop_shorter n (c :: s) ltac:(done)). lia.
  - right. apply decodeTLV_error in Ed as ->. reflexivity.
Qed.

Lemma getGreetType_loop_ends (fuel : nat) :
  forall message : jsstring,
    (length message < fuel)%nat ->
    (exists r, getGreetType_loop fuel message = Ok r)
    \/ getGreetType_loop fuel message
       = Throw "TLV payload length does not match indicated length.".
Proof.
  induction fuel as [|fuel IH]; intros message Hf; [lia|].
  destruct message as [|c s]; [left; by eexists|].
  cbn [getGreetType_loop].
  destruct (decodeTLV (c :: s)) as [tlv|e] eqn:Ed.
  - rewrite bind_Ok. destruct (type tlv =? TLV_TYPE.GREET_TYPE).
    + left. eauto.
    + apply decodeTLV_rest in Ed as [n Hn]. apply IH. rewrite Hn.
      pose proof (drop_shorter n (c :: s) ltac:(done)). lia.
  - right. apply decodeTLV_error in Ed as ->. reflexivity.
Qed.

(** X24. The loops over records end.  On every string, [popTLVAll] and
    [getGreetType] return, or raise the error of [decodeTLV] about a
    payload shorter than its record announces; the bound on the number of
    rounds is never reached. *)
Theorem record_loops_end :
  forall (message : jsstring) (ty : Z),
    ((exists r, popTLVAll message ty = Ok r)
     \/ popTLVAll message ty
        = Throw "TLV payload length does not match indicated length.")
    /\ ((exists r, getGreetType message = Ok r)
        \/ getGreetType message
           = Throw "TLV payload length does not match indicated length.").
Proof.
  intros message ty. split.
  - apply popTLVAll_loop_ends. lia.
  - apply getGreetType_loop_ends. lia.
Qed.

End tlv_loops.

Section categories.
Context `{Primitives} `{!PrimitivesLaws}.
Import Codec.

Lemma substring_prefix (pre rest : jsstring) :
  substring 0 (length pre) (pre ++ rest) = pre.
Proof.
  unfold substring. rewrite Nat.sub_0_r, drop_0. apply take_app_length.
Qed.

Lemma categoriseMessage_prefixed (rest : jsstring) :
  categoriseMessage (_PROTOCOL_PREFIX ++ rest)
  = (let message := rest in
     if bool_decide (substring 0 (length _ERROR_PREFIX) message
                     = _ERROR_PREFIX)
     then Ok (Some (mkCategorised MPENC_ERROR
                      (drop (length _PROTOCOL_PREFIX + 1) message)))
     else if bool_decide (message !! 0%nat = Some 58)
             && bool_decide (last message = Some 46)
     then
       message ← Base64.atob (substring 1 (length message - 1) message);
       greetType ← getGreetType message;
       if bool_decide (greetType = Some GREET_TYPE.PARTICIPANT_DATA)
       then Ok (Some (mkCategorised MPENC_DATA_MESSAGE message))
       else Ok (Some (mkCategorised MPENC_GREET_MESSAGE message))
     else
       match exec_query message, PROTOCOL_VERSION with
       | Some digits, v :: _ =>
           if bool_decide (digits = decimal v)
           then Ok (Some (mkCategorised MPENC_QUERY [fromCharCode v]))
           else Throw "Unknown mpENC message."
       | _, _ => Throw "Unknown mpENC message."
       end).
Proof.
  unfold categoriseMessage.
  rewrite bool_decide_eq_false_2 by discriminate.
  rewrite substring_prefix, bool_decide_eq_true_2 by reflexivity.
  rewrite drop_app_length. reflexivity.
Qed.

(** The category of a frame around Base64 text. *)
Lemma categoriseMessage_framed (x b : jsstring) :
  Base64.atob b = Ok x ->
  categoriseMessage (_PROTOCOL_PREFIX ++ js ":" ++ b ++ js ".")
  = (greetType ← getGreetType x;
     Ok (Some (mkCategorised
                 (if bool_decide
                       (greetType = Some GREET_TYPE.PARTICIPANT_DATA)
                  then MPENC_DATA_MESSAGE else MPENC_GREET_MESSAGE)
                 x))).
Proof.
  intros Ha. rewrite categoriseMessage_prefixed. cbv zeta.
  change (js ":" ++ b ++ js ".") with (58 :: b ++ [46]).
  rewrite bool_decide_eq_false_2 by (unfold substring; discriminate).
  rewrite (bool_decide_eq_true_2 ((58 :: b ++ [46]) !! 0%nat = Some 58))
    by reflexivity.
  rewrite (bool_decide_eq_true_2 (last (58 :: b ++ [46]) = Some 46))
    by (rewrite app_comm_cons; apply last_snoc).
  cbn [andb].
  assert (substring 1 (length (58 :: b ++ [46]) - 1) (58 :: b ++ [46]) = b)
    as ->.
  { unfold substring. set (m := 58 :: b ++ [46]).
    assert (length m - 1 - 1 = length b)%nat as ->
      by (unfold m; cbn [length]; rewrite length_app; cbn [length]; lia).
    unfold m. cbn [drop]. rewrite drop_0. apply take_app_length. }
  rewrite Ha, bind_Ok.
  destruct (getGreetType x) as [gt|e]; [|reflexivity].
  rewrite !bind_Ok. by case_bool_decide.
Qed.

(** X10. A byte string sent through [tlvToWire] is categorised with the
    string itself as content: as a data message when its first
    GREET_TYPE record holds PARTICIPANT_DATA, as a greet message when it
    holds something else or there is no such record; if [getGreetType]
    raises on the string, so does [categoriseMessage]. *)
Theorem categoriseMessage_tlvToWire :
  forall x : jsstring,
    bytestring x ->
    exists w,
      tlvToWire x = Ok w
      /\ categoriseMessage w
         = (greetType ← getGreetType x;
            Ok (Some (mkCategorised
                        (if bool_decide
                              (greetType = Some GREET_TYPE.PARTICIPANT_DATA)
                         then MPENC_DATA_MESSAGE else MPENC_GREET_MESSAGE)
                        x))).
Proof.
  intros x Hx. destruct (atob_btoa x Hx) as (b & Hb & Ha).
  exists (_PROTOCOL_PREFIX ++ js ":" ++ b ++ js "."). split.
  { unfold tlvToWire. rewrite Hb. reflexivity. }
  exact (categoriseMessage_framed x b Ha).
Qed.

Lemma decimal_digits_spec (fuel : nat) (n : Z) :
  0 <= n -> Forall (fun c => is_digit c = true) (decimal_digits fuel n)
            /\ (fuel <> 0%nat -> decimal_digits fuel n <> []).
Proof.
  revert n. induction fuel as [|fuel IH]; intros n Hn.
  { split; [constructor | congruence]. }
  cbn [decimal_digits]. split.
  - apply Forall_app. split.
    + destruct (n <? 10); [constructor|].
      apply IH. Z.div_mod_to_equations. lia.
    + constructor; [|constructor]. unfold is_digit.
      apply andb_true_intro. split; [apply Z.leb_le | apply Z.leb_le];
        Z.div_mod_to_equations; lia.
  - intros _ Hnil. by apply app_eq_nil in Hnil as [_ ?].
Qed.

Lemma span_digits_app (ds : jsstring) (q : Z) (r : jsstring) :
  Forall (fun c => is_digit c = true) ds -> is_digit q = false ->
  span_digits (ds ++ q :: r) = (ds, q :: r).
Proof.
  intros Hds Hq. induction Hds as [|d ds Hd _ IH].
  - cbn [app span_digits]. by rewrite Hq.
  - cbn [app span_digits]. by rewrite Hd, IH.
Qed.

(** X11. The query message of [getQueryMessage], with any accompanying
    text, is categorised as a query whose content is the first unit of
    the protocol version. *)
Theorem categoriseMessage_getQueryMessage :
  forall (v : Z) (vs text : jsstring),
    PROTOCOL_VERSION = v :: vs -> 0 <= v < 65536 ->
    categoriseMessage (getQueryMessage text)
    = Ok (Some (mkCategorised MPENC_QUERY [v])).
Proof.
  intros v vs text Hv Hr. unfold getQueryMessage.
  rewrite categoriseMessage_prefixed, Hv. cbv zeta.
  destruct (decimal_digits_spec 5 v ltac:(lia)) as [Hd Hne].
  specialize (Hne ltac:(lia)). fold (decimal v) in Hd, Hne.
  change (js "v" ++ decimal v ++ js "?" ++ text)
    with (118 :: decimal v ++ 63 :: text).
  rewrite bool_decide_eq_false_2 by (unfold substring; discriminate).
  rewrite (bool_decide_eq_false_2
             ((118 :: decimal v ++ 63 :: text) !! 0%nat = Some 58))
    by discriminate.
  cbn [andb exec_query]. rewrite Z.eqb_refl, span_digits_app by done.
  destruct (decimal v) as [|d ds] eqn:Ed; [done|].
  rewrite Z.eqb_refl, bool_decide_eq_true_2 by reflexivity.
  unfold fromCharCode, ToUint16. rewrite Z.mod_small by lia. reflexivity.
Qed.

(** X12. An error message built by [encodeErrorMessage] from a text that
    is not [null] is categorised as an error, and its content is the
    Base64 form of the signature (of the empty string when no private
    key is given), a colon, and the sender, severity and text as they
    were put in. *)
Theorem categoriseMessage_encodeErrorMessage :
  forall from severity message privKey pubKey : jsstring,
    exists b64 w : jsstring,
      Base64.btoa
        (if bool_decide (privKey = []) then []
         else signMessage MPENC_ERROR
                (js "from " ++ [34] ++ from ++ [34] ++ js ":" ++ severity
                 ++ js ":" ++ message) privKey pubKey [])
      = Ok b64
      /\ encodeErrorMessage from severity (Some message) privKey pubKey
         = Ok (Some w)
      /\ categoriseMessage w
         = Ok (Some (mkCategorised MPENC_ERROR
                       (b64 ++ js ":" ++ js "from " ++ [34] ++ from ++ [34]
                        ++ js ":" ++ severity ++ js ":" ++ message))).
Proof.
  intros from severity message privKey pubKey.
  set (out := js "from " ++ [34] ++ from ++ [34] ++ js ":" ++ severity
              ++ js ":" ++ message).
  set (sig := if bool_decide (privKey = []) then []
              else signMessage MPENC_ERROR out privKey pubKey []).
  assert (bytestring sig) as Hsig.
  { unfold sig. case_bool_decide; [constructor|]. apply sign_bytes. }
  destruct (atob_btoa sig Hsig) as (b & Hb & _).
  exists b, (_PROTOCOL_PREFIX ++ _ERROR_PREFIX ++ b ++ js ":" ++ out).
  split; [exact Hb|]. split.
  { unfold encodeErrorMessage. fold out sig. rewrite Hb. reflexivity. }
  rewrite categoriseMessage_prefixed. cbv zeta.
  rewrite substring_prefix, bool_decide_eq_true_2 by reflexivity.
  change (length _PROTOCOL_PREFIX + 1)%nat with (length _ERROR_PREFIX).
  by rewrite drop_app_length.
Qed.

End categories.

(** ** Greet types as bit fields *)

Section greet_type_bits.
Import GreetType.

Lemma greetTypeToNumber_bytes (a b : Z) :
  is_byte a -> is_byte b -> greetTypeToNumber [a; b] = a * 256 + b.
Proof. intros Ha Hb. exact (_bin2short_bytes a b [] Ha Hb). Qed.

Lemma js_shr_small (n k : Z) :
  0 <= n < 2 ^ 32 -> 0 <= k < 32 -> js_shr n k = n / 2 ^ k.
Proof.
  intros Hn Hk. unfold js_shr, ToUint32. rewrite (Z.mod_small n) by lia.
  rewrite (Z.mod_small k) by lia. rewrite (Z.mod_small k) by lia.
  apply Z.shiftr_div_pow2. lia.
Qed.

Lemma greetTypeFromNumber_u16 (n : Z) :
  0 <= n < 65536 -> greetTypeFromNumber n = [n / 256; n mod 256].
Proof.
  intros Hn. unfold greetTypeFromNumber.
  rewrite js_shr_small by lia. change (2 ^ 8) with 256.
  unfold js_and, fromCharCode, ToUint16.
  rewrite (ToInt32_small n) by lia. rewrite (ToInt32_small 255) by lia.
  change 255 with (Z.ones 8). rewrite Z.land_ones by lia.
  change (2 ^ 8) with 256. change (2 ^ 16) with 65536.
  rewrite (Z.mod_small (n / 256)) by (Z.div_mod_to_equations; lia).
  rewrite (Z.mod_small (n mod 256)) by (Z.div_mod_to_equations; lia).
  reflexivity.
Qed.

(** X13. Greet types and numbers.  [greetTypeToNumber] of two bytes is
    [a * 256 + b] and [greetTypeFromNumber] gives the two bytes back;
    [greetTypeFromNumber] of a number below 65536 is a byte string that
    [greetTypeToNumber] maps back to the number. *)
Theorem greetType_number_roundtrip :
  (forall a b : Z,
      is_byte a -> is_byte b ->
      greetTypeToNumber [a; b] = a * 256 + b
      /\ greetTypeFromNumber (greetTypeToNumber [a; b]) = [a; b])
  /\ (forall n : Z,
         0 <= n < 65536 ->
         bytestring (greetTypeFromNumber n)
         /\ greetTypeToNumber (greetTypeFromNumber n) = n).
Proof.
  split.
  - intros a b Ha Hb. rewrite greetTypeToNumber_bytes by assumption.
    split; [reflexivity|]. unfold is_byte in *.
    rewrite greetTypeFromNumber_u16 by lia.
    f_equal; [|f_equal]; Z.div_mod_to_equations; lia.
  - intros n Hn. rewrite greetTypeFromNumber_u16 by assumption.
    assert (is_byte (n / 256)) by (unfold is_byte; Z.div_mod_to_equations; lia).
    assert (is_byte (n mod 256))
      by (unfold is_byte; Z.div_mod_to_equations; lia).
    split; [repeat (apply Forall_cons_2; [assumption|]); apply Forall_nil_2|].
    rewrite greetTypeToNumber_bytes by assumption.
    Z.div_mod_to_equations. lia.
Qed.

Lemma land_pow2 (x k : Z) :
  0 <= k -> Z.land x (2 ^ k) = if Z.testbit x k then 2 ^ k else 0.
Proof.
  intros Hk. apply Z.bits_inj'. intros i Hi.
  rewrite Z.land_spec, Z.pow2_bits_eqb by lia.
  destruct (Z.eqb_spec k i) as [-> | Hne].
  - destruct (Z.testbit x i); [|by rewrite Z.bits_0].
    rewrite Z.pow2_bits_true by lia. reflexivity.
  - rewrite andb_false_r.
    destruct (Z.testbit x k); [|by rewrite Z.bits_0].
    rewrite Z.pow2_bits_false by lia. reflexivity.
Qed.

Lemma isBitSet_testbit (a b k : Z) :
  is_byte a -> is_byte b -> 0 <= k < 31 ->
  _isBitSetOnGreetType [a; b] k = Z.testbit (a * 256 + b) k.
Proof.
  intros Ha Hb Hk. unfold _isBitSetOnGreetType.
  rewrite greetTypeToNumber_bytes by assumption. unfold is_byte in *.
  rewrite js_shl_1 by lia. unfold js_and.
  assert (0 < 2 ^ k < 2 ^ 31) by (split; [lia | apply Z.pow_lt_mono_r; lia]).
  rewrite !ToInt32_small by lia. rewrite land_pow2 by lia.
  destruct (Z.testbit _ k); [apply Z.ltb_lt; lia | reflexivity].
Qed.

Lemma testbit_mask (bit k : Z) :
  0 <= bit < 16 -> 0 <= k < 16 ->
  Z.testbit (0xffff - 2 ^ bit) k = negb (k =? bit).
Proof.
  intros Hb Hk.
  assert (forallb (fun bit => forallb (fun k =>
            Bool.eqb (Z.testbit (0xffff - 2 ^ bit) k) (negb (k =? bit)))
            (map Z.of_nat (seq 0 16))) (map Z.of_nat (seq 0 16)) = true) as Hall
    by (vm_compute; reflexivity).
  rewrite forallb_forall in Hall.
  assert (forall i, 0 <= i < 16 -> In i (map Z.of_nat (seq 0 16))) as Hin.
  { intros i Hi. apply in_map_iff. exists (Z.to_nat i).
    split; [lia | apply in_seq; lia]. }
  specialize (Hall bit (Hin bit Hb)). rewrite forallb_forall in Hall.
  specialize (Hall k (Hin k Hk)). by apply Bool.eqb_prop in Hall.
Qed.

Lemma setBit_number_range (a b bit : Z) (v : bool) :
  is_byte a -> is_byte b -> 0 <= bit < 16 ->
  0 <= setBit_number [a; b] bit v < 65536
  /\ forall k, 0 <= k < 16 ->
       Z.testbit (setBit_number [a; b] bit v) k
       = if k =? bit then v else Z.testbit (a * 256 + b) k.
Proof.
  intros Ha Hb Hbit. unfold setBit_number.
  rewrite greetTypeToNumber_bytes by assumption. unfold is_byte in *.
  rewrite js_shl_1 by lia.
  assert (0 < 2 ^ bit <= 2 ^ 15)
    by (split; [lia | apply Z.pow_le_mono_r; lia]).
  change (2 ^ 15) with 32768 in *.
  set (n := a * 256 + b). assert (0 <= n < 65536) as Hn by (unfold n; lia).
  assert (forall x, 0 <= x -> (forall i, 16 <= i -> Z.testbit x i = false) ->
                    x < 65536) as Hsmall.
  { intros x Hx Hbits. destruct (Z.eq_dec x 0) as [-> | Hx0]; [lia|].
    destruct (Z.lt_ge_cases x 65536) as [? | Hge]; [assumption|].
    assert (16 <= Z.log2 x) as Hl
      by (change 16 with (Z.log2 65536); apply Z.log2_le_mono; lia).
    pose proof (Z.bit_log2 x ltac:(lia)) as Hb1. rewrite Hbits in Hb1 by lia.
    discriminate. }
  assert (forall i, 16 <= i -> Z.testbit n i = false) as Hnhi.
  { intros i Hi. apply Z.bits_above_log2; [lia|].
    destruct (Z.eq_dec n 0) as [-> | ?]; [cbn; lia|].
    assert (Z.log2 n < 16) by (apply Z.log2_lt_pow2; lia). lia. }
  destruct v.
  - unfold js_or. rewrite !ToInt32_small by lia. split.
    + split; [apply Z.lor_nonneg; lia|].
      apply Hsmall; [apply Z.lor_nonneg; lia|]. intros i Hi.
      rewrite Z.lor_spec, Hnhi, Z.pow2_bits_false by lia. reflexivity.
    + intros k Hk. rewrite Z.lor_spec, Z.pow2_bits_eqb by lia.
      rewrite (Z.eqb_sym bit k). destruct (k =? bit); [apply orb_true_r|].
      apply orb_false_r.
  - unfold js_and. rewrite !ToInt32_small by lia. split.
    + split; [apply Z.land_nonneg; lia|].
      apply Hsmall; [apply Z.land_nonneg; lia|]. intros i Hi.
      rewrite Z.land_spec, Hnhi by lia. reflexivity.
    + intros k Hk. rewrite Z.land_spec, testbit_mask by lia.
      destruct (k =? bit); [apply andb_false_r | apply andb_true_r].
Qed.

Lemma setBit_one_bit (table : list jsstring) (a b bit : Z) (v : bool)
    (nc : jsval) (t' : jsstring) :
  is_byte a -> is_byte b -> 0 <= bit < 16 ->
  GreetType._setBit table (Some [a; b]) bit (VBool v) nc = Ok t' ->
  (exists a' b', t' = [a'; b'] /\ is_byte a' /\ is_byte b')
  /\ forall k, 0 <= k < 16 ->
       _isBitSetOnGreetType t' k
       = if k =? bit then v else _isBitSetOnGreetType [a; b] k.
Proof.
  intros Ha Hb Hbit Hs.
  destruct (setBit_number_range a b bit v Ha Hb Hbit) as [Hr Hbits].
  assert (t' = greetTypeFromNumber (setBit_number [a; b] bit v)) as ->.
  { rewrite _setBit_cases in Hs. cbv zeta in Hs.
    remember (greetTypeFromNumber _) as t1 eqn:Et1 in Hs |- *.
    destruct (known table t1); [by injection Hs|].
    destruct (is_true_or_1 nc); [by injection Hs | discriminate Hs]. }
  rewrite greetTypeFromNumber_u16 by assumption.
  set (N := setBit_number [a; b] bit v) in *.
  assert (is_byte (N / 256)) as Ha'
    by (unfold is_byte; Z.div_mod_to_equations; lia).
  assert (is_byte (N mod 256)) as Hb'
    by (unfold is_byte; Z.div_mod_to_equations; lia).
  split; [eauto|]. intros k Hk.
  rewrite !isBitSet_testbit by (assumption || lia).
  replace (N / 256 * 256 + N mod 256) with N
    by (Z.div_mod_to_equations; lia).
  by apply Hbits.
Qed.

Lemma run_setBit_bits (m m' : Greeter.GreetMessage.t) (a b bit : Z)
    (v : bool) (nc : jsval) :
  Greeter.GreetMessage.greetType m = Some [a; b] ->
  is_byte a -> is_byte b -> 0 <= bit < 16 ->
  Greeter.run (Greeter._setBit m bit (VBool v) nc) = Ok m' ->
  (exists a' b',
      Greeter.GreetMessage.greetType m' = Some [a'; b']
      /\ is_byte a' /\ is_byte b')
  /\ forall k, 0 <= k < 16 ->
       Greeter._readBit m' k = if k =? bit then v else Greeter._readBit m k.
Proof.
  intros Hm Ha Hb Hbit Hr.
  apply run_setBit_inv in Hr as (t' & Hs & ->). rewrite Hm in Hs.
  destruct (setBit_one_bit _ a b bit v nc t' Ha Hb Hbit Hs)
    as [(a' & b' & -> & Ha' & Hb') Hbits].
  split; [by exists a', b'|]. intros k Hk.
  unfold Greeter._readBit. rewrite Hm.
  cbn [Greeter.GreetMessage.greetType Greeter.GreetMessage.set_greetType].
  by apply Hbits.
Qed.

(** X14. When [_setBit] on a greet message with a two-byte greet type
    succeeds for one of the bits 0 to 15, the new greet type is again two
    bytes, reading that bit gives the value that was set, and reading any
    other of the bits 0 to 15 gives what it gave before. *)
Theorem setBit_readBit :
  forall (m m' : Greeter.GreetMessage.t) (a b bit : Z) (v : bool)
         (nc : jsval),
    Greeter.GreetMessage.greetType m = Some [a; b] ->
    is_byte a -> is_byte b -> 0 <= bit < 16 ->
    Greeter.run (Greeter._setBit m bit (VBool v) nc) = Ok m' ->
    (exists a' b',
        Greeter.GreetMessage.greetType m' = Some [a'; b']
        /\ is_byte a' /\ is_byte b')
    /\ forall k, 0 <= k < 16 ->
         Greeter._readBit m' k = if k =? bit then v else Greeter._readBit m k.
Proof.
  intros m m' a b bit v nc Hm Ha Hb Hbit Hr.
  apply run_setBit_inv in Hr as (t' & Hs & ->). rewrite Hm in Hs.
  destruct (setBit_one_bit _ a b bit v nc t' Ha Hb Hbit Hs)
    as [(a' & b' & -> & Ha' & Hb') Hbits].
  split; [by exists a', b'|]. intros k Hk.
  unfold Greeter._readBit. rewrite Hm.
  cbn [Greeter.GreetMessage.greetType Greeter.GreetMessage.set_greetType].
  by apply Hbits.
Qed.

End greet_type_bits.

(** ** PKCS #1 v1.5 padding in [mpenc.ske] *)

Section pkcs.
Import Ske.

Lemma indexOf_unit_padding (padding : jsstring) (rest : jsstring) :
  Forall (fun c => c <> 0) padding ->
  indexOf_unit (padding ++ 0 :: rest) 0 = Some (length padding).
Proof.
  induction 1 as [|c padding Hc _ IH]; cbn [app indexOf_unit length].
  - reflexivity.
  - replace (c =? 0) with false by (symmetry; apply Z.eqb_neq; lia).
    rewrite IH. reflexivity.
Qed.

(** X15. [_pkcs1v15_decode] undoes [_pkcs1v15_encode]: for a message
    more than ten units shorter than the requested length, whatever the
    random padding, the encoding has exactly the requested length, starts
    with the unit 2 and decodes to the message; for a longer message the
    encoder raises. *)
Theorem pkcs1v15_roundtrip :
  forall (message : jsstring) (len : Z) (rnd : nat -> Z),
    (forall i, 0 <= rnd i < 255) ->
    (Z.of_nat (length message) < len - 10 ->
       exists enc,
         _pkcs1v15_encode message len rnd = Ok enc
         /\ Z.of_nat (length enc) = len
         /\ enc !! 0%nat = Some 2
         /\ _pkcs1v15_decode enc = Ok message)
    /\ (len - 10 <= Z.of_nat (length message) ->
          _pkcs1v15_encode message len rnd
          = Throw "message too long for encoding scheme").
Proof.
  intros message len rnd Hrnd. split; intros Hlen.
  - unfold _pkcs1v15_encode.
    replace (Z.of_nat (length message) <? len - 10) with true
      by (symmetry; apply Z.ltb_lt; lia).
    rewrite _assert_true, bind_Ok. cbv zeta.
    set (n := Z.to_nat (len - Z.of_nat (length message) - 2)).
    set (padding := map (fun i => fromCharCode (1 + rnd i)) (seq 0 n)).
    assert (length padding = n) as Hpl
      by (unfold padding; rewrite length_map, length_seq; reflexivity).
    assert (Forall (fun c => c <> 0) padding) as Hpad.
    { unfold padding. apply Forall_map, Forall_forall. intros i _.
      unfold fromCharCode, ToUint16. cbn beta.
      pose proof (Hrnd i). rewrite Z.mod_small by lia. lia. }
    change (fromCharCode 2) with 2. change (fromCharCode 0) with 0.
    eexists. split; [reflexivity|]. split; [|split].
    + cbn [app length]. rewrite length_app. cbn [length]. lia.
    + reflexivity.
    + unfold _pkcs1v15_decode.
      replace (10 <? _) with true.
      2:{ symmetry. apply Z.ltb_lt. cbn [app length].
          rewrite length_app. cbn [length]. lia. }
      rewrite _assert_true, bind_Ok. change (fromCharCode 0) with 0.
      cbn [app indexOf_unit]. change (2 =? 0) with false. cbv iota.
      rewrite indexOf_unit_padding by assumption.
      cbn [fmap option_fmap option_map].
      cbn [drop].
      replace (S (length padding)) with (length (padding ++ [0]))
        by (rewrite length_app; cbn [length]; lia).
      change (padding ++ 0 :: message) with (padding ++ [0] ++ message).
      rewrite app_assoc, drop_app_length. reflexivity.
  - unfold _pkcs1v15_encode.
    replace (Z.of_nat (length message) <? len - 10) with false
      by (symmetry; apply Z.ltb_ge; lia).
    reflexivity.
Qed.

End pkcs.

(** ** The upflow of the signature key exchange *)

Module SkeMember := Ske.SignatureKeyExchangeMember.
Module SkeMessage := Ske.SignatureKeyExchangeMessage.

Section ske_chain.
Context `{Primitives}.
Import Ske.

Lemma indexOf_lookup (l : list jsstring) (x : jsstring) (i : nat) :
  NoDup l -> l !! i = Some x -> indexOf l x = Some i.
Proof.
  intros Hnd Hi. destruct (indexOf l x) as [j|] eqn:Ej.
  - f_equal. apply indexOf_Some in Ej. by eapply NoDup_lookup.
  - apply indexOf_None in Ej. destruct Ej. by eapply list_elem_of_lookup_2.
Qed.

(** One member's turn. *)
Lemma upflow_turn (this : SkeMember.t) (message : SkeMessage.t) (rnd : Entropy)
    (members nonces pubKeys : list jsstring) (pos : nat) :
  SkeMessage.members message = Some members ->
  SkeMessage.nonces message = Some nonces ->
  SkeMessage.pubKeys message = Some pubKeys ->
  NoDup members -> members !! pos = Some (SkeMember.id this) ->
  (S pos = length members -> SkeMember.staticPrivKey this <> None) ->
  exists this' out,
    upflow this message rnd = Ok (this', out)
    /\ SkeMember.id this' = SkeMember.id this
    /\ SkeMember.members this' = members
    /\ SkeMember.nonce this' = Some (rnd 0%nat)
    /\ SkeMember.ephemeralPrivKey this' = Some (rnd 1%nat)
    /\ SkeMember.ephemeralPubKey this' = Some (eddsa_publickey (rnd 1%nat))
    /\ SkeMember.nonces this' = Some (nonces ++ [rnd 0%nat])
    /\ SkeMember.ephemeralPubKeys this'
       = Some (pubKeys ++ [eddsa_publickey (rnd 1%nat)])
    /\ SkeMessage.source out = SkeMember.id this
    /\ SkeMessage.members out = Some members
    /\ SkeMessage.nonces out = Some (nonces ++ [rnd 0%nat])
    /\ SkeMessage.pubKeys out = Some (pubKeys ++ [eddsa_publickey (rnd 1%nat)])
    /\ (if bool_decide (S pos = length members)
        then SkeMessage.dest out = [] /\ SkeMessage.flow out = js "downflow"
             /\ SkeMember.sessionId this'
                = Some (_computeSid members (nonces ++ [rnd 0%nat]))
             /\ exists priv,
                  SkeMember.staticPrivKey this = Some priv
                  /\ SkeMessage.sessionSignature out
                     = Some (smallrsasign
                               (SkeMember.id this ++ eddsa_publickey (rnd 1%nat)
                                ++ _computeSid members
                                     (nonces ++ [rnd 0%nat])) priv)
        else members !! S pos = Some (SkeMessage.dest out)
             /\ SkeMessage.flow out = SkeMessage.flow message
             /\ SkeMember.sessionId this' = SkeMember.sessionId this
             /\ SkeMessage.sessionSignature out
                = SkeMessage.sessionSignature message).
Proof.
  intros Hm Hn Hp Hnd Hpos Hkey. unfold upflow. rewrite Hm.
  unfold _noDuplicatesInList. rewrite bool_decide_eq_true_2 by assumption.
  rewrite _assert_true, bind_Ok.
  rewrite (indexOf_lookup _ _ _ Hnd Hpos), Hn, Hp. cbv zeta.
  assert (pos < length members)%nat as Hlt by (by eapply lookup_lt_Some).
  case_bool_decide as Elast.
  - rewrite bool_decide_eq_true_2 by lia.
    destruct (SkeMember.staticPrivKey this) as [priv|] eqn:Epriv;
      [|by destruct Hkey; [lia|]].
    unfold _computeSessionSig.
    cbn [SkeMember.sessionId SkeMember.ephemeralPubKey
         SkeMember.staticPrivKey SkeMember.id].
    rewrite bind_Ok.
    do 2 eexists. split; [reflexivity|].
    cbn [SkeMember.id SkeMember.members SkeMember.nonce
         SkeMember.ephemeralPrivKey SkeMember.ephemeralPubKey
         SkeMember.nonces SkeMember.ephemeralPubKeys SkeMember.sessionId
         SkeMessage.source SkeMessage.members SkeMessage.nonces
         SkeMessage.pubKeys SkeMessage.dest SkeMessage.flow
         SkeMessage.sessionSignature].
    repeat (split; [reflexivity|]). eauto.
  - rewrite bool_decide_eq_false_2 by lia.
    do 2 eexists. split; [reflexivity|].
    cbn [SkeMember.id SkeMember.members SkeMember.nonce
         SkeMember.ephemeralPrivKey SkeMember.ephemeralPubKey
         SkeMember.nonces SkeMember.ephemeralPubKeys SkeMember.sessionId
         SkeMessage.source SkeMessage.members SkeMessage.nonces
         SkeMessage.pubKeys SkeMessage.dest SkeMessage.flow
         SkeMessage.sessionSignature].
    repeat (split; [reflexivity|]). split; [|done].
    replace (pos + 1)%nat with (S pos) by lia.
    destruct (lookup_lt_is_Some_2 members (S pos) ltac:(lia)) as [d Hd].
    rewrite Hd. f_equal. symmetry. by apply nth_lookup_Some.
Qed.

Lemma pass_upflow_chain (others : list (SkeMember.t * Entropy)) :
  forall (message : SkeMessage.t) (pre nonces pubKeys : list jsstring),
    others <> [] ->
    SkeMessage.members message
    = Some (pre ++ map (fun p => SkeMember.id p.1) others) ->
    SkeMessage.nonces message = Some nonces ->
    SkeMessage.pubKeys message = Some pubKeys ->
    NoDup (pre ++ map (fun p => SkeMember.id p.1) others) ->
    (forall p, last others = Some p -> SkeMember.staticPrivKey p.1 <> None) ->
    exists others' out,
      pass_upflow others message = Ok (others', out)
      /\ SkeMessage.dest out = [] /\ SkeMessage.flow out = js "downflow"
      /\ SkeMessage.members out
         = Some (pre ++ map (fun p => SkeMember.id p.1) others)
      /\ SkeMessage.nonces out
         = Some (nonces ++ map (fun p => p.2 0%nat) others)
      /\ SkeMessage.pubKeys out
         = Some (pubKeys
                 ++ map (fun p => eddsa_publickey (p.2 1%nat)) others)
      /\ map SkeMember.id others' = map (fun p => SkeMember.id p.1) others
      /\ Forall (fun m' => SkeMember.members m'
                           = pre ++ map (fun p => SkeMember.id p.1) others)
           others'
      /\ exists m',
           last others' = Some m'
           /\ SkeMessage.source out = SkeMember.id m'
           /\ SkeMember.sessionId m'
              = Some (_computeSid
                        (pre ++ map (fun p => SkeMember.id p.1) others)
                        (nonces ++ map (fun p => p.2 0%nat) others)).
Proof.
  induction others as [|[m rnd] others IH];
    intros message pre nonces pubKeys Hne Hm Hn Hp Hnd Hkey; [done|].
  cbn [map fst snd] in *.
  assert ((pre ++ SkeMember.id m :: map (fun p => SkeMember.id p.1) others)
            !! length pre = Some (SkeMember.id m)) as Hpos
    by (by rewrite lookup_app_r, Nat.sub_diag by lia).
  destruct (upflow_turn m message rnd _ nonces pubKeys (length pre)
              Hm Hn Hp Hnd Hpos)
    as (m' & out & Hup & Hid & Hmm & _ & _ & _ & _ & _ & Hsrc & Hom & Hon
        & Hop & Hlast).
  { intros Hl. destruct others as [|? ?].
    - by apply (Hkey (m, rnd)).
    - rewrite length_app in Hl. cbn [length map] in Hl. lia. }
  cbn [pass_upflow]. rewrite Hup, bind_Ok. cbv beta iota.
  destruct others as [|q others].
  - cbn [pass_upflow map] in *. rewrite bind_Ok. cbv beta iota.
    rewrite bool_decide_eq_true_2 in Hlast
      by (rewrite length_app; cbn [length]; lia).
    destruct Hlast as (Hd & Hf & Hsid & _).
    exists [m'], out. split; [reflexivity|].
    repeat (split; [assumption|]).
    split; [cbn [map]; by rewrite Hid|].
    split; [by repeat constructor|].
    exists m'. split; [reflexivity|]. by rewrite Hsrc, Hid.
  - rewrite bool_decide_eq_false_2 in Hlast
      by (rewrite length_app; cbn [length map]; lia).
    assert (pre ++ SkeMember.id m
                   :: map (fun p => SkeMember.id p.1) (q :: others)
            = (pre ++ [SkeMember.id m])
              ++ map (fun p => SkeMember.id p.1) (q :: others))
      as Eapp by (by rewrite <- app_assoc).
    rewrite Eapp in *.
    destruct (IH out (pre ++ [SkeMember.id m]) (nonces ++ [rnd 0%nat])
                (pubKeys ++ [eddsa_publickey (rnd 1%nat)])
                ltac:(done) Hom Hon Hop Hnd Hkey)
      as (others' & out' & Hpass & Hd & Hf & Hm' & Hn' & Hp' & Hids & Hall
          & m'' & Hl & Hs & Hsid).
    rewrite Hpass, bind_Ok. cbv beta iota.
    exists (m' :: others'), out'. split; [reflexivity|].
    clear IH. rewrite <- ?app_assoc in *. cbn [app] in *.
    repeat (split; [assumption|]).
    split; [cbn [map] in *; by rewrite Hid, Hids|].
    split; [by constructor|].
    exists m''. split; [|done].
    destruct others' as [|? ?]; [done|]. exact Hl.
Qed.


End ske_chain.

(** ** The states of a Greeting *)

Section greeting_states.
Context `{Primitives} `{CodecConstants} `{!Greeter.SubProtocols}.
Import Greeter Greeter.Greeting.

Lemma _assertState_inv (g : Greeting.t) (valid : list STATE.t)
    (msg : string) (u : unit) :
  _assertState g valid msg = Ok u -> _opState g ∈ valid.
Proof.
  unfold _assertState. intros Ha. apply _assert_inv in Ha.
  apply existsb_exists in Ha as (v & Hin & Hv).
  apply bool_decide_eq_true in Hv. rewrite Hv. by apply list_elem_of_In.
Qed.

Lemma _assertState_quit (g : Greeting.t) (valid : list STATE.t)
    (msg : string) :
  _opState g = STATE.QUIT -> STATE.QUIT ∉ valid ->
  _assertState g valid msg = Throw msg.
Proof.
  intros Hq Hn. unfold _assertState.
  destruct (existsb _ valid) eqn:E; [|reflexivity].
  apply existsb_exists in E as (v & Hin & Hv).
  apply bool_decide_eq_true in Hv. destruct Hn. rewrite <- Hq, Hv.
  by apply list_elem_of_In.
Qed.

Lemma _mergeMessages_source (g : Greeting.t) (c : option CliquesMessage.t)
    (a : option AskeMessage) (p : GreetMessage.t) :
  _mergeMessages g c a = Ok (Some p) ->
  GreetMessage.source p = id g /\ GreetMessage.greetType p = None.
Proof.
  unfold _mergeMessages. intros Hm.
  destruct c as [c0|], a as [a0|]; try discriminate.
  - bind_split Hm as u eqn Eu. by injection Hm as <-.
  - rewrite bind_Ok in Hm. by injection Hm as <-.
  - rewrite bind_Ok in Hm. by injection Hm as <-.
Qed.

(** [_mergeMessages] with an ASKE message never returns [null]. *)
Lemma _mergeMessages_Some (g : Greeting.t) (c : option CliquesMessage.t)
    (a : AskeMessage) (p : option GreetMessage.t) :
  _mergeMessages g c (Some a) = Ok p -> exists p0, p = Some p0.
Proof.
  unfold _mergeMessages. intros Hm. destruct c as [c0|].
  - bind_split Hm as u eqn Eu. injection Hm as <-. eauto.
  - rewrite bind_Ok in Hm. injection Hm as <-. eauto.
Qed.

Lemma quit_inv (g g' : Greeting.t) (r : option GreetMessage.t) :
  quit g = Ok (g', r) ->
  _opState g' = STATE.QUIT /\ id g' = id g
  /\ (_opState g = STATE.QUIT -> g' = g /\ r = None)
  /\ (_opState g <> STATE.QUIT ->
        getEphemeralPrivKey g <> None
        /\ exists p, r = Some p
                     /\ GreetMessage.source p = id g
                     /\ GreetMessage.greetType p
                        = Some GREET_TYPE.QUIT_DOWN).
Proof.
  unfold quit. intros Hq. case_bool_decide as Es.
  - injection Hq as <- <-. done.
  - bind_split Hq as u eqn Ek. bind_split Hq as c eqn Ec.
    bind_split Hq as [a am] eqn Ea. bind_split Hq as p0 eqn Em.
    bind_split Hq as p1 eqn Et.
    apply assign_greetType_inv in Et as (q & -> & ->).
    apply _mergeMessages_source in Em as [Hsrc _].
    apply _assert_inv, bool_decide_eq_true in Ek.
    injection Hq as <- <-. cbn [_opState id _updateOpState with_opState].
    repeat split; try done. eauto.
Qed.

(** X17. QUIT is final.  A [quit] that succeeds leaves the Greeting in
    state QUIT, and returns no packet exactly when it was there already;
    from then on [quit] returns nothing, [_processMessage] ignores every
    message, and [start], [include], [exclude], [refresh] and
    [getResultState] raise. *)
Theorem quit_is_final :
  forall (g g' : Greeting.t) (r : option GreetMessage.t),
    quit g = Ok (g', r) ->
    _opState g' = STATE.QUIT
    /\ (r = None <-> _opState g = STATE.QUIT)
    /\ quit g' = Ok (g', None)
    /\ (forall m rndC rndA, _processMessage g' m rndC rndA = Ok (g', None))
    /\ (forall others rndC rndA, raises (start g' others rndC rndA))
    /\ (forall others rndC rndA, raises (include g' others rndC rndA))
    /\ (forall others rndC, raises (exclude g' others rndC))
    /\ (forall rndC, raises (refresh g' rndC))
    /\ raises (getResultState g').
Proof.
  intros g g' r Hq. apply quit_inv in Hq as (Hs & _ & Hq1 & Hq2).
  split; [exact Hs|]. split.
  { split.
    - intros ->. destruct (decide (_opState g = STATE.QUIT)) as [|Hn];
        [done|]. by destruct (Hq2 Hn) as (_ & p & ? & _).
    - intros Hg. by destruct (Hq1 Hg). }
  split. { unfold quit. by rewrite bool_decide_eq_true_2. }
  split. { intros m rndC rndA. unfold _processMessage.
           by rewrite bool_decide_eq_true_2. }
  split. { intros others rndC rndA. unfold start.
           rewrite _assertState_quit; [by eexists | done |].
           rewrite !not_elem_of_cons. split; [done | apply not_elem_of_nil]. }
  split. { intros others rndC rndA. unfold include.
           rewrite _assertState_quit; [by eexists | done |].
           rewrite !not_elem_of_cons. split; [done | apply not_elem_of_nil]. }
  split. { intros others rndC. unfold exclude.
           rewrite _assertState_quit; [by eexists | done |].
           rewrite !not_elem_of_cons. split; [done | apply not_elem_of_nil]. }
  split. { intros rndC. unfold refresh.
           rewrite _assertState_quit; [by eexists | done |].
           rewrite !not_elem_of_cons.
           repeat (split; [done|]). apply not_elem_of_nil. }
  unfold getResultState. rewrite Hs. by eexists.
Qed.

Lemma one_member_inv (p : GreetMessage.t) (b : bool) :
  one_member p = Ok b ->
  exists l, GreetMessage.members p = Some l
            /\ b = bool_decide (length l = 1%nat).
Proof.
  unfold one_member. destruct (GreetMessage.members p) as [l|];
    [|discriminate]. intros [= <-]. eauto.
Qed.

(** X18. The operations and the states.  [start] succeeds only from NULL
    with members to add and leads to INIT_UPFLOW with an
    INIT_INITIATOR_UP packet, or to QUIT with a QUIT_DOWN packet;
    [include] only from READY, to AUX_UPFLOW with an
    INCLUDE_AUX_INITIATOR_UP packet; [exclude] only from READY and never
    for the own id, to READY or AUX_DOWNFLOW with an
    EXCLUDE_AUX_INITIATOR_DOWN packet, or to QUIT with no packet;
    [refresh] only from READY, INIT_DOWNFLOW or AUX_DOWNFLOW, keeping
    the state, with a REFRESH_AUX_INITIATOR_DOWN packet.  Every packet
    has the own id as its source. *)
Theorem operations_move_between_states :
  forall g : Greeting.t,
    (forall others rndC rndA g' r,
        start g others rndC rndA = Ok (g', r) ->
        _opState g = STATE.NULL /\ others <> [] /\ id g' = id g
        /\ exists p,
             r = Some p /\ GreetMessage.source p = id g
             /\ (_opState g' = STATE.INIT_UPFLOW
                 /\ GreetMessage.greetType p
                    = Some GREET_TYPE.INIT_INITIATOR_UP
                 \/ _opState g' = STATE.QUIT
                    /\ GreetMessage.greetType p
                       = Some GREET_TYPE.QUIT_DOWN))
    /\ (forall others rndC rndA g' r,
           include g others rndC rndA = Ok (g', r) ->
           _opState g = STATE.READY /\ others <> [] /\ id g' = id g
           /\ _opState g' = STATE.AUX_UPFLOW
           /\ exists p,
                r = Some p /\ GreetMessage.source p = id g
                /\ GreetMessage.greetType p
                   = Some GREET_TYPE.INCLUDE_AUX_INITIATOR_UP)
    /\ (forall others rndC g' r,
           exclude g others rndC = Ok (g', r) ->
           _opState g = STATE.READY /\ others <> [] /\ (id g ∉ others)
           /\ id g' = id g
           /\ (r = None /\ _opState g' = STATE.QUIT
               \/ (_opState g' = STATE.READY
                   \/ _opState g' = STATE.AUX_DOWNFLOW)
                  /\ exists p,
                       r = Some p /\ GreetMessage.source p = id g
                       /\ GreetMessage.greetType p
                          = Some GREET_TYPE.EXCLUDE_AUX_INITIATOR_DOWN))
    /\ (forall rndC g' r,
           refresh g rndC = Ok (g', r) ->
           (_opState g = STATE.READY \/ _opState g = STATE.INIT_DOWNFLOW
            \/ _opState g = STATE.AUX_DOWNFLOW)
           /\ _opState g' = _opState g /\ id g' = id g
           /\ exists p,
                r = Some p /\ GreetMessage.source p = id g
                /\ GreetMessage.greetType p
                   = Some GREET_TYPE.REFRESH_AUX_INITIATOR_DOWN).
Proof.
  intros g. split; [|split; [|split]].
  - intros others rndC rndA g' r Hs. unfold start in Hs.
    bind_split Hs as u0 eqn Es. bind_split Hs as u1 eqn En.
    bind_split Hs as [c oc] eqn Ec. bind_split Hs as [a1 oa] eqn Ea.
    bind_split Hs as p0 eqn Em. bind_split Hs as p1 eqn Et.
    bind_split Hs as lastMan eqn El.
    apply _assertState_inv in Es. apply _assert_inv, negb_true_iff in En.
    apply bool_decide_eq_false in En.
    apply list_elem_of_singleton in Es.
    apply assign_greetType_inv in Et as (q & -> & ->).
    apply _mergeMessages_source in Em as [Hsrc _].
    split; [exact Es|]. split; [exact En|].
    destruct lastMan.
    + apply one_member_inv in El as (l & Hl & _).
      apply quit_inv in Hs as (Hq & Hid & _ & Hq2).
      destruct Hq2 as (_ & p & -> & Hps & Hpt).
      { cbn [_opState with_members]. rewrite Es. discriminate. }
      split; [exact Hid|]. exists p. split; [reflexivity|].
      split; [exact Hps|]. right. by split.
    + injection Hs as <- <-. split; [reflexivity|].
      eexists. split; [reflexivity|]. split; [exact Hsrc|]. by left.
  - intros others rndC rndA g' r Hs. unfold include in Hs.
    bind_split Hs as u0 eqn Es. bind_split Hs as u1 eqn En.
    bind_split Hs as [c oc] eqn Ec. bind_split Hs as [a1 oa] eqn Ea.
    bind_split Hs as p0 eqn Em. bind_split Hs as p1 eqn Et.
    apply _assertState_inv in Es. apply _assert_inv, negb_true_iff in En.
    apply bool_decide_eq_false in En.
    apply list_elem_of_singleton in Es.
    apply assign_greetType_inv in Et as (q & -> & ->).
    apply _mergeMessages_source in Em as [Hsrc _].
    injection Hs as <- <-. repeat (split; [done|]).
    eexists. split; [reflexivity|]. by split.
  - intros others rndC g' r Hs. unfold exclude in Hs.
    bind_split Hs as u0 eqn Es. bind_split Hs as u1 eqn En.
    bind_split Hs as u2 eqn Ei.
    bind_split Hs as [c oc] eqn Ec. bind_split Hs as [a1 oa] eqn Ea.
    bind_split Hs as p0 eqn Em. bind_split Hs as p1 eqn Et.
    bind_split Hs as lastMan eqn El.
    apply _assertState_inv in Es. apply _assert_inv, negb_true_iff in En.
    apply bool_decide_eq_false in En.
    apply _assert_inv, bool_decide_eq_true, indexOf_None in Ei.
    apply list_elem_of_singleton in Es.
    apply assign_greetType_inv in Et as (q & -> & ->).
    apply _mergeMessages_source in Em as [Hsrc _].
    repeat (split; [done|]).
    destruct lastMan.
    + bind_split Hs as [g1 r1] eqn Eq. injection Hs as <- <-.
      apply quit_inv in Eq as (Hq & Hid & _). split; [exact Hid|]. by left.
    + injection Hs as <- <-. split; [reflexivity|]. right. split.
      * cbn [_updateOpState with_opState _opState].
        destruct (aske_isSessionAcknowledged _); [by left | by right].
      * eexists. split; [reflexivity|]. by split.
  - intros rndC g' r Hs. unfold refresh in Hs.
    bind_split Hs as u0 eqn Es. bind_split Hs as [c oc] eqn Ec.
    bind_split Hs as p0 eqn Em. bind_split Hs as p1 eqn Et.
    apply _assertState_inv in Es.
    apply assign_greetType_inv in Et as (q & -> & ->).
    apply _mergeMessages_source in Em as [Hsrc _].
    injection Hs as <- <-. split.
    { rewrite !elem_of_cons in Es. rewrite elem_of_nil in Es. tauto. }
    repeat (split; [done|]).
    eexists. split; [reflexivity|]. by split.
Qed.

Lemma left_out_test (g : Greeting.t) (m : GreetMessage.t) :
  match GreetMessage.members m with
  | Some l =>
      (0 <? Z.of_nat (length l)) && bool_decide (Ske.indexOf l (id g) = None)
  | None => false
  end = true <-> left_out g m.
Proof.
  unfold left_out. destruct (GreetMessage.members m) as [l|].
  - rewrite andb_true_iff, Z.ltb_lt, bool_decide_eq_true, indexOf_None.
    split.
    + intros [Hl Hn]. exists l. split; [done|]. split; [|done].
      intros ->. cbn in Hl. lia.
    + intros (l' & [= <-] & Hne & Hn). split; [|done].
      destruct l; [done | cbn; lia].
  - split; [done | by intros (l & ? & _)].
Qed.

Lemma with_session_state (g : Greeting.t) :
  _opState (with_session g) = _opState g /\ id (with_session g) = id g.
Proof. done. Qed.

(** X19. [_processMessage] never changes the state or the id of the
    Greeting itself.  When it succeeds, it returns [null] only if the
    Greeting is in state QUIT, or if the message does not leave this
    member out and is addressed to another member or comes from this
    one; in those cases the Greeting is left as it was. *)
Theorem processMessage_ignored :
  forall (g g' : Greeting.t) (m : GreetMessage.t) (rndC rndA : Entropy)
         (r : option ProcessResult.t),
    _processMessage g m rndC rndA = Ok (g', r) ->
    _opState g' = _opState g /\ id g' = id g
    /\ (r = None -> g' = g)
    /\ (r = None <->
        _opState g = STATE.QUIT
        \/ ~ left_out g m
           /\ (GreetMessage.dest m <> [] /\ GreetMessage.dest m <> id g
               \/ GreetMessage.source m = id g)).
Proof.
  intros g g' m rndC rndA r Hp. unfold _processMessage in Hp.
  case_bool_decide as Eq.
  { injection Hp as <- <-.
    split; [done|]. split; [done|]. split; [done|]. split; [by left|done]. }
  pose proof (left_out_test g m) as Hlo.
  destruct (match GreetMessage.members m with Some _ => _ | None => _ end).
  { cbn [negb] in Hp. injection Hp as <- <-.
    split; [done|]. split; [done|]. split; [done|]. split; [done|].
    intros [? | [Hn _]]; [done|]. destruct Hn. by apply Hlo. }
  assert (~ left_out g m) as Hin by (intros Hl; by apply Hlo in Hl).
  clear Hlo.
  destruct (negb (bool_decide (GreetMessage.dest m = []))
            && negb (bool_decide (GreetMessage.dest m = id g))) eqn:Ed.
  { injection Hp as <- <-.
    split; [done|]. split; [done|]. split; [done|]. split; [|done].
    intros _. right. split; [done|]. left.
    apply andb_true_iff in Ed as [E1 E2].
    apply negb_true_iff, bool_decide_eq_false in E1, E2. done. }
  case_bool_decide as Es.
  { injection Hp as <- <-.
    split; [done|]. split; [done|]. split; [done|]. split; [|done].
    intros _. right. split; [done|]. by right. }
  assert (~ (GreetMessage.dest m <> [] /\ GreetMessage.dest m <> id g))
    as Hd.
  { intros [Hd1 Hd2]. apply andb_false_iff in Ed as [E|E];
      apply negb_false_iff, bool_decide_eq_true in E; done. }
  bind_split Hp as inC eqn Ec.
  match type of Hp with
  | mbind _ ?x = _ =>
      destruct x as [[[g1 om] ns]|] eqn:Ein; [|discriminate Hp]
  end.
  rewrite bind_Ok in Hp. cbv beta iota in Hp.
  assert (_opState g1 = _opState g /\ id g1 = id g) as [Hs1 Hi1].
  { clear Hp. case_bool_decide; [by injection Ein as <- _ _|].
    destruct (isDownflow m).
    - bind_split Ein as c eqn E1. bind_split Ein as [a oa] eqn E2.
      bind_split Ein as p0 eqn E3. destruct p0 as [p0|].
      + bind_split Ein as p1 eqn E4. bind_split Ein as p2 eqn E5.
        by injection Ein as <- _ _.
      + by injection Ein as <- _ _.
    - bind_split Ein as [c oc] eqn E1. bind_split Ein as [a oa] eqn E2.
      bind_split Ein as p0 eqn E3. bind_split Ein as p1 eqn E4.
      bind_split Ein as p2 eqn E5. case_bool_decide.
      + bind_split Ein as p3 eqn E6. by injection Ein as <- _ _.
      + by injection Ein as <- _ _. }
  destruct (aske_isSessionAcknowledged _); injection Hp as <- <-;
    (split; [done|]); (split; [done|]); (split; [done|]);
    (split; [done|]); intros [? | [_ [? | ?]]]; done.
Qed.

End greeting_states.

(** ** The greet type of a reply *)

Section reply_type.
Context `{Primitives} `{CodecConstants} `{!Greeter.SubProtocols}.
Import Greeter Greeter.Greeting.

Lemma testbit_0x70 (i : Z) :
  0 <= i -> Z.testbit 112 i = (4 <=? i) && (i <=? 6).
Proof.
  intros Hi. destruct (Z.le_gt_cases 7 i) as [Hge|Hlt].
  - rewrite Z.bits_above_log2 by (cbn; lia).
    symmetry. apply andb_false_iff. right. apply Z.leb_gt. lia.
  - assert (i = 0 \/ i = 1 \/ i = 2 \/ i = 3 \/ i = 4 \/ i = 5 \/ i = 6)
      as Hc by lia.
    destruct Hc as [-> | [-> | [-> | [-> | [-> | [-> | ->]]]]]];
      reflexivity.
Qed.

(** The operation of a greet type is read from its bits 4 to 6. *)
Lemma getOperation_bits (m1 m2 : GreetMessage.t) (a1 b1 a2 b2 : Z) :
  GreetMessage.greetType m1 = Some [a1; b1] ->
  GreetMessage.greetType m2 = Some [a2; b2] ->
  is_byte a1 -> is_byte b1 -> is_byte a2 -> is_byte b2 ->
  (forall k, 4 <= k <= 6 -> _readBit m1 k = _readBit m2 k) ->
  getOperation m1 = getOperation m2.
Proof.
  intros Ht1 Ht2 Ha1 Hb1 Ha2 Hb2 Hbits.
  unfold getOperation, getGreetTypeNumber. rewrite Ht1, Ht2, !bind_Ok.
  rewrite !greetTypeToNumber_bytes by assumption.
  do 3 f_equal. unfold js_and.
  change (ToInt32 GreetType._OPERATION_MASK) with 112.
  unfold is_byte in *. rewrite !ToInt32_small by lia.
  apply Z.bits_inj'. intros i Hi.
  rewrite !Z.land_spec, testbit_0x70 by assumption.
  destruct ((4 <=? i) && (i <=? 6)) eqn:E; [|by rewrite !andb_false_r].
  rewrite !andb_true_r. apply andb_true_iff in E as [E1 E2].
  apply Z.leb_le in E1, E2. specialize (Hbits i ltac:(lia)).
  unfold _readBit in Hbits. rewrite Ht1, Ht2 in Hbits.
  rewrite !isBitSet_testbit in Hbits by (assumption || lia). exact Hbits.
Qed.

Lemma readBit_set_greetType (p : GreetMessage.t) (t : option jsstring)
    (m : GreetMessage.t) (k : Z) :
  GreetMessage.greetType m = t ->
  _readBit (GreetMessage.set_greetType t p) k = _readBit m k.
Proof. intros <-. reflexivity. Qed.

(** X20. The greet type of a reply.  When [_processMessage] answers a
    message whose greet type is two bytes, the reply has the bits 0 to 15
    of that greet type, except that the initiator bit is clear, that in
    the reply to a downflow message the GKA bit is clear, and that in the
    reply to an upflow message the downflow bit is set exactly when the
    reply goes to everybody; the operation of the reply is the operation
    of the message. *)
Theorem processMessage_reply_type :
  forall (g g' : Greeting.t) (m out : GreetMessage.t) (rndC rndA : Entropy)
         (r : ProcessResult.t) (a b : Z),
    _processMessage g m rndC rndA = Ok (g', Some r) ->
    ProcessResult.decodedMessage r = Some out ->
    GreetMessage.greetType m = Some [a; b] -> is_byte a -> is_byte b ->
    (forall k, 0 <= k < 16 ->
       _readBit out k
       = if k =? GreetType._INIT_BIT then false
         else if isDownflow m
              then (if k =? GreetType._GKA_BIT then false else _readBit m k)
              else (if k =? GreetType._DOWN_BIT
                    then bool_decide (GreetMessage.dest out = [])
                    else _readBit m k))
    /\ getOperation out = getOperation m.
Proof.
  intros g g' m out rndC rndA r a b Hp Hout Ht Ha Hb.
  unfold _processMessage in Hp.
  case_bool_decide; [discriminate|].
  destruct (match GreetMessage.members m with Some _ => _ | None => _ end).
  { cbn [negb] in Hp. injection Hp as <- <-. discriminate. }
  destruct (negb _ && negb _); [discriminate|].
  case_bool_decide; [discriminate|].
  bind_split Hp as inC eqn Ec.
  match type of Hp with
  | mbind _ ?x = _ =>
      destruct x as [[[g1 om] ns]|] eqn:Ein; [|discriminate Hp]
  end.
  rewrite bind_Ok in Hp. cbv beta iota in Hp.
  assert (om = Some out) as ->.
  { destruct (aske_isSessionAcknowledged _); injection Hp as <- <-;
      exact Hout. }
  clear Hp Ec. case_bool_decide; [discriminate Ein|].
  assert (exists a' b', GreetMessage.greetType out = Some [a'; b']
                        /\ is_byte a' /\ is_byte b'
          /\ forall k, 0 <= k < 16 ->
       _readBit out k
       = if k =? GreetType._INIT_BIT then false
         else if isDownflow m
              then (if k =? GreetType._GKA_BIT then false else _readBit m k)
              else (if k =? GreetType._DOWN_BIT
                    then bool_decide (GreetMessage.dest out = [])
                    else _readBit m k)) as (a' & b' & Hto & Ha' & Hb' & Hbits).
  { destruct (isDownflow m) eqn:Edown.
    - bind_split Ein as c eqn E1. bind_split Ein as [am oa] eqn E2.
      bind_split Ein as p0 eqn E3. destruct p0 as [p0|]; [|discriminate].
      bind_split Ein as p1 eqn E4. bind_split Ein as p2 eqn E5.
      injection Ein as _ <- _.
      unfold clearInitiator in E4. unfold clearGKA in E5.
      destruct (run_setBit_bits
                  (GreetMessage.set_greetType (GreetMessage.greetType m) p0)
                  p1 a b GreetType._INIT_BIT false (VBool true) Ht
                  Ha Hb ltac:(done) E4)
        as [(a1' & b1' & Ht1 & Ha1 & Hb1) Hk1].
      destruct (run_setBit_bits p1 p2 a1' b1' GreetType._GKA_BIT false
                  VUndef Ht1 Ha1 Hb1 ltac:(done) E5)
        as [(a2' & b2' & Ht2 & Ha2 & Hb2) Hk2].
      exists a2', b2'. repeat (split; [assumption|]).
      intros k Hk. rewrite Hk2, Hk1 by assumption.
      rewrite (readBit_set_greetType _ _ m) by reflexivity.
      destruct (Z.eqb_spec k GreetType._INIT_BIT) as [->|]; [reflexivity|].
      reflexivity.
    - bind_split Ein as [c oc] eqn E1. bind_split Ein as [am oa] eqn E2.
      bind_split Ein as p0 eqn E3. bind_split Ein as p1 eqn E4.
      bind_split Ein as p2 eqn E5.
      apply assign_greetType_inv in E4 as (q & -> & ->).
      unfold clearInitiator in E5.
      destruct (run_setBit_bits
                  (GreetMessage.set_greetType (GreetMessage.greetType m) q)
                  p2 a b GreetType._INIT_BIT false VUndef Ht
                  Ha Hb ltac:(done) E5)
        as [(a1' & b1' & Ht1 & Ha1 & Hb1) Hk1].
      assert (forall k, 0 <= k < 16 ->
                _readBit p2 k
                = if k =? GreetType._INIT_BIT then false else _readBit m k)
        as Hk1'.
      { intros k Hk. rewrite Hk1 by assumption.
        by rewrite (readBit_set_greetType _ _ m). }
      case_bool_decide as Edest.
      + bind_split Ein as p3 eqn E6. injection Ein as _ <- _.
        unfold setDownflow in E6.
        destruct (run_setBit_bits p2 p3 a1' b1' GreetType._DOWN_BIT true
                    VUndef Ht1 Ha1 Hb1 ltac:(done) E6)
          as [(a2' & b2' & Ht2 & Ha2 & Hb2) Hk2].
        exists a2', b2'. repeat (split; [assumption|]).
        intros k Hk. rewrite Hk2, Hk1' by assumption.
        apply run_setBit_inv in E6 as (t' & _ & ->).
        cbn [GreetMessage.dest GreetMessage.set_greetType].
        rewrite bool_decide_eq_true_2 by assumption.
        destruct (Z.eqb_spec k GreetType._DOWN_BIT) as [Ek|Ek];
          destruct (Z.eqb_spec k GreetType._INIT_BIT) as [Ei|Ei];
          try reflexivity.
        rewrite Ek in Ei. discriminate Ei.
      + injection Ein as _ <- _.
        exists a1', b1'. repeat (split; [assumption|]).
        intros k Hk. rewrite Hk1' by assumption.
        rewrite bool_decide_eq_false_2 by assumption.
        destruct (Z.eqb_spec k GreetType._INIT_BIT) as [->|];
          [reflexivity|].
        destruct (Z.eqb_spec k GreetType._DOWN_BIT) as [->|];
          [|reflexivity].
        exact Edown. }
  split; [exact Hbits|].
  apply (getOperation_bits _ _ a' b' a b Hto Ht Ha' Hb' Ha Hb).
  intros k Hk. rewrite Hbits by lia.
  unfold GreetType._INIT_BIT, GreetType._GKA_BIT, GreetType._DOWN_BIT.
  replace (k =? 7) with false by (symmetry; apply Z.eqb_neq; lia).
  replace (k =? 2) with false by (symmetry; apply Z.eqb_neq; lia).
  replace (k =? 1) with false by (symmetry; apply Z.eqb_neq; lia).
  by destruct (isDownflow m).
Qed.

End reply_type.

(** ** Where the errors of [_processMessage] come from *)

(** The changes that [_processMessage] makes to an enumerated greet type
    for the reply lead to enumerated greet types. *)
Lemma reply_type_up (t : jsstring) :
  t ∈ Greeter.GREET_TYPE_MAPPING ->
  GreetType._isBitSetOnGreetType t GreetType._DOWN_BIT = false ->
  exists t1 t2,
    GreetType._setBit Greeter.GREET_TYPE_MAPPING (Some t)
      GreetType._INIT_BIT (VBool false) VUndef = Ok t1
    /\ GreetType._setBit Greeter.GREET_TYPE_MAPPING (Some t1)
         GreetType._DOWN_BIT (VBool true) VUndef = Ok t2.
Proof.
  intros Hin Hd. unfold Greeter.GREET_TYPE_MAPPING in Hin.
  repeat (apply elem_of_cons in Hin as [-> | Hin]);
    try (by apply elem_of_nil in Hin);
    try (vm_compute in Hd; discriminate Hd);
    (eexists _, _; split; [vm_compute; reflexivity|];
     vm_compute; reflexivity).
Qed.

Lemma reply_type_down (t : jsstring) :
  t ∈ Greeter.GREET_TYPE_MAPPING ->
  GreetType._isBitSetOnGreetType t GreetType._DOWN_BIT = true ->
  GreetType._isBitSetOnGreetType t GreetType._SKE_BIT = true ->
  exists t1 t2,
    GreetType._setBit Greeter.GREET_TYPE_MAPPING (Some t)
      GreetType._INIT_BIT (VBool false) (VBool true) = Ok t1
    /\ GreetType._setBit Greeter.GREET_TYPE_MAPPING (Some t1)
         GreetType._GKA_BIT (VBool false) VUndef = Ok t2.
Proof.
  intros Hin Hd Hs. unfold Greeter.GREET_TYPE_MAPPING in Hin.
  repeat (apply elem_of_cons in Hin as [-> | Hin]);
    try (by apply elem_of_nil in Hin);
    try (vm_compute in Hd; discriminate Hd);
    try (vm_compute in Hs; discriminate Hs);
    (eexists _, _; split; [vm_compute; reflexivity|];
     vm_compute; reflexivity).
Qed.

Section process_errors.
Context `{Primitives} `{CodecConstants} `{!Greeter.SubProtocols}.
Import Greeter Greeter.Greeting.

Lemma run_setBit_Ok (m : GreetMessage.t) (bit : Z) (value nc : jsval)
    (t t' : jsstring) :
  GreetMessage.greetType m = Some t ->
  GreetType._setBit GREET_TYPE_MAPPING (Some t) bit value nc = Ok t' ->
  exists m', run (_setBit m bit value nc) = Ok m'
             /\ GreetMessage.greetType m' = Some t'.
Proof.
  unfold run, _setBit. intros -> ->. by eexists.
Qed.

(** The reply to an upflow message of an enumerated type. *)
Lemma reply_up_steps (m : GreetMessage.t) (t : jsstring) :
  GreetMessage.greetType m = Some t -> t ∈ GREET_TYPE_MAPPING ->
  GreetType._isBitSetOnGreetType t GreetType._DOWN_BIT = false ->
  exists m1 m2, run (clearInitiator m VUndef) = Ok m1
                /\ run (setDownflow m1 VUndef) = Ok m2.
Proof.
  intros Ht Hin Hd.
  destruct (reply_type_up t Hin Hd) as (t1 & t2 & Es1 & Es2).
  destruct (run_setBit_Ok m _ _ _ t t1 Ht Es1) as (m1 & E1 & Ht1).
  destruct (run_setBit_Ok m1 _ _ _ t1 t2 Ht1 Es2) as (m2 & E2 & _).
  by exists m1, m2.
Qed.

(** The reply to a downflow message of an enumerated type. *)
Lemma reply_down_steps (m : GreetMessage.t) (t : jsstring) :
  GreetMessage.greetType m = Some t -> t ∈ GREET_TYPE_MAPPING ->
  GreetType._isBitSetOnGreetType t GreetType._DOWN_BIT = true ->
  GreetType._isBitSetOnGreetType t GreetType._SKE_BIT = true ->
  exists m1 m2, run (clearInitiator m (VBool true)) = Ok m1
                /\ run (clearGKA m1 VUndef) = Ok m2.
Proof.
  intros Ht Hin Hd Hs.
  destruct (reply_type_down t Hin Hd Hs) as (t1 & t2 & Es1 & Es2).
  destruct (run_setBit_Ok m _ _ _ t t1 Ht Es1) as (m1 & E1 & Ht1).
  destruct (run_setBit_Ok m1 _ _ _ t1 t2 Ht1 Es2) as (m2 & E2 & _).
  by exists m1, m2.
Qed.

Lemma _mergeMessages_one (g : Greeting.t) (a : option AskeMessage) :
  exists p, _mergeMessages g None a = Ok p.
Proof. destruct a; by eexists. Qed.

(** X25. Where the errors of [_processMessage] come from.  When
    [_processMessage] raises on a message whose greet type is one of the
    enumerated types, the exception is the one raised by the downflow of
    the CLIQUES or of the ASKE member (for a downflow message), by the
    upflow of one of them, or by the comparison of sources and
    destinations when their two messages are merged (for an upflow
    message): reading the message and setting the greet type of the reply
    never raise. *)
Theorem processMessage_errors :
  forall (g : Greeting.t) (m : GreetMessage.t) (rndC rndA : Entropy)
         (t : jsstring) (e : string),
    GreetMessage.greetType m = Some t -> t ∈ GREET_TYPE_MAPPING ->
    _processMessage g m rndC rndA = Throw e ->
    exists inC,
      _getCliquesMessage g m = Ok inC
      /\ (isDownflow m = true /\ isGKA m = true
          /\ cliques_downflow (cliquesMember g) inC = Throw e
          \/ isDownflow m = true /\ isSKE m = true
             /\ aske_downflow (askeMember g) (_getAskeMessage g m) = Throw e
          \/ isDownflow m = false
             /\ cliques_upflow (cliquesMember g) inC rndC = Throw e
          \/ isDownflow m = false
             /\ Ske.upflow (askeMember g) (_getAskeMessage g m) rndA
                = Throw e
          \/ isDownflow m = false
             /\ exists c oc a oa,
                  cliques_upflow (cliquesMember g) inC rndC
                  = Ok (c, Some oc)
                  /\ Ske.upflow (askeMember g) (_getAskeMessage g m) rndA
                     = Ok (a, oa)
                  /\ _mergeMessages (with_members c a g) (Some oc)
                       (Some oa)
                     = Throw e).
Proof.
  intros g m rndC rndA t e Ht Hin Hp. unfold _processMessage in Hp.
  case_bool_decide; [discriminate|].
  destruct (match GreetMessage.members m with Some _ => _ | None => _ end).
  { cbn [negb] in Hp. discriminate. }
  destruct (negb _ && negb _); [discriminate|].
  case_bool_decide; [discriminate|].
  destruct (_getCliquesMessage g m) as [inC|e0] eqn:Ec.
  2:{ unfold _getCliquesMessage, getOperation, getGreetTypeNumber in Ec.
      rewrite Ht in Ec. discriminate Ec. }
  rewrite bind_Ok in Hp. exists inC. split; [reflexivity|].
  match type of Hp with
  | mbind _ ?x = _ => destruct x as [[[g1 om] ns]|e1] eqn:Ein
  end.
  { rewrite bind_Ok in Hp. cbv beta iota in Hp.
    destruct (aske_isSessionAcknowledged _); discriminate Hp. }
  rewrite bind_Throw in Hp. injection Hp as ->. clear Ec.
  case_bool_decide as Equit; [discriminate Ein|].
  assert (isDownflow m
          = GreetType._isBitSetOnGreetType t GreetType._DOWN_BIT) as Edown
    by (unfold isDownflow, _readBit; by rewrite Ht).
  assert (isSKE m
          = GreetType._isBitSetOnGreetType t GreetType._SKE_BIT) as Eske
    by (unfold isSKE, _readBit; by rewrite Ht).
  destruct (isDownflow m).
  - throw_split Ein as c eqn E1.
    2:{ destruct (isGKA m); [|discriminate E1]. by left. }
    throw_split Ein as [a oa] eqn E2.
    2:{ destruct (isSKE m); [|discriminate E2]. right. by left. }
    destruct (isSKE m); [|injection E2 as <- <-; discriminate Ein].
    destruct (_mergeMessages_one (with_members c a g) oa) as [p0 Em].
    rewrite Em, bind_Ok in Ein. destruct p0 as [p0|]; [|discriminate Ein].
    destruct (reply_down_steps
                (GreetMessage.set_greetType (GreetMessage.greetType m) p0)
                t Ht Hin ltac:(done) ltac:(done)) as (m1 & m2 & E4 & E5).
    rewrite E4, bind_Ok, E5 in Ein. discriminate Ein.
  - throw_split Ein as [c oc] eqn E1.
    2:{ right. right. by left. }
    throw_split Ein as [a oa] eqn E2.
    2:{ do 3 right. by left. }
    throw_split Ein as p0 eqn E3.
    2:{ do 4 right. split; [reflexivity|].
        destruct oc as [oc|]; [|discriminate E3]. by exists c, oc, a, oa. }
    apply _mergeMessages_Some in E3 as [q ->].
    cbn [assign_greetType] in Ein. rewrite bind_Ok in Ein.
    destruct (reply_up_steps
                (GreetMessage.set_greetType (GreetMessage.greetType m) q)
                t Ht Hin ltac:(done)) as (m1 & m2 & E4 & E5).
    rewrite E4, bind_Ok in Ein. case_bool_decide; [|discriminate Ein].
    rewrite E5 in Ein. discriminate Ein.
Qed.

End process_errors.

(** ** The key map of a [GreetStore] *)

Section greet_store.
Import Greeter.

Lemma fill_fold_lookup (key : nat -> jsstring) (val : nat -> jsval)
    (n : nat) (k : jsstring) :
  let M : gmap jsstring jsval :=
    foldl (fun m i => <[key i := val i]> m) ∅ (seq 0 n) in
  (forall i, (i < n)%nat -> key i = k ->
             (forall j, (i < j < n)%nat -> key j <> k) ->
             M !! k = Some (val i))
  /\ ((forall i, (i < n)%nat -> key i <> k) -> M !! k = None).
Proof.
  induction n as [|n [IH1 IH2]]; cbv zeta.
  { split; [intros i Hi; lia | intros _; apply lookup_empty]. }
  rewrite seq_S, foldl_app. cbn [foldl Nat.add]. split.
  - intros i Hi Hk Hlast. destruct (decide (i = n)) as [->|Hne].
    + rewrite Hk. apply lookup_insert_eq.
    + rewrite lookup_insert_ne by (apply Hlast; lia).
      apply IH1; [lia | exact Hk | intros j Hj; apply Hlast; lia].
  - intros Hall. rewrite lookup_insert_ne by (apply Hall; lia).
    apply IH2. intros i Hi. apply Hall. lia.
Qed.

(** X21. A [GreetStore] built from arrays of members and of ephemeral
    public keys exists exactly when the state is missing, NULL or READY
    and the two arrays have the same length; with different lengths the
    constructor raises.  Its key map then holds, for every member, the
    key at the position of the member's last occurrence (the name
    [__proto__] apart, which a plain object does not store), and has no
    entry of its own for anybody else. *)
Theorem GreetStore_pubKeyMap :
  forall (state a2 a3 a4 a5 : jsval) (members pubKeys : list jsstring)
         (rest : list jsval),
    let args :=
      state :: VArr members :: a2 :: a3 :: a4 :: a5 :: VArr pubKeys
        :: rest in
    (forall s,
        GreetStore_new args = Ok s ->
        (truthy state = false \/ state = VNum (STATE.code STATE.READY))
        /\ length members = length pubKeys
        /\ GreetStore.members s = VArr members
        /\ (forall i m pk,
               members !! i = Some m -> pubKeys !! i = Some pk ->
               (forall j, (i < j)%nat -> members !! j <> Some m) ->
               m <> Ske.proto ->
               GreetStore.pubKeyMap s !! m = Some (VStr pk))
        /\ (forall m, m ∉ members -> GreetStore.pubKeyMap s !! m = None))
    /\ (truthy state = false \/ state = VNum (STATE.code STATE.READY) ->
        length members = length pubKeys ->
        exists s, GreetStore_new args = Ok s)
    /\ (truthy state = false \/ state = VNum (STATE.code STATE.READY) ->
        length members <> length pubKeys ->
        raises (GreetStore_new args)).
Proof.
  intros state a2 a3 a4 a5 members pubKeys rest args.
  assert (truthy state = false \/ state = VNum (STATE.code STATE.READY) <->
          strict_eq (js_oror state (VNum (STATE.code STATE.NULL)))
            (VNum (STATE.code STATE.READY))
          || strict_eq (js_oror state (VNum (STATE.code STATE.NULL)))
               (VNum (STATE.code STATE.NULL)) = true) as Hstate.
  { unfold js_oror. destruct (truthy state) eqn:Et.
    - split.
      + intros [?| ->]; [done | reflexivity].
      + intros Hs. right. destruct state as [| |b|n|s|l]; try done.
        cbn in Hs, Et. apply orb_true_iff in Hs as [Hs|Hs];
          apply Z.eqb_eq in Hs; subst; [reflexivity | done].
    - split; [reflexivity | by left]. }
  assert (strict_eq (js_length (VArr members)) (js_length (VArr pubKeys))
          = bool_decide (length members = length pubKeys)) as Hlen.
  { cbn [js_length strict_eq]. case_bool_decide as E.
    - rewrite E. apply Z.eqb_refl.
    - apply Z.eqb_neq. lia. }
  unfold args, GreetStore_new. cbn [nth truthy clone].
  rewrite _assert_true, bind_Ok, Hlen.
  split; [|split].
  - intros s Hs. bind_split Hs as u eqn Eu. apply _assert_inv in Eu.
    bind_split Hs as pm eqn Epm. bind_split Epm as u' eqn El.
    apply _assert_inv, bool_decide_eq_true in El.
    injection Epm as <-. injection Hs as <-.
    cbn [GreetStore.members GreetStore.pubKeyMap].
    split; [by apply Hstate|]. split; [exact El|].
    split; [reflexivity|].
    unfold fill_pubKeyMap. cbn [js_length]. rewrite Nat2Z.id.
    pose proof (fun k => fill_fold_lookup
                  (fun i => property_key (js_index (VArr members) i))
                  (fun i => js_index (VArr pubKeys) i)
                  (length members) k) as Hf.
    cbv zeta in Hf. split.
    + intros i m pk Hm Hp Hlast _. destruct (Hf m) as [Hf1 _].
      rewrite (Hf1 i).
      * cbn [js_index]. by rewrite Hp.
      * by eapply lookup_lt_Some.
      * cbn [js_index]. by rewrite Hm.
      * intros j Hj. cbn [js_index].
        destruct (members !! j) as [x|] eqn:Ej.
        -- cbn [property_key]. intros ->. by apply (Hlast j); [lia|].
        -- apply lookup_ge_None in Ej. lia.
    + intros m Hm. destruct (Hf m) as [_ Hf2]. apply Hf2.
      intros i Hi. cbn [js_index].
      destruct (members !! i) as [x|] eqn:Ei.
      * cbn [property_key]. intros ->. apply Hm.
        by eapply list_elem_of_lookup_2.
      * apply lookup_ge_None in Ei. lia.
  - intros Hs Hl. apply Hstate in Hs. rewrite Hs, _assert_true, bind_Ok.
    rewrite bool_decide_eq_true_2, _assert_true by assumption.
    rewrite !bind_Ok. eauto.
  - intros Hs Hl. apply Hstate in Hs. rewrite Hs, _assert_true, bind_Ok.
    rewrite bool_decide_eq_false_2 by assumption. by eexists.
Qed.

End greet_store.

(** ** Decoding what the greet encoder wrote *)

Section records.
Import Greeter GreetDecode.

Lemma encodeRecords_cons (r : Z * jsstring) (rs : list (Z * jsstring)) :
  encodeRecords (r :: rs) = Codec.encodeTLV r.1 r.2 ++ encodeRecords rs.
Proof. reflexivity. Qed.

Lemma popTLV_record (ty : Z) (v : jsstring) (rs : list (Z * jsstring)) :
  record_fits (ty, v) ->
  Codec.popTLV (encodeRecords ((ty, v) :: rs)) ty = Ok (v, encodeRecords rs).
Proof.
  intros [Hty Hv]. rewrite encodeRecords_cons.
  by apply popTLV_encodeTLV.
Qed.

Lemma popTLVMaybe_nil (ty : Z) :
  ty <> 0 -> Codec.popTLVMaybe [] ty = Ok (None, []).
Proof.
  intros Hty. unfold Codec.popTLVMaybe.
  change (Codec.decodeTLV []) with (Ok (Codec.mkTLV 0 [] [])).
  rewrite bind_Ok. cbn [Codec.type].
  replace (0 =? ty) with false by (symmetry; apply Z.eqb_neq; lia).
  reflexivity.
Qed.

Lemma popTLVMaybe_other (ty : Z) (rs : list (Z * jsstring)) :
  Forall record_fits rs -> ty <> 0 -> ty ∉ map fst rs ->
  Codec.popTLVMaybe (encodeRecords rs) ty = Ok (None, encodeRecords rs).
Proof.
  intros Hrs Hty Hn. destruct Hrs as [|[ty' v] rs [Hty' Hv] _].
  - by apply popTLVMaybe_nil.
  - rewrite encodeRecords_cons. cbn [fst snd] in *.
    rewrite popTLVMaybe_encodeTLV by assumption.
    cbn [map fst] in Hn. apply not_elem_of_cons in Hn as [Hne _].
    replace (ty' =? ty) with false by (symmetry; apply Z.eqb_neq; lia).
    reflexivity.
Qed.

Lemma encodeRecords_values (ty : Z) (vs : list jsstring)
    (rs : list (Z * jsstring)) :
  encodeRecords (map (fun v => (ty, v)) vs ++ rs)
  = concat (map (Codec.encodeTLV ty) vs) ++ encodeRecords rs.
Proof.
  unfold encodeRecords. by rewrite map_app, concat_app, map_map.
Qed.

Lemma popTLVAll_records (ty : Z) (vs : list jsstring)
    (rs : list (Z * jsstring)) :
  0 <= ty < 65536 -> ty <> 0 ->
  Forall (fun v => Z.of_nat (length v) < 65536) vs ->
  Forall record_fits rs -> ty ∉ map fst rs ->
  Codec.popTLVAll (encodeRecords (map (fun v => (ty, v)) vs ++ rs)) ty
  = Ok (vs, encodeRecords rs).
Proof.
  intros Hty Hty0 Hvs Hrs Hn. rewrite encodeRecords_values.
  unfold Codec.popTLVAll.
  rewrite popTLVAll_loop_records; try assumption; [reflexivity| |].
  - by apply popTLVMaybe_other.
  - rewrite length_app, records_length. lia.
Qed.

Lemma debug_btoa_bytes (v : jsstring) :
  bytestring v -> debug_btoa v = Ok tt.
Proof.
  intros Hv. unfold debug_btoa.
  destruct (atob_btoa v Hv) as (w & -> & _). reflexivity.
Qed.

Lemma popTLVMaybe_with_None (s : jsstring) (ty : Z)
    (action : jsstring -> result unit) :
  Codec.popTLVMaybe s ty = Ok (None, s) ->
  popTLVMaybe_with s ty action = Ok (None, s).
Proof. intros Hs. unfold popTLVMaybe_with. by rewrite Hs. Qed.

Lemma popTLVMaybe_with_record (ty : Z) (v rest : jsstring)
    (action : jsstring -> result unit) :
  0 <= ty < 65536 -> Z.of_nat (length v) < 65536 -> action v = Ok tt ->
  popTLVMaybe_with (Codec.encodeTLV ty v ++ rest) ty action
  = Ok (Some v, rest).
Proof.
  intros Hty Hv Ha. unfold popTLVMaybe_with.
  rewrite popTLVMaybe_encodeTLV by assumption. rewrite Z.eqb_refl, bind_Ok.
  cbn [from_option]. by rewrite Ha.
Qed.

Lemma popTLVAll_with_loop_records (ty : Z) (vs : list jsstring)
    (tail : jsstring) (action : jsstring -> result unit) :
  0 <= ty < 65536 ->
  Forall (fun v => Z.of_nat (length v) < 65536) vs ->
  Forall (fun v => action v = Ok tt) vs ->
  Codec.popTLVMaybe tail ty = Ok (None, tail) ->
  forall (fuel : nat) (seen : list jsstring),
    (length vs < fuel)%nat ->
    popTLVAll_with_loop fuel (concat (map (Codec.encodeTLV ty) vs) ++ tail)
      ty action seen
    = Ok (seen ++ vs, tail).
Proof.
  intros Hty Hvs Hact Htail. revert Hact.
  induction Hvs as [|v vs Hv _ IH]; intros Hact fuel seen Hf.
  - destruct fuel as [|fuel]; [cbn in Hf; lia|].
    cbn [map concat app popTLVAll_with_loop].
    rewrite popTLVMaybe_with_None by assumption. rewrite bind_Ok.
    cbn [option_list]. by rewrite bool_decide_eq_true_2.
  - apply Forall_cons_1 in Hact as [Hav Hact].
    destruct fuel as [|fuel]; [cbn in Hf; lia|].
    cbn [map concat popTLVAll_with_loop]. rewrite <- app_assoc.
    rewrite popTLVMaybe_with_record by assumption. rewrite bind_Ok.
    cbn [option_list]. rewrite bool_decide_eq_false_2.
    + rewrite IH by (first [assumption | cbn [length] in Hf; lia]).
      by rewrite <- app_assoc.
    + intros Heq. apply (f_equal length) in Heq.
      rewrite (length_app (Codec.encodeTLV ty v)), encodeTLV_length in Heq.
      lia.
Qed.

Lemma popTLVAll_with_records (ty : Z) (vs : list jsstring)
    (rs : list (Z * jsstring)) (action : jsstring -> result unit) :
  0 <= ty < 65536 -> ty <> 0 ->
  Forall (fun v => Z.of_nat (length v) < 65536) vs ->
  Forall (fun v => action v = Ok tt) vs ->
  Forall record_fits rs -> ty ∉ map fst rs ->
  popTLVAll_with (encodeRecords (map (fun v => (ty, v)) vs ++ rs)) ty action
  = Ok (vs, encodeRecords rs).
Proof.
  intros Hty Hty0 Hvs Hact Hrs Hn. rewrite encodeRecords_values.
  unfold popTLVAll_with.
  rewrite popTLVAll_with_loop_records; try assumption; [reflexivity| |].
  - by apply popTLVMaybe_other.
  - rewrite length_app, records_length. lia.
Qed.

Lemma popTLVMaybe_with_one (ty : Z) (v : option jsstring)
    (rs : list (Z * jsstring)) :
  0 <= ty < 65536 -> ty <> 0 ->
  Forall record_fits (one_record ty v) ->
  (forall x, str_or_null v = Some x -> bytestring x) ->
  Forall record_fits rs -> ty ∉ map fst rs ->
  popTLVMaybe_with (encodeRecords (one_record ty v ++ rs)) ty debug_btoa
  = Ok (str_or_null v, encodeRecords rs).
Proof.
  intros Hty Hty0 Hv Hb Hrs Hn. unfold one_record in *.
  destruct (str_or_null v) as [x|].
  - cbn [app]. rewrite encodeRecords_cons. cbn [fst snd].
    apply Forall_cons_1 in Hv as [[_ Hx] _]. cbn [snd] in Hx.
    apply popTLVMaybe_with_record; [assumption..|].
    apply debug_btoa_bytes. by apply Hb.
  - cbn [app]. apply popTLVMaybe_with_None. by apply popTLVMaybe_other.
Qed.

End records.

Section greet_decode.
Context `{Primitives} `{!PrimitivesLaws} `{CodecConstants}
  `{!CodecConstantsLaws} `{Struct}.
Import Greeter GreetDecode GreetMessage.

Lemma greetRecords_blocks (m : GreetMessage.t) :
  greetRecords m
  = (Codec.TLV_TYPE.GREET_TYPE, default [] (greetType m))
    :: (Codec.TLV_TYPE.SOURCE, source m)
    :: (Codec.TLV_TYPE.DEST, dest m)
    :: (map (fun v => (Codec.TLV_TYPE.MEMBER, v)) (default [] (members m))
        ++ map (fun v => (Codec.TLV_TYPE.INT_KEY, v))
             (default [] (intKeys m))
        ++ map (fun v => (Codec.TLV_TYPE.NONCE, v)) (default [] (nonces m))
        ++ map (fun v => (Codec.TLV_TYPE.PUB_KEY, v))
             (default [] (pubKeys m))
        ++ metadata_records (metadata m)
        ++ one_record Codec.TLV_TYPE.SESSION_SIGNATURE (sessionSignature m)
        ++ one_record Codec.TLV_TYPE.SIGNING_KEY (signingKey m) ++ []).
Proof.
  unfold greetRecords, metadata_records, one_record.
  rewrite app_nil_r. destruct (metadata m); reflexivity.
Qed.

Lemma notin_values (ty ty' : Z) (vs : list jsstring) :
  ty <> ty' -> ty ∉ map fst (map (fun v => (ty', v)) vs).
Proof.
  intros Hne. rewrite map_map. cbn [fst]. intros Hin.
  apply list_elem_of_fmap in Hin as (v & -> & _). done.
Qed.

Lemma notin_one (ty ty' : Z) (v : option jsstring) :
  ty <> ty' -> ty ∉ map fst (one_record ty' v).
Proof.
  intros Hne. unfold one_record. destruct (str_or_null v).
  - cbn [map fst]. by apply not_elem_of_cons; split; [|apply not_elem_of_nil].
  - apply not_elem_of_nil.
Qed.

Lemma notin_metadata (ty : Z) (md : option GreetingMetadata.t) :
  ty <> TLV_PREV_PF -> ty <> TLV_CHAIN_HASH -> ty <> TLV_LATEST_PM ->
  ty ∉ map fst (metadata_records md).
Proof.
  intros H1' H2' H3'. destruct md as [md|]; [|apply not_elem_of_nil].
  cbn [metadata_records map fst]. rewrite !not_elem_of_cons.
  split; [done|]. split; [done|]. by apply notin_values.
Qed.

Lemma _popTLVMetadata_records (md : option GreetingMetadata.t)
    (src : jsstring) (rs : list (Z * jsstring)) :
  metadata_types_apart ->
  Forall record_fits (metadata_records md) -> Forall record_fits rs ->
  TLV_PREV_PF ∉ map fst rs -> TLV_LATEST_PM ∉ map fst rs ->
  _popTLVMetadata (encodeRecords (metadata_records md ++ rs)) src
  = Ok (decoded_metadata src <$> md, encodeRecords rs).
Proof.
  intros Hap Hmd Hrs Hn1 Hn2. unfold _popTLVMetadata.
  apply Forall_cons_1 in Hap as [[Hpf _] Hap].
  apply Forall_cons_1 in Hap as [[Hch _] Hap].
  apply Forall_cons_1 in Hap as [[Hpm _] _].
  destruct md as [md|]; cbn [metadata_records app].
  - apply Forall_cons_1 in Hmd as [[_ Hl1] Hmd].
    apply Forall_cons_1 in Hmd as [[_ Hl2] Hmd]. cbn [snd] in Hl1, Hl2.
    rewrite encodeRecords_cons. cbn [fst snd].
    rewrite popTLVMaybe_encodeTLV by (assumption || lia).
    rewrite Z.eqb_refl, bind_Ok. cbv beta iota.
    rewrite bool_decide_eq_false_2.
    2:{ intros Heq. apply (f_equal length) in Heq.
        rewrite length_app, encodeTLV_length in Heq. clear -Heq. lia. }
    rewrite popTLV_record by (split; cbn [fst snd]; (assumption || lia)).
    rewrite bind_Ok. cbv beta iota.
    assert (Forall (fun v => Z.of_nat (length v) < 65536)
              (GreetingMetadata.parents md)) as Hps.
    { rewrite Forall_map in Hmd. eapply Forall_impl; [exact Hmd|].
      by intros v [_ Hv]. }
    rewrite popTLVAll_records by (assumption || lia).
    rewrite bind_Ok. reflexivity.
  - rewrite popTLVMaybe_other by (assumption || lia). reflexivity.
Qed.

Lemma popStandardFields_greet (rest : jsstring) :
  Z.of_nat (length MESSAGE_TYPE_GREET) < 65536 ->
  Message.popStandardFields
    (Codec.ENCODED_VERSION ++ Codec.ENCODED_TYPE_GREET ++ rest)
    MESSAGE_TYPE_GREET
  = Ok rest.
Proof.
  intros Hg.
  unfold Message.popStandardFields, Codec.ENCODED_VERSION,
    Codec.ENCODED_TYPE_GREET.
  rewrite popTLV_encodeTLV
    by (first [unfold Codec.TLV_TYPE.PROTOCOL_VERSION; lia
              | apply version_length]).
  ok_step. rewrite bool_decide_eq_true_2 by reflexivity. ok_step.
  rewrite popTLV_encodeTLV by (first [apply message_type_u16 | exact Hg]).
  ok_step. rewrite bool_decide_eq_true_2 by reflexivity. ok_step.
  reflexivity.
Qed.

Lemma str_or_null_option_list (v : option jsstring) (x : jsstring)
    (l1 l2 : list jsstring) :
  Forall bytestring (l1 ++ option_list v ++ l2) ->
  str_or_null v = Some x -> bytestring x.
Proof.
  intros Hb Hx. apply str_or_null_inv in Hx as [-> _].
  rewrite !Forall_app in Hb. destruct Hb as (_ & Hb & _).
  by apply Forall_cons_1 in Hb as [? _].
Qed.

Lemma _decode_encoded (m : GreetMessage.t) (privKey pubKey : jsstring) :
  metadata_types_apart ->
  Z.of_nat (length MESSAGE_TYPE_GREET) < 65536 ->
  Forall record_fits (greetRecords m) ->
  Forall bytestring (debug_fields m) ->
  let raw := Codec.ENCODED_VERSION ++ Codec.ENCODED_TYPE_GREET
             ++ encodeRecords (greetRecords m) in
  let sig :=
    Codec.signMessage Codec.MPENC_GREET_MESSAGE raw privKey pubKey [] in
  _decode (encodeGreetMessage m privKey pubKey)
  = Ok (decoded m sig raw false).
Proof.
  intros Hap Hg Hfit Hb raw sig.
  rewrite encodeGreetMessage_records. cbv zeta. fold raw. fold sig.
  assert (bytestring sig /\ length sig = 64%nat) as [Hsb Hsl]
    by (split; [apply sign_bytes | apply sign_length]).
  clearbody sig. unfold _decode.
  rewrite popTLVMaybe_with_record;
    [|unfold Codec.TLV_TYPE.MESSAGE_SIGNATURE; lia|lia
     |by apply debug_btoa_bytes].
  rewrite bind_Ok. cbv beta iota zeta.
  rewrite (bool_decide_eq_false_2
             (raw = Codec.encodeTLV Codec.TLV_TYPE.MESSAGE_SIGNATURE sig
                    ++ raw)).
  2:{ intros Heq. apply (f_equal length) in Heq.
      rewrite length_app, encodeTLV_length in Heq. clear -Heq. lia. }
  rewrite (popStandardFields_greet (encodeRecords (greetRecords m)) Hg
           : Message.popStandardFields raw MESSAGE_TYPE_GREET = _).
  rewrite bind_Ok. clearbody raw.
  rewrite greetRecords_blocks in Hfit |- *.
  unfold debug_fields in Hb. rewrite !Forall_app in Hb.
  destruct Hb as (Hbi & Hbn & Hbp & Hbs & Hbk).
  pose proof Hap as Hap'.
  apply Forall_cons_1 in Hap' as [[Hpf Hpf'] Hap'].
  apply Forall_cons_1 in Hap' as [[Hch Hch'] Hap'].
  apply Forall_cons_1 in Hap' as [[Hpm Hpm'] _].
  rewrite !not_elem_of_cons in Hpf', Hch', Hpm'.
  destruct Hpf' as (Hpf1 & Hpf2 & Hpf3 & Hpf4 & Hpf5 & Hpf6 & _).
  destruct Hch' as (Hch1 & Hch2 & Hch3 & Hch4 & Hch5 & Hch6 & _).
  destruct Hpm' as (Hpm1 & Hpm2 & Hpm3 & Hpm4 & Hpm5 & Hpm6 & _).
  apply Forall_cons_1 in Hfit as [Hf1 Hfit].
  apply Forall_cons_1 in Hfit as [Hf2 Hfit].
  apply Forall_cons_1 in Hfit as [Hf3 Hfit].
  rewrite !Forall_app in Hfit.
  destruct Hfit as (Hfm & Hfi & Hfn & Hfp & Hfd & Hfs & Hfk & _).
  assert (forall ty (vs : list jsstring),
             Forall record_fits (map (fun v => (ty, v)) vs) ->
             Forall (fun v => Z.of_nat (length v) < 65536) vs) as Hlen.
  { intros ty vs Hvs. rewrite Forall_map in Hvs.
    eapply Forall_impl; [exact Hvs|]. by intros v [_ Hv]. }
  assert (forall vs, Forall bytestring vs ->
                     Forall (fun v => debug_btoa v = Ok tt) vs) as Hdbg.
  { intros vs Hvs. eapply Forall_impl; [exact Hvs|].
    intros v. apply debug_btoa_bytes. }
  rewrite popTLV_record by assumption. rewrite bind_Ok. cbv beta iota.
  rewrite popTLV_record by assumption. rewrite bind_Ok. cbv beta iota.
  rewrite popTLV_record by assumption. rewrite bind_Ok. cbv beta iota.
  rewrite popTLVAll_records.
  2-3: by unfold Codec.TLV_TYPE.MEMBER.
  2: by eapply Hlen.
  2: by rewrite !Forall_app.
  2:{ rewrite !map_app, !not_elem_of_app.
      repeat split;
        first [ by apply notin_values | by apply notin_one
              | by apply notin_metadata | apply not_elem_of_nil ]. }
  rewrite bind_Ok. cbv beta iota.
  rewrite popTLVAll_with_records.
  2-3: by unfold Codec.TLV_TYPE.INT_KEY.
  2: by eapply Hlen.
  2: by apply Hdbg.
  2: by rewrite !Forall_app.
  2:{ rewrite !map_app, !not_elem_of_app.
      repeat split;
        first [ by apply notin_values | by apply notin_one
              | by apply notin_metadata | apply not_elem_of_nil ]. }
  rewrite bind_Ok. cbv beta iota.
  rewrite popTLVAll_with_records.
  2-3: by unfold Codec.TLV_TYPE.NONCE.
  2: by eapply Hlen.
  2: by apply Hdbg.
  2: by rewrite !Forall_app.
  2:{ rewrite !map_app, !not_elem_of_app.
      repeat split;
        first [ by apply notin_values | by apply notin_one
              | by apply notin_metadata | apply not_elem_of_nil ]. }
  rewrite bind_Ok. cbv beta iota.
  rewrite popTLVAll_with_records.
  2-3: by unfold Codec.TLV_TYPE.PUB_KEY.
  2: by eapply Hlen.
  2: by apply Hdbg.
  2: by rewrite !Forall_app.
  2:{ rewrite !map_app, !not_elem_of_app.
      repeat split;
        first [ by apply notin_values | by apply notin_one
              | by apply notin_metadata | apply not_elem_of_nil ]. }
  rewrite bind_Ok. cbv beta iota.
  rewrite _popTLVMetadata_records.
  2: assumption. 2: assumption. 2: by rewrite !Forall_app.
  2-3: rewrite !map_app, !not_elem_of_app;
       repeat split; first [ by apply notin_one | apply not_elem_of_nil ].
  rewrite bind_Ok. cbv beta iota.
  rewrite popTLVMaybe_with_one.
  2-3: by unfold Codec.TLV_TYPE.SESSION_SIGNATURE.
  2: assumption.
  2:{ intros x Hx. apply str_or_null_inv in Hx as [Hx _].
      rewrite Hx in Hbs. by apply Forall_cons_1 in Hbs as [? _]. }
  2: by rewrite !Forall_app.
  2:{ rewrite !map_app, !not_elem_of_app.
      repeat split; first [ by apply notin_one | apply not_elem_of_nil ]. }
  rewrite bind_Ok. cbv beta iota.
  rewrite popTLVMaybe_with_one.
  2-3: by unfold Codec.TLV_TYPE.SIGNING_KEY.
  2: assumption.
  2:{ intros x Hx. apply str_or_null_inv in Hx as [Hx _].
      rewrite Hx in Hbk. by apply Forall_cons_1 in Hbk as [? _]. }
  2: constructor.
  2: apply not_elem_of_nil.
  rewrite bind_Ok. reflexivity.
Qed.


Lemma _decode_signatureOk (message : jsstring) (out : GreetMessage.t) :
  _decode message = Ok out -> signatureOk out = false.
Proof.
  unfold _decode. intros Hd.
  bind_split Hd as [sig r0] eqn E0. bind_split Hd as r1 eqn E1.
  bind_split Hd as [gt r2] eqn E2. bind_split Hd as [src r3] eqn E3.
  bind_split Hd as [dst r4] eqn E4. bind_split Hd as [ms r5] eqn E5.
  bind_split Hd as [ik r6] eqn E6. bind_split Hd as [ns r7] eqn E7.
  bind_split Hd as [pk r8] eqn E8. bind_split Hd as [md r9] eqn E9.
  bind_split Hd as [ss r10] eqn E10. bind_split Hd as [sk r11] eqn E11.
  by injection Hd as <-.
Qed.

Lemma decodeGreetMessage_unfold (message : jsstring)
    (key : option jsstring) :
  decodeGreetMessage message key
  = (out ← _decode message;
     _ ← _assert (negb (bool_decide (str_or_null (GreetMessage.data out)
                                     <> None))) "assertion failed";
     _ ← _assert (length (default [] (intKeys out))
                  <=? length (default [] (members out)))%nat
           "Number of intermediate keys cannot exceed number of members.";
     _ ← _assert (length (default [] (nonces out))
                  <=? length (default [] (members out)))%nat
           "Number of nonces cannot exceed number of members.";
     _ ← _assert (length (default [] (pubKeys out))
                  <=? length (default [] (members out)))%nat
           "Number of public keys cannot exceed number of members.";
     match str_or_null (signature out) with
     | Some sig =>
         match verification_key key out, rawMessage out with
         | Some pubKey, Some raw =>
             _ ← _assert
                   (Codec.verifyMessageSignature Codec.MPENC_GREET_MESSAGE
                      raw sig pubKey [])
                   "Signature of message does not verify";
             Ok (GreetMessage.mk (source out) (dest out) (greetType out)
                   (sidkeyHint out) (members out) (intKeys out)
                   (nonces out) (pubKeys out) (sessionSignature out)
                   (signingKey out) (signature out)
                   (Codec.verifyMessageSignature Codec.MPENC_GREET_MESSAGE
                      raw sig pubKey [])
                   (rawMessage out) (data out) (metadata out))
         | _, _ => Throw "Signature of message does not verify"
         end
     | None => Ok out
     end).
Proof. reflexivity. Qed.


End greet_decode.

(** ** Greet messages on the wire *)

Section greet_on_the_wire.
Context `{Primitives} `{!PrimitivesLaws} `{CodecConstants}
  `{!CodecConstantsLaws}.
Import Greeter GreetMessage.


End greet_on_the_wire.

(** ** The properties at work on small instances *)


Lemma short2bin_bin2short_witness :
  (Codec._short2bin 0x1234 = [0x1234 / 256; 0x1234 mod 256]
   /\ bytestring (Codec._short2bin 0x1234)
   /\ forall s : jsstring,
        Codec._bin2short (Codec._short2bin 0x1234 ++ s) = 0x1234)
  /\ Codec._bin2short (0x12 :: 0x34 :: js "rest") = 0x12 * 256 + 0x34
  /\ Codec._short2bin (Codec._bin2short (0x12 :: 0x34 :: js "rest"))
     = [0x12; 0x34].
Proof.
  split.
  - apply (proj1 short2bin_bin2short 0x1234). lia.
  - apply (proj2 short2bin_bin2short 0x12 0x34 (js "rest"));
      unfold is_byte; lia.
Defined.

Lemma decodeTLV_characterised_witness :
  (exists tlv,
      Codec.decodeTLV (1 :: 2 :: 0 :: 3 :: js "abcde") = Ok tlv
      /\ Codec.type tlv = 1 * 256 + 2
      /\ Codec.value tlv = take (Z.to_nat (0 * 256 + 3)) (js "abcde")
      /\ Codec.rest tlv = drop (Z.to_nat (0 * 256 + 3)) (js "abcde")
      /\ 1 :: 2 :: 0 :: 3 :: js "abcde"
         = Codec.encodeTLV (Codec.type tlv) (Codec.value tlv)
           ++ Codec.rest tlv)
  /\ Codec.decodeTLV (1 :: 2 :: 0 :: 3 :: js "ab")
     = Throw "TLV payload length does not match indicated length.".
Proof.
  split.
  - apply (decodeTLV_characterised 1 2 0 3 (js "abcde"));
      first [unfold is_byte; lia | cbn; lia].
  - apply (decodeTLV_characterised 1 2 0 3 (js "ab"));
      first [unfold is_byte; lia | cbn; lia].
Defined.

Lemma popTLV_on_record_witness :
  Codec.decodeTLV (Codec.encodeTLV Codec.TLV_TYPE.SOURCE (js "alice")
                   ++ js "rest")
  = Ok (Codec.mkTLV Codec.TLV_TYPE.SOURCE (js "alice") (js "rest"))
  /\ Codec.popTLV (Codec.encodeTLV Codec.TLV_TYPE.SOURCE (js "alice")
                   ++ js "rest") Codec.TLV_TYPE.SOURCE
     = Ok (js "alice", js "rest")
  /\ Codec.popTLVMaybe (Codec.encodeTLV Codec.TLV_TYPE.SOURCE (js "alice")
                        ++ js "rest") Codec.TLV_TYPE.SOURCE
     = Ok (Some (js "alice"), js "rest")
  /\ (Codec.TLV_TYPE.DEST <> Codec.TLV_TYPE.SOURCE ->
        raises (Codec.popTLV
                  (Codec.encodeTLV Codec.TLV_TYPE.SOURCE (js "alice")
                   ++ js "rest") Codec.TLV_TYPE.DEST)
        /\ Codec.popTLVMaybe
             (Codec.encodeTLV Codec.TLV_TYPE.SOURCE (js "alice")
              ++ js "rest") Codec.TLV_TYPE.DEST
           = Ok (None, Codec.encodeTLV Codec.TLV_TYPE.SOURCE (js "alice")
                       ++ js "rest")).
Proof.
  apply (popTLV_on_record Codec.TLV_TYPE.SOURCE Codec.TLV_TYPE.DEST
           (js "alice") (js "rest")).
  - unfold Codec.TLV_TYPE.SOURCE. lia.
  - cbn. lia.
Defined.

Lemma popTLVAll_encodeTlvArray_witness :
  Codec.popTLVAll
    (Codec._encodeTlvArray Codec.TLV_TYPE.MEMBER [js "1"; js "2"; js "3"]
     ++ Codec.encodeTLV Codec.TLV_TYPE.NONCE (js "n"))
    Codec.TLV_TYPE.MEMBER
  = Ok ([js "1"; js "2"; js "3"],
        Codec.encodeTLV Codec.TLV_TYPE.NONCE (js "n")).
Proof.
  apply (popTLVAll_encodeTlvArray Codec.TLV_TYPE.MEMBER
           [js "1"; js "2"; js "3"]
           (Codec.encodeTLV Codec.TLV_TYPE.NONCE (js "n"))).
  - unfold Codec.TLV_TYPE.MEMBER. lia.
  - repeat constructor; cbn; lia.
  - reflexivity.
Defined.

Lemma getGreetType_first_record_witness :
  Codec.getGreetType
    (concat (map (fun r => Codec.encodeTLV r.1 r.2)
               [(Codec.TLV_TYPE.MESSAGE_SIGNATURE, js "sig");
                (Codec.TLV_TYPE.PROTOCOL_VERSION, [1])])
     ++ Codec.encodeTLV Codec.TLV_TYPE.GREET_TYPE
          Codec.GREET_TYPE.INIT_INITIATOR_UP
     ++ js "junk")
  = Ok (Some Codec.GREET_TYPE.INIT_INITIATOR_UP)
  /\ Codec.getGreetType
       (concat (map (fun r => Codec.encodeTLV r.1 r.2)
                  [(Codec.TLV_TYPE.MESSAGE_SIGNATURE, js "sig");
                   (Codec.TLV_TYPE.PROTOCOL_VERSION, [1])]))
     = Ok None.
Proof.
  apply (getGreetType_first_record
           [(Codec.TLV_TYPE.MESSAGE_SIGNATURE, js "sig");
            (Codec.TLV_TYPE.PROTOCOL_VERSION, [1])]
           Codec.GREET_TYPE.INIT_INITIATOR_UP (js "junk")).
  - repeat constructor; cbn; (lia || discriminate).
  - cbn. lia.
Defined.

Lemma categoriseMessage_tlvToWire_witness :
  exists w,
    Codec.tlvToWire
      (Codec.encodeTLV Codec.TLV_TYPE.GREET_TYPE
         Codec.GREET_TYPE.PARTICIPANT_DATA) = Ok w
    /\ Codec.categoriseMessage w
       = (greetType ←
            Codec.getGreetType
              (Codec.encodeTLV Codec.TLV_TYPE.GREET_TYPE
                 Codec.GREET_TYPE.PARTICIPANT_DATA);
          Ok (Some (Codec.mkCategorised
                      (if bool_decide
                            (greetType
                             = Some Codec.GREET_TYPE.PARTICIPANT_DATA)
                       then Codec.MPENC_DATA_MESSAGE
                       else Codec.MPENC_GREET_MESSAGE)
                      (Codec.encodeTLV Codec.TLV_TYPE.GREET_TYPE
                         Codec.GREET_TYPE.PARTICIPANT_DATA)))).
Proof.
  apply (categoriseMessage_tlvToWire
           (Codec.encodeTLV Codec.TLV_TYPE.GREET_TYPE
              Codec.GREET_TYPE.PARTICIPANT_DATA)).
  change (Forall is_byte [0; 5; 0; 2; 0; 0]).
  repeat constructor; unfold is_byte; lia.
Defined.

Lemma categoriseMessage_getQueryMessage_witness :
  Codec.categoriseMessage (Codec.getQueryMessage (js "Hello!"))
  = Ok (Some (Codec.mkCategorised Codec.MPENC_QUERY [1])).
Proof.
  apply (categoriseMessage_getQueryMessage 1 [] (js "Hello!")).
  - reflexivity.
  - lia.
Defined.

Lemma categoriseMessage_encodeErrorMessage_witness :
  exists b64 w : jsstring,
    Base64.btoa
      (if bool_decide (Toy.privKey = []) then []
       else Codec.signMessage Codec.MPENC_ERROR
              (js "from " ++ [34] ++ js "1" ++ [34] ++ js ":"
               ++ js "TERMINAL" ++ js ":" ++ js "Signature failed")
              Toy.privKey (eddsa_publickey Toy.privKey) [])
    = Ok b64
    /\ Codec.encodeErrorMessage (js "1") (js "TERMINAL")
         (Some (js "Signature failed")) Toy.privKey
         (eddsa_publickey Toy.privKey)
       = Ok (Some w)
    /\ Codec.categoriseMessage w
       = Ok (Some (Codec.mkCategorised Codec.MPENC_ERROR
                     (b64 ++ js ":" ++ js "from " ++ [34] ++ js "1" ++ [34]
                      ++ js ":" ++ js "TERMINAL" ++ js ":"
                      ++ js "Signature failed"))).
Proof.
  exact (categoriseMessage_encodeErrorMessage (js "1") (js "TERMINAL")
           (js "Signature failed") Toy.privKey
           (eddsa_publickey Toy.privKey)).
Defined.

Lemma greetType_number_roundtrip_witness :
  (GreetType.greetTypeToNumber [0x00; 0x9c] = 0x00 * 256 + 0x9c
   /\ GreetType.greetTypeFromNumber (GreetType.greetTypeToNumber [0x00; 0x9c])
      = [0x00; 0x9c])
  /\ bytestring (GreetType.greetTypeFromNumber 0x019c)
  /\ GreetType.greetTypeToNumber (GreetType.greetTypeFromNumber 0x019c)
     = 0x019c.
Proof.
  split.
  - apply (proj1 greetType_number_roundtrip 0x00 0x9c); unfold is_byte; lia.
  - apply (proj2 greetType_number_roundtrip 0x019c). lia.
Defined.

Lemma setBit_readBit_witness :
  (exists a' b',
      Greeter.GreetMessage.greetType
        (Toy.greetMessage Greeter.GREET_TYPE.INIT_PARTICIPANT_DOWN)
      = Some [a'; b'] /\ is_byte a' /\ is_byte b')
  /\ forall k, 0 <= k < 16 ->
       Greeter._readBit
         (Toy.greetMessage Greeter.GREET_TYPE.INIT_PARTICIPANT_DOWN) k
       = if k =? GreetType._DOWN_BIT then true
         else Greeter._readBit
                (Toy.greetMessage Greeter.GREET_TYPE.INIT_PARTICIPANT_UP) k.
Proof.
  apply (setBit_readBit
           (Toy.greetMessage Greeter.GREET_TYPE.INIT_PARTICIPANT_UP)
           (Toy.greetMessage Greeter.GREET_TYPE.INIT_PARTICIPANT_DOWN)
           0x00 0x1c GreetType._DOWN_BIT true VUndef).
  - reflexivity.
  - unfold is_byte. lia.
  - unfold is_byte. lia.
  - unfold GreetType._DOWN_BIT. lia.
  - reflexivity.
Defined.

Lemma pkcs1v15_roundtrip_witness :
  (exists enc,
      Ske._pkcs1v15_encode (js "hello") 32 (fun i => Z.of_nat i mod 255)
      = Ok enc
      /\ Z.of_nat (length enc) = 32
      /\ enc !! 0%nat = Some 2
      /\ Ske._pkcs1v15_decode enc = Ok (js "hello"))
  /\ Ske._pkcs1v15_encode (js "hello") 15 (fun i => Z.of_nat i mod 255)
     = Throw "message too long for encoding scheme".
Proof.
  split.
  - apply (pkcs1v15_roundtrip (js "hello") 32 (fun i => Z.of_nat i mod 255)).
    + intros i. apply Z.mod_pos_bound. lia.
    + cbn. lia.
  - apply (pkcs1v15_roundtrip (js "hello") 15 (fun i => Z.of_nat i mod 255)).
    + intros i. apply Z.mod_pos_bound. lia.
    + cbn. lia.
Defined.


Lemma quit_is_final_witness :
  Greeter.Greeting._opState Toy.quit_result.1 = Greeter.STATE.QUIT
  /\ (Toy.quit_result.2 = None
      <-> Greeter.Greeting._opState Toy.ready_greeting = Greeter.STATE.QUIT)
  /\ Greeter.quit Toy.quit_result.1 = Ok (Toy.quit_result.1, None)
  /\ (forall m rndC rndA,
         Greeter._processMessage Toy.quit_result.1 m rndC rndA
         = Ok (Toy.quit_result.1, None))
  /\ (forall others rndC rndA,
         raises (Greeter.start Toy.quit_result.1 others rndC rndA))
  /\ (forall others rndC rndA,
         raises (Greeter.include Toy.quit_result.1 others rndC rndA))
  /\ (forall others rndC,
         raises (Greeter.exclude Toy.quit_result.1 others rndC))
  /\ (forall rndC, raises (Greeter.refresh Toy.quit_result.1 rndC))
  /\ raises (Greeter.getResultState Toy.quit_result.1).
Proof.
  apply (quit_is_final Toy.ready_greeting Toy.quit_result.1 Toy.quit_result.2).
  reflexivity.
Defined.

Lemma operations_move_between_states_witness :
  Greeter.Greeting._opState (Toy.greeting (js "1") Greeter.STATE.NULL)
  = Greeter.STATE.NULL
  /\ [js "2"; js "3"] <> []
  /\ Greeter.Greeting.id Toy.start_result.1 = js "1"
  /\ exists p,
       Toy.start_result.2 = Some p
       /\ Greeter.GreetMessage.source p = js "1"
       /\ (Greeter.Greeting._opState Toy.start_result.1
           = Greeter.STATE.INIT_UPFLOW
           /\ Greeter.GreetMessage.greetType p
              = Some Greeter.GREET_TYPE.INIT_INITIATOR_UP
           \/ Greeter.Greeting._opState Toy.start_result.1 = Greeter.STATE.QUIT
              /\ Greeter.GreetMessage.greetType p
                 = Some Greeter.GREET_TYPE.QUIT_DOWN).
Proof.
  apply (proj1 (operations_move_between_states
                  (Toy.greeting (js "1") Greeter.STATE.NULL))
           [js "2"; js "3"] Toy.entropy Toy.entropy
           Toy.start_result.1 Toy.start_result.2).
  reflexivity.
Defined.

Lemma processMessage_ignored_witness :
  Greeter.Greeting._opState Toy.greeting_after_upflow
  = Greeter.Greeting._opState (Toy.greeting (js "2") Greeter.STATE.NULL)
  /\ Greeter.Greeting.id Toy.greeting_after_upflow = js "2"
  /\ (Some (Greeter.ProcessResult.mk (Some Toy.forwarded_with_key)
              (Some Greeter.STATE.INIT_UPFLOW)) = None ->
      Toy.greeting_after_upflow = Toy.greeting (js "2") Greeter.STATE.NULL)
  /\ (Some (Greeter.ProcessResult.mk (Some Toy.forwarded_with_key)
              (Some Greeter.STATE.INIT_UPFLOW)) = None
      <-> Greeter.Greeting._opState (Toy.greeting (js "2") Greeter.STATE.NULL)
          = Greeter.STATE.QUIT
          \/ ~ left_out (Toy.greeting (js "2") Greeter.STATE.NULL)
                 Toy.upflow_with_key
             /\ (Greeter.GreetMessage.dest Toy.upflow_with_key <> []
                 /\ Greeter.GreetMessage.dest Toy.upflow_with_key <> js "2"
                 \/ Greeter.GreetMessage.source Toy.upflow_with_key
                    = js "2")).
Proof.
  apply (processMessage_ignored (Toy.greeting (js "2") Greeter.STATE.NULL)
           Toy.greeting_after_upflow Toy.upflow_with_key Toy.entropy
           Toy.entropy).
  reflexivity.
Defined.

Lemma processMessage_reply_type_witness :
  (forall k, 0 <= k < 16 ->
     Greeter._readBit Toy.forwarded_with_key k
     = if k =? GreetType._INIT_BIT then false
       else if Greeter.isDownflow Toy.upflow_with_key
            then (if k =? GreetType._GKA_BIT then false
                  else Greeter._readBit Toy.upflow_with_key k)
            else (if k =? GreetType._DOWN_BIT
                  then bool_decide
                         (Greeter.GreetMessage.dest Toy.forwarded_with_key
                          = [])
                  else Greeter._readBit Toy.upflow_with_key k))
  /\ Greeter.getOperation Toy.forwarded_with_key
     = Greeter.getOperation Toy.upflow_with_key.
Proof.
  apply (processMessage_reply_type
           (Toy.greeting (js "2") Greeter.STATE.NULL)
           Toy.greeting_after_upflow Toy.upflow_with_key
           Toy.forwarded_with_key Toy.entropy Toy.entropy
           (Greeter.ProcessResult.mk (Some Toy.forwarded_with_key)
              (Some Greeter.STATE.INIT_UPFLOW)) 0x00 0x9c).
  - reflexivity.
  - reflexivity.
  - reflexivity.
  - unfold is_byte. lia.
  - unfold is_byte. lia.
Defined.

Lemma GreetStore_pubKeyMap_witness :
  exists s,
    Greeter.GreetStore_new
      [VNum (Greeter.STATE.code Greeter.STATE.READY);
       VArr [js "1"; js "2"]; VStr (js "sid"); VStr (js "priv1");
       VStr (js "pub1"); VStr (js "n1"); VArr [js "pub1"; js "pub2"]]
    = Ok s.
Proof.
  apply (proj1 (proj2 (GreetStore_pubKeyMap
                         (VNum (Greeter.STATE.code Greeter.STATE.READY))
                         (VStr (js "sid")) (VStr (js "priv1"))
                         (VStr (js "pub1")) (VStr (js "n1"))
                         [js "1"; js "2"] [js "pub1"; js "pub2"] []))).
  - by right.
  - reflexivity.
Defined.



Lemma processMessage_errors_witness :
  let g := Toy.greeting (js "2") Greeter.STATE.NULL in
  let m := Toy.upflow_with_duplicates in
  let e := "Duplicates in member list detected!"%string in
  exists inC,
    Greeter._getCliquesMessage g m = Ok inC
    /\ (Greeter.isDownflow m = true /\ Greeter.isGKA m = true
        /\ Greeter.cliques_downflow (Greeter.Greeting.cliquesMember g) inC
           = Throw e
        \/ Greeter.isDownflow m = true /\ Greeter.isSKE m = true
           /\ Greeter.aske_downflow (Greeter.Greeting.askeMember g)
                (Greeter._getAskeMessage g m)
              = Throw e
        \/ Greeter.isDownflow m = false
           /\ Greeter.cliques_upflow (Greeter.Greeting.cliquesMember g) inC
                Toy.entropy
              = Throw e
        \/ Greeter.isDownflow m = false
           /\ Ske.upflow (Greeter.Greeting.askeMember g)
                (Greeter._getAskeMessage g m) Toy.entropy
              = Throw e
        \/ Greeter.isDownflow m = false
           /\ exists c oc a oa,
                Greeter.cliques_upflow (Greeter.Greeting.cliquesMember g)
                  inC Toy.entropy
                = Ok (c, Some oc)
                /\ Ske.upflow (Greeter.Greeting.askeMember g)
                     (Greeter._getAskeMessage g m) Toy.entropy
                   = Ok (a, oa)
                /\ Greeter._mergeMessages
                     (Greeter.with_members c a g) (Some oc)
                     (Some oa)
                   = Throw e).
Proof.
  apply (processMessage_errors (Toy.greeting (js "2") Greeter.STATE.NULL)
           Toy.upflow_with_duplicates Toy.entropy Toy.entropy
           Greeter.GREET_TYPE.INIT_INITIATOR_UP).
  - reflexivity.
  - apply list_elem_of_here.
  - vm_compute. reflexivity.
Defined.

